(** * AES_encryptionSystem: the authenticated-encryption core

    A shallow embedding of [src/EncryptionSystem/AES_logic.py]: the [AES]
    class (key schedule, single-block cipher, CBC driver) and the public
    [encrypt] / [decrypt] operations with their input validation.

    Python [bytes] values and the lists of integers the cipher works on
    are lists of [Z]; every byte is a number in [0, 256).  Exceptions are
    values of [exn] carried by [result].  The module [encryption_logic]
    that [AES_logic.py] imports is modelled from the specification.  The
    functions of [hashlib] and [hmac] are the fields of the class
    [Hashlib]; what [os.urandom] returns is an argument of [encrypt]. *)

From Stdlib Require Import String ZArith List Lia Bool Morphisms.
From AAC_tactics Require Import AAC.
Import ListNotations.
Local Open Scope Z_scope.

(** ** Bytes *)

Definition bytes := list Z.

Definition is_byte (b : Z) : Prop := 0 <= b < 256.

Definition all_bytes (l : bytes) : Prop := Forall is_byte l.

(** The 256 byte values, in order. *)
Definition byte_range : list Z := map Z.of_nat (seq 0 256).

(** Python slice [l[i:j]] for [0 <= i <= j]. *)
Definition slice {A} (l : list A) (i j : nat) : list A :=
  firstn (j - i) (skipn i l).

(** Python [range(0, n, step)] for a positive [step], as the list of its
    values. *)
Definition range_step (n step : nat) : list nat :=
  map (fun k => (k * step)%nat) (seq 0 ((n + step - 1) / step)).

(** ** Exceptions and results *)

Inductive exn : Type :=
| EncryptDecryptWithoutKey
| EncryptDecryptEmptyMessage
| InvalidKeyLength
| UnsupportedMessageType
| IncorrectKey
| AssertionError (msg : string)
| IndexError
| TypeError
| UnicodeEncodeError
| UnicodeDecodeError
| PaddingError.

Inductive result (A : Type) : Type :=
| Ok (a : A)
| Raise (e : exn).
Arguments Ok {A} a.
Arguments Raise {A} e.

Definition rbind {A B} (r : result A) (k : A -> result B) : result B :=
  match r with
  | Ok a => k a
  | Raise e => Raise e
  end.

Definition assert (b : bool) (msg : string) : result unit :=
  if b then Ok tt else Raise (AssertionError msg).

Declare Scope result_scope.
Delimit Scope result_scope with result.
Notation "x <- r ;; k" := (rbind r (fun x => k))
  (at level 61, r at next level, right associativity) : result_scope.
Notation "r ;;; k" := (rbind r (fun _ => k))
  (at level 61, right associativity) : result_scope.

(** A Python [for] loop over [l] that threads one local variable and may
    raise. *)
Fixpoint for_each {A S} (l : list A) (s : S) (body : A -> S -> result S)
  : result S :=
  match l with
  | [] => Ok s
  | x :: l' => rbind (body x s) (fun s' => for_each l' s' body)
  end.

(** ** encryption_logic: constant tables *)

Module encryption_logic.

(** Modelled from the spec: [encryption_logic.s_box] is not part of the
    sources at hand; section 4.1 describes a fixed 256-entry substitution
    table of the standardized block cipher, a bijection on bytes. *)
Definition s_box : list Z :=
  [ 0x63; 0x7c; 0x77; 0x7b; 0xf2; 0x6b; 0x6f; 0xc5; 0x30; 0x01; 0x67; 0x2b; 0xfe; 0xd7; 0xab; 0x76;
    0xca; 0x82; 0xc9; 0x7d; 0xfa; 0x59; 0x47; 0xf0; 0xad; 0xd4; 0xa2; 0xaf; 0x9c; 0xa4; 0x72; 0xc0;
    0xb7; 0xfd; 0x93; 0x26; 0x36; 0x3f; 0xf7; 0xcc; 0x34; 0xa5; 0xe5; 0xf1; 0x71; 0xd8; 0x31; 0x15;
    0x04; 0xc7; 0x23; 0xc3; 0x18; 0x96; 0x05; 0x9a; 0x07; 0x12; 0x80; 0xe2; 0xeb; 0x27; 0xb2; 0x75;
    0x09; 0x83; 0x2c; 0x1a; 0x1b; 0x6e; 0x5a; 0xa0; 0x52; 0x3b; 0xd6; 0xb3; 0x29; 0xe3; 0x2f; 0x84;
    0x53; 0xd1; 0x00; 0xed; 0x20; 0xfc; 0xb1; 0x5b; 0x6a; 0xcb; 0xbe; 0x39; 0x4a; 0x4c; 0x58; 0xcf;
    0xd0; 0xef; 0xaa; 0xfb; 0x43; 0x4d; 0x33; 0x85; 0x45; 0xf9; 0x02; 0x7f; 0x50; 0x3c; 0x9f; 0xa8;
    0x51; 0xa3; 0x40; 0x8f; 0x92; 0x9d; 0x38; 0xf5; 0xbc; 0xb6; 0xda; 0x21; 0x10; 0xff; 0xf3; 0xd2;
    0xcd; 0x0c; 0x13; 0xec; 0x5f; 0x97; 0x44; 0x17; 0xc4; 0xa7; 0x7e; 0x3d; 0x64; 0x5d; 0x19; 0x73;
    0x60; 0x81; 0x4f; 0xdc; 0x22; 0x2a; 0x90; 0x88; 0x46; 0xee; 0xb8; 0x14; 0xde; 0x5e; 0x0b; 0xdb;
    0xe0; 0x32; 0x3a; 0x0a; 0x49; 0x06; 0x24; 0x5c; 0xc2; 0xd3; 0xac; 0x62; 0x91; 0x95; 0xe4; 0x79;
    0xe7; 0xc8; 0x37; 0x6d; 0x8d; 0xd5; 0x4e; 0xa9; 0x6c; 0x56; 0xf4; 0xea; 0x65; 0x7a; 0xae; 0x08;
    0xba; 0x78; 0x25; 0x2e; 0x1c; 0xa6; 0xb4; 0xc6; 0xe8; 0xdd; 0x74; 0x1f; 0x4b; 0xbd; 0x8b; 0x8a;
    0x70; 0x3e; 0xb5; 0x66; 0x48; 0x03; 0xf6; 0x0e; 0x61; 0x35; 0x57; 0xb9; 0x86; 0xc1; 0x1d; 0x9e;
    0xe1; 0xf8; 0x98; 0x11; 0x69; 0xd9; 0x8e; 0x94; 0x9b; 0x1e; 0x87; 0xe9; 0xce; 0x55; 0x28; 0xdf;
    0x8c; 0xa1; 0x89; 0x0d; 0xbf; 0xe6; 0x42; 0x68; 0x41; 0x99; 0x2d; 0x0f; 0xb0; 0x54; 0xbb; 0x16 ].

(** Modelled from the spec: the table lookup [table[b]] of the missing
    module; the cipher only indexes with bytes, for which the index is in
    range. *)
Definition lookup (table : list Z) (b : Z) : Z := nth (Z.to_nat b) table 0.

(** Modelled from the spec: position of the first occurrence of [v] in
    [table], which is how section 4.1 defines the inverse table. *)
Fixpoint index_of (v : Z) (table : list Z) : Z :=
  match table with
  | [] => 0
  | x :: t => if x =? v then 0 else 1 + index_of v t
  end.

(** Modelled from the spec: [encryption_logic.inv_s_box] is not part of
    the sources at hand; section 4.1 calls it the inverse of the
    substitution table, so entry [v] is the position of [v] in [s_box]. *)
Definition inv_s_box : list Z :=
  Eval vm_compute in map (fun v => index_of v s_box) byte_range.

(** Modelled from the spec: [encryption_logic.r_con] is not part of the
    sources at hand; section 4.2 calls it the sequence of round constants
    of the key expansion.  [AES._expand_key] reads it from index 1 on, so
    entry 0 is a filler; entry [i] is x^(i-1) in GF(2^8). *)
Definition r_con : list Z :=
  [ 0x00; 0x01; 0x02; 0x04; 0x08; 0x10; 0x20; 0x40;
    0x80; 0x1B; 0x36; 0x6C; 0xD8; 0xAB; 0x4D; 0x9A;
    0x2F; 0x5E; 0xBC; 0x63; 0xC6; 0x97; 0x35; 0x6A;
    0xD4; 0xB3; 0x7D; 0xFA; 0xEF; 0xC5; 0x91; 0x39 ].

(** ** encryption_logic: state matrices and round primitives

    A state (and a round key) is a list of four words of four bytes: word
    [c] is column [c] of the 4x4 matrix, and its entry [r] is in row [r]. *)

Definition matrix := list bytes.

(** Modelled from the spec: [encryption_logic.bytes2matrix] is not part of
    the sources at hand; sections 3 and 4.2 treat a byte string as a
    sequence of 4-byte words. *)
Definition bytes2matrix (text : bytes) : matrix :=
  map (fun i => slice text i (i + 4)) (range_step (length text) 4).

(** Modelled from the spec: [encryption_logic.matrix2bytes] is not part of
    the sources at hand; it is the way back from the words to the block. *)
Definition matrix2bytes (m : matrix) : bytes := concat m.

(** Modelled from the spec: [encryption_logic.xor_bytes] is not part of
    the sources at hand; the byte-wise XOR of sections 4.2 and 4.4, over
    the common length of its two arguments. *)
Definition xor_bytes (a b : bytes) : bytes :=
  map (fun ij => Z.lxor (fst ij) (snd ij)) (combine a b).

(** Modelled from the spec: [encryption_logic.add_round_key] is not part
    of the sources at hand; section 4.3: XOR of state and round-key matrix
    byte-wise. *)
Definition add_round_key (s k : matrix) : matrix :=
  map (fun ck => xor_bytes (fst ck) (snd ck)) (combine s k).

(** Modelled from the spec: [encryption_logic.sub_bytes] is not part of
    the sources at hand; section 4.3: every byte replaced via the
    substitution table. *)
Definition sub_bytes (s : matrix) : matrix := map (map (lookup s_box)) s.

(** Modelled from the spec: [encryption_logic.inv_sub_bytes], as
    [sub_bytes] with the inverse table. *)
Definition inv_sub_bytes (s : matrix) : matrix :=
  map (map (lookup inv_s_box)) s.

(** Modelled from the spec: the entry of row [r] in column [c] of a state
    of the missing module. *)
Definition entry (s : matrix) (c r : nat) : Z := nth r (nth c s []) 0.

(** Modelled from the spec: [encryption_logic.shift_rows] is not part of
    the sources at hand; section 4.3: each matrix row is rotated left by
    an offset equal to its row index. *)
Definition shift_rows (s : matrix) : matrix :=
  map (fun c => map (fun r => entry s ((c + r) mod 4) r) (seq 0 4)) (seq 0 4).

(** Modelled from the spec: [encryption_logic.inv_shift_rows], the
    rotation to the right by the same offset. *)
Definition inv_shift_rows (s : matrix) : matrix :=
  map (fun c => map (fun r => entry s ((c + 4 - r) mod 4) r) (seq 0 4))
      (seq 0 4).

(** Modelled from the spec: multiplication by x in GF(2^8) modulo the
    reduction polynomial x^8 + x^4 + x^3 + x + 1 that section 4.3 names;
    part of the missing [mix_columns]. *)
Definition xtime (a : Z) : Z :=
  if Z.testbit a 7
  then Z.land (Z.lxor (Z.shiftl a 1) 0x1B) 0xFF
  else Z.shiftl a 1.

(** Modelled from the spec: product in GF(2^8) of the [n]-bit constant
    [c] and the byte [b]; part of the missing [mix_columns]. *)
Fixpoint gf_mul_bits (n : nat) (c b : Z) : Z :=
  match n with
  | O => 0
  | S n' => Z.lxor (if Z.odd c then b else 0)
                   (gf_mul_bits n' (Z.shiftr c 1) (xtime b))
  end.

(** Modelled from the spec: product in GF(2^8) of two bytes. *)
Definition gf_mul (c b : Z) : Z := gf_mul_bits 8 c b.

(** XOR of a list of bytes. *)
Definition xor_sum (l : list Z) : Z := fold_right Z.lxor 0 l.

(** Modelled from the spec: product of a matrix of constants and a column
    over GF(2^8); part of the missing [mix_columns]. *)
Definition gf_mat_col (m : list (list Z)) (col : bytes) : bytes :=
  map (fun row => xor_sum (map (fun cb => gf_mul (fst cb) (snd cb))
                               (combine row col))) m.

(** Modelled from the spec: the fixed 4x4 matrix of MixColumns in the
    standardized cipher, and below it the matrix of InvMixColumns. *)
Definition mix_matrix : list (list Z) :=
  [ [2; 3; 1; 1]; [1; 2; 3; 1]; [1; 1; 2; 3]; [3; 1; 1; 2] ].

Definition inv_mix_matrix : list (list Z) :=
  [ [14; 11; 13; 9]; [9; 14; 11; 13]; [13; 9; 14; 11]; [11; 13; 9; 14] ].

(** Modelled from the spec: [encryption_logic.mix_columns] is not part of
    the sources at hand; section 4.3: each column is multiplied by a fixed
    4x4 matrix over GF(2^8) with the standard reduction polynomial. *)
Definition mix_columns (s : matrix) : matrix := map (gf_mat_col mix_matrix) s.

(** Modelled from the spec: [encryption_logic.inv_mix_columns], the
    product with the inverse matrix. *)
Definition inv_mix_columns (s : matrix) : matrix :=
  map (gf_mat_col inv_mix_matrix) s.

(** ** encryption_logic: padding and blocks *)

(** Modelled from the spec: [encryption_logic.pad] is not part of the
    sources at hand; section 4.4: append [16 - (len mod 16)] bytes each
    equal to that pad length. *)
Definition pad (plaintext : bytes) : bytes :=
  let padding_len := (16 - length plaintext mod 16)%nat in
  plaintext ++ repeat (Z.of_nat padding_len) padding_len.

(** Modelled from the spec: [encryption_logic.unpad] is not part of the
    sources at hand; section 4.4: the last byte is the declared pad length
    [p]; [1 <= p <= 16] and the last [p] bytes all equal [p], which are
    stripped; anything else is the malformed-padding error. *)
Definition unpad (plaintext : bytes) : result bytes :=
  match rev plaintext with
  | [] => Raise PaddingError
  | p :: _ =>
      let n := Z.to_nat p in
      let cut := (length plaintext - n)%nat in
      if (1 <=? p) && (p <=? 16) && (n <=? length plaintext)%nat
         && forallb (Z.eqb p) (skipn cut plaintext)
      then Ok (firstn cut plaintext)
      else Raise PaddingError
  end.

(** Modelled from the spec: [encryption_logic.split_blocks] is not part of
    the sources at hand; section 4.4: split into 16-byte blocks. *)
Definition split_blocks (message : bytes) : list bytes :=
  map (fun i => slice message i (i + 16)) (range_step (length message) 16).

End encryption_logic.

(** ** The AES class *)

Module AES.
Import encryption_logic.
Local Open Scope result_scope.

(** An instance: the fields [__init__] sets. *)
Record t : Type := { n_rounds : nat; _key_matrices : list matrix }.

(** The class attribute [rounds_by_key_size = {16: 10, 24: 12, 32: 14}]. *)
Definition rounds_by_key_size : list (nat * nat) :=
  [ (16, 10); (24, 12); (32, 14) ]%nat.

Fixpoint dict_get (d : list (nat * nat)) (k : nat) : option nat :=
  match d with
  | [] => None
  | (k', v) :: d' => if (k' =? k)%nat then Some v else dict_get d' k
  end.

(** One pass through the body of the [while] loop of [_expand_key]: the
    word to append and the new value of [i].  Every word of the schedule
    has four bytes, so [word.pop(0)] and [word[0]] always find a first
    byte; the defaults of [hd], [last] and [nth] are not reached. *)
Definition expand_word (master_key_len iteration_size : nat)
    (key_columns : list bytes) (i : Z) : bytes * Z :=
  let word := last key_columns [] in
  let word_i :=
    if (length key_columns mod iteration_size =? 0)%nat then
      let word := tl word ++ [hd 0 word] in
      let word := map (lookup s_box) word in
      let word := Z.lxor (hd 0 word) (lookup r_con i) :: tl word in
      (word, i + 1)
    else if (master_key_len =? 32)%nat
            && (length key_columns mod iteration_size =? 4)%nat then
      (map (lookup s_box) word, i)
    else (word, i) in
  (xor_bytes (fst word_i)
             (nth (length key_columns - iteration_size) key_columns []),
   snd word_i).

(** The [while len(key_columns) < (self.n_rounds + 1) * 4] loop; [fuel]
    bounds the number of passes. *)
Fixpoint expand_loop (fuel : nat) (master_key_len n_rounds iteration_size : nat)
    (key_columns : list bytes) (i : Z) : list bytes :=
  match fuel with
  | O => key_columns
  | S fuel' =>
      if (length key_columns <? (n_rounds + 1) * 4)%nat then
        let wi := expand_word master_key_len iteration_size key_columns i in
        expand_loop fuel' master_key_len n_rounds iteration_size
                    (key_columns ++ [fst wi]) (snd wi)
      else key_columns
  end.

(** [_expand_key]: every pass appends one word, so [(n_rounds + 1) * 4]
    passes are enough for the loop to reach its exit test (lemma
    [expand_loop_spec]). *)
Definition _expand_key (n_rounds : nat) (master_key : bytes) : list matrix :=
  let key_columns := bytes2matrix master_key in
  let iteration_size := (length master_key / 4)%nat in
  let key_columns :=
    expand_loop ((n_rounds + 1) * 4) (length master_key) n_rounds
                iteration_size key_columns 1 in
  map (fun i => slice key_columns (4 * i) (4 * (i + 1)))
      (seq 0 (length key_columns / 4)).

Definition __init__ (master_key : bytes) : result t :=
  match dict_get rounds_by_key_size (length master_key) with
  | None => Raise (AssertionError "")
  | Some n =>
      Ok {| n_rounds := n; _key_matrices := _expand_key n master_key |}
  end.

(** [self._key_matrices[i]] for [i >= 0]. *)
Definition key_matrix (self : t) (i : nat) : result matrix :=
  match nth_error (_key_matrices self) i with
  | Some k => Ok k
  | None => Raise IndexError
  end.

(** [self._key_matrices[-1]]. *)
Definition last_key_matrix (self : t) : result matrix :=
  match rev (_key_matrices self) with
  | k :: _ => Ok k
  | [] => Raise IndexError
  end.

Definition encrypt_block (self : t) (plaintext : bytes) : result bytes :=
  assert (length plaintext =? 16)%nat "" ;;;
  let plain_state := bytes2matrix plaintext in
  k <- key_matrix self 0 ;;
  let plain_state := add_round_key plain_state k in
  plain_state <-
    for_each (seq 1 (n_rounds self - 1)) plain_state (fun i plain_state =>
      let plain_state := sub_bytes plain_state in
      let plain_state := shift_rows plain_state in
      let plain_state := mix_columns plain_state in
      k <- key_matrix self i ;;
      Ok (add_round_key plain_state k)) ;;
  let plain_state := sub_bytes plain_state in
  let plain_state := shift_rows plain_state in
  k <- last_key_matrix self ;;
  let plain_state := add_round_key plain_state k in
  Ok (matrix2bytes plain_state).

Definition decrypt_block (self : t) (ciphertext : bytes) : result bytes :=
  assert (length ciphertext =? 16)%nat "" ;;;
  let cipher_state := bytes2matrix ciphertext in
  k <- last_key_matrix self ;;
  let cipher_state := add_round_key cipher_state k in
  let cipher_state := inv_shift_rows cipher_state in
  let cipher_state := inv_sub_bytes cipher_state in
  cipher_state <-
    for_each (rev (seq 1 (n_rounds self - 1))) cipher_state
      (fun i cipher_state =>
        k <- key_matrix self i ;;
        let cipher_state := add_round_key cipher_state k in
        let cipher_state := inv_mix_columns cipher_state in
        let cipher_state := inv_shift_rows cipher_state in
        Ok (inv_sub_bytes cipher_state)) ;;
  k <- key_matrix self 0 ;;
  let cipher_state := add_round_key cipher_state k in
  Ok (matrix2bytes cipher_state).

(** [encrypt_cbc]: the loop threads [blocks] and [previous]. *)
Definition encrypt_cbc (self : t) (plaintext iv : bytes) : result bytes :=
  assert (length iv =? 16)%nat "" ;;;
  let plaintext := pad plaintext in
  st <- for_each (split_blocks plaintext) ([], iv)
          (fun plaintext_block st =>
             block <- encrypt_block self
                        (xor_bytes plaintext_block (snd st)) ;;
             Ok (fst st ++ [block], block)) ;;
  Ok (concat (fst st)).

Definition decrypt_cbc (self : t) (ciphertext iv : bytes) : result bytes :=
  assert (length iv =? 16)%nat "" ;;;
  st <- for_each (split_blocks ciphertext) ([], iv)
          (fun ciphertext_block st =>
             d <- decrypt_block self ciphertext_block ;;
             Ok (fst st ++ [xor_bytes (snd st) d], ciphertext_block)) ;;
  unpad (concat (fst st)).

End AES.

(** * The public API: encrypt and decrypt *)

(** ** Python values at the API boundary

    A key or a message reaches the API as [None], as [bytes] or as [str];
    a [str] is the list of its code points. *)
Inductive pyval : Type :=
| PyNone
| PyBytes (b : bytes)
| PyStr (s : list Z).

(** [len(v)] of a sized value. *)
Definition py_len (v : pyval) : nat :=
  match v with
  | PyNone => 0
  | PyBytes b => length b
  | PyStr s => length s
  end.

(** Truth value of [v], as [not v] tests it. *)
Definition py_truthy (v : pyval) : bool :=
  match v with
  | PyNone => false
  | PyBytes b => negb (length b =? 0)%nat
  | PyStr s => negb (length s =? 0)%nat
  end.

(** ** The UTF-8 codec of [str.encode] and [bytes.decode]

    The codec is CPython's; this is its strict behaviour on code points
    and byte sequences: shortest forms only, no surrogates, nothing above
    U+10FFFF. *)

Definition utf8_encode_char (c : Z) : result bytes :=
  if (c <? 0) then Raise UnicodeEncodeError
  else if c <? 0x80 then Ok [c]
  else if c <? 0x800 then Ok [0xC0 + c / 64; 0x80 + c mod 64]
  else if c <? 0x10000 then
    if (0xD800 <=? c) && (c <=? 0xDFFF) then Raise UnicodeEncodeError
    else Ok [0xE0 + c / 4096; 0x80 + (c / 64) mod 64; 0x80 + c mod 64]
  else if c <? 0x110000 then
    Ok [0xF0 + c / 262144; 0x80 + (c / 4096) mod 64;
        0x80 + (c / 64) mod 64; 0x80 + c mod 64]
  else Raise UnicodeEncodeError.

Fixpoint utf8_encode (s : list Z) : result bytes :=
  match s with
  | [] => Ok []
  | c :: s' =>
      rbind (utf8_encode_char c) (fun b =>
      rbind (utf8_encode s') (fun bs => Ok (b ++ bs)))
  end.

(** A continuation byte, [10xxxxxx]. *)
Definition utf8_cont (b : Z) : bool := (0x80 <=? b) && (b <=? 0xBF).

Fixpoint utf8_decode (b : bytes) : result (list Z) :=
  match b with
  | [] => Ok []
  | b0 :: r0 =>
      if (0 <=? b0) && (b0 <? 0x80) then
        rbind (utf8_decode r0) (fun cs => Ok (b0 :: cs))
      else if (0xC2 <=? b0) && (b0 <=? 0xDF) then
        match r0 with
        | b1 :: r1 =>
            if utf8_cont b1 then
              rbind (utf8_decode r1) (fun cs =>
                Ok ((b0 - 0xC0) * 64 + (b1 - 0x80) :: cs))
            else Raise UnicodeDecodeError
        | _ => Raise UnicodeDecodeError
        end
      else if (0xE0 <=? b0) && (b0 <=? 0xEF) then
        match r0 with
        | b1 :: b2 :: r2 =>
            if utf8_cont b1 && utf8_cont b2
               && negb ((b0 =? 0xE0) && (b1 <? 0xA0))
               && negb ((b0 =? 0xED) && (0x9F <? b1)) then
              rbind (utf8_decode r2) (fun cs =>
                Ok ((b0 - 0xE0) * 4096 + (b1 - 0x80) * 64 + (b2 - 0x80)
                    :: cs))
            else Raise UnicodeDecodeError
        | _ => Raise UnicodeDecodeError
        end
      else if (0xF0 <=? b0) && (b0 <=? 0xF4) then
        match r0 with
        | b1 :: b2 :: b3 :: r3 =>
            if utf8_cont b1 && utf8_cont b2 && utf8_cont b3
               && negb ((b0 =? 0xF0) && (b1 <? 0x90))
               && negb ((b0 =? 0xF4) && (0x8F <? b1)) then
              rbind (utf8_decode r3) (fun cs =>
                Ok ((b0 - 0xF0) * 262144 + (b1 - 0x80) * 4096
                    + (b2 - 0x80) * 64 + (b3 - 0x80) :: cs))
            else Raise UnicodeDecodeError
        | _ => Raise UnicodeDecodeError
        end
      else Raise UnicodeDecodeError
  end.

(** [if isinstance(v, str): v = v.encode('utf-8')]. *)
Definition encode_if_str (v : pyval) : result pyval :=
  match v with
  | PyStr s => rbind (utf8_encode s) (fun b => Ok (PyBytes b))
  | _ => Ok v
  end.

(** The byte string behind a value known to be [bytes]; [hashlib] and
    the cipher refuse anything else. *)
Definition as_bytes (v : pyval) : result bytes :=
  match v with
  | PyBytes b => Ok b
  | _ => Raise TypeError
  end.

(** ** hashlib, hmac and os

    [hashlib.pbkdf2_hmac('sha256', ...)] and [hmac.new(..., 'sha256')
    .digest()] are library code; the API is embedded over any pair of
    functions with the output sizes the library documents.  Iteration
    counts are positive integers. *)
Class Hashlib : Type := {
  pbkdf2_hmac : bytes -> bytes -> positive -> nat -> bytes;
  new_hmac_digest : bytes -> bytes -> bytes;
  pbkdf2_hmac_length :
    forall password salt iterations dklen,
      length (pbkdf2_hmac password salt iterations dklen) = dklen;
  pbkdf2_hmac_bytes :
    forall password salt iterations dklen,
      all_bytes (pbkdf2_hmac password salt iterations dklen);
  new_hmac_digest_length :
    forall key msg, length (new_hmac_digest key msg) = 32%nat;
}.

(** [hmac.compare_digest]: equality of two byte strings. *)
Definition compare_digest (a b : bytes) : bool :=
  if list_eq_dec Z.eq_dec a b then true else false.

(** ** Calls observed during an API operation

    [encrypt] and [decrypt] are run in a writer monad that records, in
    order, every call to the random source, to the key derivation, to the
    cipher and to the authentication code. *)
Inductive call : Type :=
| call_urandom (n : nat)
| call_pbkdf2_hmac (password salt : bytes) (iterations : positive)
                   (dklen : nat)
| call_AES (master_key : bytes)
| call_encrypt_cbc (plaintext iv : bytes)
| call_decrypt_cbc (ciphertext iv : bytes)
| call_new_hmac (key msg : bytes)
| call_compare_digest (a b : bytes).

Definition M (A : Type) : Type := (list call * result A)%type.

Definition ret {A} (a : A) : M A := ([], Ok a).

Definition lift {A} (r : result A) : M A := ([], r).

(** Performs [c], with outcome [r]. *)
Definition perform {A} (c : call) (r : result A) : M A := ([c], r).

Definition bind {A B} (m : M A) (k : A -> M B) : M B :=
  match snd m with
  | Ok a => (fst m ++ fst (k a), snd (k a))
  | Raise e => (fst m, Raise e)
  end.

Declare Scope api_scope.
Delimit Scope api_scope with api.
Notation "x <- m ;; k" := (bind m (fun x => k))
  (at level 61, m at next level, right associativity) : api_scope.
Notation "m ;;; k" := (bind m (fun _ => k))
  (at level 61, right associativity) : api_scope.

Definition AES_KEY_SIZE : nat := 16.
Definition HMAC_KEY_SIZE : nat := 16.
Definition IV_SIZE : nat := 16.
Definition SALT_SIZE : nat := 16.
Definition HMAC_SIZE : nat := 32.

Section API.
Context {hashlib : Hashlib}.
Local Open Scope api_scope.

Definition get_key_iv (password salt : bytes) (workload : positive)
  : M (bytes * bytes * bytes) :=
  let dklen := (AES_KEY_SIZE + IV_SIZE + HMAC_KEY_SIZE)%nat in
  stretched <- perform (call_pbkdf2_hmac password salt workload dklen)
                       (Ok (pbkdf2_hmac password salt workload dklen)) ;;
  let aes_key := firstn AES_KEY_SIZE stretched in
  let stretched := skipn AES_KEY_SIZE stretched in
  let hmac_key := firstn HMAC_KEY_SIZE stretched in
  let stretched := skipn HMAC_KEY_SIZE stretched in
  let iv := firstn IV_SIZE stretched in
  ret (aes_key, hmac_key, iv).

Definition key_length_ok (n : nat) : bool :=
  existsb (Nat.eqb n) [16; 24; 32]%nat.

(** [validate_encryption_inputs]; both arguments have been through
    [encode_if_str]. *)
Definition validate_encryption_inputs (key plaintext : pyval) : result unit :=
  if match key with PyNone => true | _ => (py_len key =? 0)%nat end then
    Raise EncryptDecryptWithoutKey
  else if negb (py_truthy plaintext) then Raise EncryptDecryptEmptyMessage
  else if negb (key_length_ok (py_len key)) then Raise InvalidKeyLength
  else
    rbind (as_bytes plaintext) (fun plaintext =>
    rbind (utf8_decode plaintext) (fun chars =>
    for_each chars tt (fun char _ =>
      if 127 <? char then Raise UnsupportedMessageType else Ok tt))).

(** [encrypt]; [random_salt] is what [os.urandom(SALT_SIZE)] returns in
    this call. *)
Definition encrypt (key plaintext : pyval) (workload : positive)
    (random_salt : bytes) : M bytes :=
  key <- lift (encode_if_str key) ;;
  plaintext <- lift (encode_if_str plaintext) ;;
  lift (validate_encryption_inputs key plaintext) ;;;
  salt <- perform (call_urandom SALT_SIZE) (Ok random_salt) ;;
  key <- lift (as_bytes key) ;;
  plaintext <- lift (as_bytes plaintext) ;;
  kmi <- get_key_iv key salt workload ;;
  let key := fst (fst kmi) in
  let hmac_key := snd (fst kmi) in
  let iv := snd kmi in
  self <- perform (call_AES key) (AES.__init__ key) ;;
  ciphertext <- perform (call_encrypt_cbc plaintext iv)
                        (AES.encrypt_cbc self plaintext iv) ;;
  hmac <- perform (call_new_hmac hmac_key (salt ++ ciphertext))
                  (Ok (new_hmac_digest hmac_key (salt ++ ciphertext))) ;;
  lift (assert (length hmac =? HMAC_SIZE)%nat "") ;;;
  ret (hmac ++ salt ++ ciphertext).

Definition validate_decryption_inputs (key ciphertext : pyval) : result unit :=
  if match key with PyNone => true | _ => (py_len key =? 0)%nat end then
    Raise EncryptDecryptWithoutKey
  else if negb (py_truthy ciphertext) then Raise EncryptDecryptEmptyMessage
  else if negb (key_length_ok (py_len key)) then Raise InvalidKeyLength
  else Ok tt.

Definition full_blocks_msg : string :=
  "Ciphertext must be made of full 16-byte blocks.".

(** The end of a line inside a string literal of the source. *)
Definition newline : Ascii.ascii := Ascii.ascii_of_nat 10.

(** The message of the second assertion: a literal in triple quotes, which
    starts with the end of the line it opens on, holds its two lines with
    their indentation of four spaces, and ends with the indentation of the
    line that closes it. *)
Definition too_short_msg : string :=
  String newline
    (String.append
       "    Ciphertext must be at least 32 bytes long (16 byte salt + 16 byte block). To"
       (String newline
          (String.append
             "    encrypt or decrypt single blocks use `AES(key).decrypt_block(ciphertext)`."
             (String newline "    ")))).

Definition tampered_msg : string := "Ciphertext corrupted or tampered.".

Definition decrypt (key ciphertext : pyval) (workload : positive) : M bytes :=
  lift (validate_decryption_inputs key ciphertext) ;;;
  lift (assert (py_len ciphertext mod 16 =? 0)%nat full_blocks_msg) ;;;
  lift (assert (32 <=? py_len ciphertext)%nat too_short_msg) ;;;
  key <- lift (encode_if_str key) ;;
  key <- lift (as_bytes key) ;;
  ciphertext <- lift (as_bytes ciphertext) ;;
  let hmac := firstn HMAC_SIZE ciphertext in
  let ciphertext := skipn HMAC_SIZE ciphertext in
  let salt := firstn SALT_SIZE ciphertext in
  let ciphertext := skipn SALT_SIZE ciphertext in
  kmi <- get_key_iv key salt workload ;;
  let key := fst (fst kmi) in
  let hmac_key := snd (fst kmi) in
  let iv := snd kmi in
  expected_hmac <- perform (call_new_hmac hmac_key (salt ++ ciphertext))
                     (Ok (new_hmac_digest hmac_key (salt ++ ciphertext))) ;;
  perform (call_compare_digest hmac expected_hmac)
          (assert (compare_digest hmac expected_hmac) tampered_msg) ;;;
  self <- perform (call_AES key) (AES.__init__ key) ;;
  perform (call_decrypt_cbc ciphertext iv)
          (AES.decrypt_cbc self ciphertext iv).

End API.

(** * Predicates and auxiliary definitions of the proofs *)

Import encryption_logic.

(** Entry [(i, j)] of the product of two constant matrices, applied to
    the byte [a]. *)
Definition mix_product (n m : list (list Z)) (i j : nat) (a : Z) : Z :=
  xor_sum (map (fun k => gf_mul (nth k (nth i n []) 0)
                                (gf_mul (nth j (nth k m []) 0) a))
               (seq 0 4)).

Definition mix_product_check (n m : list (list Z)) (a : Z) : bool :=
  forallb (fun i => forallb (fun j =>
      mix_product n m i j a =? (if (i =? j)%nat then a else 0))
    (seq 0 4)) (seq 0 4).

Definition wf_word (w : bytes) : Prop := length w = 4%nat /\ all_bytes w.

Definition wf_matrix (m : matrix) : Prop :=
  length m = 4%nat /\ Forall wf_word m.

Definition valid_key_length (n : nat) : Prop :=
  n = 16%nat \/ n = 24%nat \/ n = 32%nat.

Definition wf_cipher (self : AES.t) : Prop :=
  length (AES._key_matrices self) = (AES.n_rounds self + 1)%nat
  /\ Forall wf_matrix (AES._key_matrices self).

(** Section 4.3 of the specification lists the primitive operations of
    [encrypt_block] and [decrypt_block] in order.  The lists below follow
    its words; the lemmas [encrypt_block_ops] and [decrypt_block_ops]
    relate them to the two methods. *)
Inductive round_op : Type :=
| AddRoundKey (i : nat)
| SubBytes
| ShiftRows
| MixColumns
| InvSubBytes
| InvShiftRows
| InvMixColumns.

Definition inverse_op (o : round_op) : round_op :=
  match o with
  | AddRoundKey i => AddRoundKey i
  | SubBytes => InvSubBytes
  | ShiftRows => InvShiftRows
  | MixColumns => InvMixColumns
  | InvSubBytes => SubBytes
  | InvShiftRows => ShiftRows
  | InvMixColumns => MixColumns
  end.

Definition run_op (self : AES.t) (o : round_op) (s : matrix) : result matrix :=
  match o with
  | AddRoundKey i => rbind (AES.key_matrix self i)
                           (fun k => Ok (add_round_key s k))
  | SubBytes => Ok (sub_bytes s)
  | ShiftRows => Ok (shift_rows s)
  | MixColumns => Ok (mix_columns s)
  | InvSubBytes => Ok (inv_sub_bytes s)
  | InvShiftRows => Ok (inv_shift_rows s)
  | InvMixColumns => Ok (inv_mix_columns s)
  end.

Definition run_ops (self : AES.t) (ops : list round_op) (s : matrix)
  : result matrix :=
  for_each ops s (run_op self).

(** Encrypt, in the words of section 4.3: AddRoundKey with matrix 0; for
    rounds 1..rounds-1: SubBytes, ShiftRows, MixColumns,
    AddRoundKey(matrix[i]); final round: SubBytes, ShiftRows,
    AddRoundKey(last matrix). *)
Definition encrypt_ops (rounds : nat) : list round_op :=
  [AddRoundKey 0]
  ++ flat_map (fun i => [SubBytes; ShiftRows; MixColumns; AddRoundKey i])
              (seq 1 (rounds - 1))
  ++ [SubBytes; ShiftRows; AddRoundKey rounds].

(** Decrypt, in the words of section 4.3: AddRoundKey(last),
    InvShiftRows, InvSubBytes; then for rounds-1..1 descending:
    AddRoundKey(matrix[i]), InvMixColumns, InvShiftRows, InvSubBytes;
    finally AddRoundKey(matrix 0). *)
Definition decrypt_ops (rounds : nat) : list round_op :=
  [AddRoundKey rounds; InvShiftRows; InvSubBytes]
  ++ flat_map (fun i => [AddRoundKey i; InvMixColumns; InvShiftRows;
                         InvSubBytes])
              (rev (seq 1 (rounds - 1)))
  ++ [AddRoundKey 0].

Definition forward_op (o : round_op) : Prop :=
  match o with
  | AddRoundKey _ | SubBytes | ShiftRows | MixColumns => True
  | _ => False
  end.

Definition key_in_range (self : AES.t) (o : round_op) : Prop :=
  match o with
  | AddRoundKey i => (i < length (AES._key_matrices self))%nat
  | _ => True
  end.

(** The key material [get_key_iv] derives: AES key, HMAC key and IV. *)
Definition derived `{Hashlib} (password salt : bytes) (workload : positive)
  : bytes * bytes * bytes :=
  let stretched := pbkdf2_hmac password salt workload 48 in
  (firstn 16 stretched, firstn 16 (skipn 16 stretched),
   firstn 16 (skipn 16 (skipn 16 stretched))).

Definition is_ascii (c : Z) : Prop := 0 <= c <= 127.

(** ** A stand-in for hashlib in the examples

    The closed examples below run the API on a fixed pair of functions of
    the right output sizes; they are no hash functions. *)
Definition example_pbkdf2_hmac (password salt : bytes) (iterations : positive)
    (dklen : nat) : bytes :=
  map (fun i => (xor_sum password + xor_sum salt + Z.pos iterations
                 + 7 * Z.of_nat i) mod 256)
      (seq 0 dklen).

Definition example_hmac_digest (key msg : bytes) : bytes :=
  map (fun i => (xor_sum key + 3 * xor_sum msg + Z.of_nat (length msg)
                 + 5 * Z.of_nat i) mod 256)
      (seq 0 32).

Definition example_hashlib : Hashlib.
Proof.
  refine {| pbkdf2_hmac := example_pbkdf2_hmac;
            new_hmac_digest := example_hmac_digest |}.
  - intros. unfold example_pbkdf2_hmac.
    rewrite length_map, length_seq. reflexivity.
  - intros. unfold example_pbkdf2_hmac. apply Forall_forall. intros x Hx.
    apply in_map_iff in Hx. destruct Hx as (i & <- & _).
    apply Z.mod_pos_bound. reflexivity.
  - intros. unfold example_hmac_digest.
    rewrite length_map, length_seq. reflexivity.
Defined.

(** ** The known-answer vectors of the standard

    FIPS 197, appendix C: the plaintext block 00 11 22 ... ff under the
    keys 00 01 02 ... of 16, 24 and 32 bytes. *)
Definition kat_plaintext : bytes := map (fun b => 17 * b) (firstn 16 byte_range).

Definition kat_key (n : nat) : bytes := firstn n byte_range.

Definition kat_ciphertext_128 : bytes :=
  [ 0x69; 0xc4; 0xe0; 0xd8; 0x6a; 0x7b; 0x04; 0x30;
    0xd8; 0xcd; 0xb7; 0x80; 0x70; 0xb4; 0xc5; 0x5a ].

Definition kat_ciphertext_192 : bytes :=
  [ 0xdd; 0xa9; 0x7c; 0xa4; 0x86; 0x4c; 0xdf; 0xe0;
    0x6e; 0xaf; 0x70; 0xa0; 0xec; 0x0d; 0x71; 0x91 ].

Definition kat_ciphertext_256 : bytes :=
  [ 0x8e; 0xa2; 0xb7; 0xca; 0x51; 0x67; 0x45; 0xbf;
    0xea; 0xfc; 0x49; 0x90; 0x4b; 0x49; 0x60; 0x89 ].

(** [AES(key).encrypt_block(block)] and [AES(key).decrypt_block(block)]. *)
Definition AES_encrypt_block (key block : bytes) : result bytes :=
  rbind (AES.__init__ key) (fun self => AES.encrypt_block self block).

Definition AES_decrypt_block (key block : bytes) : result bytes :=
  rbind (AES.__init__ key) (fun self => AES.decrypt_block self block).

(** The byte strings of the concrete scenario of section 8. *)
Definition scenario_key : bytes :=
  [48; 49; 50; 51; 52; 53; 54; 55; 56; 57; 97; 98; 99; 100; 101; 102].

Definition scenario_plaintext : bytes :=
  [104; 101; 108; 108; 111; 32; 119; 111; 114; 108; 100].

Definition zero_salt : bytes := repeat 0 16.

(** A 48-byte blob of zeros: a tag that matches nothing. *)
Definition forged_blob : bytes := repeat 0 48.

(** A key "of length [n]": [n] is its length as passed and as a byte
    string, which is the same for [bytes] and for text of one-byte
    characters. *)
Definition key_has_length (key : pyval) (n : nat) : Prop :=
  py_len key = n /\ exists kb, encode_if_str key = Ok (PyBytes kb)
                               /\ length kb = n.

(** A message that is not empty: bytes, or text that encodes. *)
Definition non_empty_message (v : pyval) : Prop :=
  exists b, encode_if_str v = Ok (PyBytes b) /\ b <> [].

(** An empty or missing key. *)
Definition empty_key (key : pyval) : Prop :=
  key = PyNone \/ key = PyBytes [] \/ key = PyStr [].

(** The blob [encrypt] returns for the scenario key and plaintext with
    the stand-in [example_hashlib], one iteration and the salt [salt],
    for a salt whose bytes cancel under xor: tag, salt, one block of
    ciphertext. *)
Definition scenario_blob (salt : bytes) : bytes :=
  [ 251; 0; 5; 10; 15; 20; 25; 30; 35; 40; 45; 50; 55; 60; 65; 70;
    75; 80; 85; 90; 95; 100; 105; 110; 115; 120; 125; 130; 135; 140;
    145; 150 ]
  ++ salt
  ++ [ 211; 33; 52; 153; 196; 61; 187; 177;
       249; 128; 97; 70; 155; 161; 155; 218 ].

(** * Properties of the byte operations *)

Lemma byte_range_In (b : Z) : is_byte b -> In b byte_range.
Proof.
  intros [Hlo Hhi]. unfold byte_range.
  rewrite <- (Z2Nat.id b Hlo). apply in_map, in_seq. lia.
Qed.

(** A check run over the 256 byte values holds of every byte. *)
Lemma byte_forall (P : Z -> bool) :
  forallb P byte_range = true -> forall b, is_byte b -> P b = true.
Proof.
  intros H b Hb. rewrite forallb_forall in H. apply H, byte_range_In, Hb.
Qed.

Lemma byte_forall2 (P : Z -> Z -> bool) :
  forallb (fun a => forallb (P a) byte_range) byte_range = true ->
  forall a b, is_byte a -> is_byte b -> P a b = true.
Proof.
  intros H a b Ha Hb.
  apply (byte_forall (P a)); [|exact Hb].
  apply (byte_forall (fun a => forallb (P a) byte_range)); assumption.
Qed.

Lemma is_byte_0 : is_byte 0.
Proof. unfold is_byte; lia. Qed.

Lemma is_byte_lxor (a b : Z) : is_byte a -> is_byte b -> is_byte (Z.lxor a b).
Proof.
  intros Ha Hb.
  assert (H : (Z.lxor a b =? Z.lxor a b) && (0 <=? Z.lxor a b)
              && (Z.lxor a b <? 256) = true).
  { revert a b Ha Hb.
    apply (byte_forall2 (fun a b => (Z.lxor a b =? Z.lxor a b)
             && (0 <=? Z.lxor a b) && (Z.lxor a b <? 256))).
    vm_compute. reflexivity. }
  unfold is_byte. lia.
Qed.

Lemma lxor_cancel_r (a k : Z) : Z.lxor (Z.lxor a k) k = a.
Proof. rewrite Z.lxor_assoc, Z.lxor_nilpotent, Z.lxor_0_r. reflexivity. Qed.

Lemma lxor_cancel_l (a k : Z) : Z.lxor k (Z.lxor a k) = a.
Proof. rewrite Z.lxor_comm. apply lxor_cancel_r. Qed.

Lemma is_byte_lookup (table : list Z) (b : Z) :
  all_bytes table -> is_byte (lookup table b).
Proof.
  intros H. unfold lookup.
  destruct (nth_in_or_default (Z.to_nat b) table 0) as [Hin | ->].
  - unfold all_bytes in H. rewrite Forall_forall in H. apply H, Hin.
  - apply is_byte_0.
Qed.

Lemma all_bytes_check (l : bytes) :
  forallb (fun b => (0 <=? b) && (b <? 256)) l = true -> all_bytes l.
Proof.
  intros H. rewrite forallb_forall in H. apply Forall_forall.
  intros b Hb. specialize (H b Hb). unfold is_byte. lia.
Qed.

Lemma s_box_bytes : all_bytes s_box.
Proof. apply all_bytes_check. vm_compute. reflexivity. Qed.

Lemma inv_s_box_bytes : all_bytes inv_s_box.
Proof. apply all_bytes_check. vm_compute. reflexivity. Qed.

Lemma r_con_bytes : all_bytes r_con.
Proof. apply all_bytes_check. vm_compute. reflexivity. Qed.

Lemma inv_s_box_s_box (b : Z) :
  is_byte b -> lookup inv_s_box (lookup s_box b) = b.
Proof.
  intros Hb. apply Z.eqb_eq. revert b Hb.
  apply (byte_forall (fun b => lookup inv_s_box (lookup s_box b) =? b)).
  vm_compute. reflexivity.
Qed.

Lemma s_box_inv_s_box (b : Z) :
  is_byte b -> lookup s_box (lookup inv_s_box b) = b.
Proof.
  intros Hb. apply Z.eqb_eq. revert b Hb.
  apply (byte_forall (fun b => lookup s_box (lookup inv_s_box b) =? b)).
  vm_compute. reflexivity.
Qed.

(** *** GF(2^8) products *)

#[local] Instance lxor_Associative : Associative eq Z.lxor.
Proof. intros x y z. symmetry. apply Z.lxor_assoc. Qed.

#[local] Instance lxor_Commutative : Commutative eq Z.lxor.
Proof. intros x y. apply Z.lxor_comm. Qed.

#[local] Instance lxor_Unit : Unit eq Z.lxor 0.
Proof. split; intros x; [apply Z.lxor_0_l | apply Z.lxor_0_r]. Qed.

Lemma xtime_byte (b : Z) : is_byte b -> is_byte (xtime b).
Proof.
  intros Hb.
  assert (H : (0 <=? xtime b) && (xtime b <? 256) = true).
  { revert b Hb. apply byte_forall. vm_compute. reflexivity. }
  unfold is_byte. lia.
Qed.

Lemma xtime_lxor (a b : Z) :
  is_byte a -> is_byte b -> xtime (Z.lxor a b) = Z.lxor (xtime a) (xtime b).
Proof.
  intros Ha Hb. apply Z.eqb_eq. revert a b Ha Hb.
  apply (byte_forall2
           (fun a b => xtime (Z.lxor a b) =? Z.lxor (xtime a) (xtime b))).
  vm_compute. reflexivity.
Qed.

Lemma gf_mul_bits_byte (n : nat) (c b : Z) :
  is_byte b -> is_byte (gf_mul_bits n c b).
Proof.
  revert c b. induction n as [|n IH]; intros c b Hb; simpl.
  - apply is_byte_0.
  - apply is_byte_lxor.
    + destruct (Z.odd c); [exact Hb | apply is_byte_0].
    + apply IH, xtime_byte, Hb.
Qed.

Lemma gf_mul_byte (c b : Z) : is_byte b -> is_byte (gf_mul c b).
Proof. apply gf_mul_bits_byte. Qed.

Lemma gf_mul_bits_lxor (n : nat) (c a b : Z) :
  is_byte a -> is_byte b ->
  gf_mul_bits n c (Z.lxor a b)
  = Z.lxor (gf_mul_bits n c a) (gf_mul_bits n c b).
Proof.
  revert c a b. induction n as [|n IH]; intros c a b Ha Hb; simpl.
  - reflexivity.
  - rewrite xtime_lxor by assumption.
    rewrite IH by (apply xtime_byte; assumption).
    destruct (Z.odd c); aac_reflexivity.
Qed.

(** Multiplication by a constant distributes over XOR. *)
Lemma gf_mul_lxor (c a b : Z) :
  is_byte a -> is_byte b ->
  gf_mul c (Z.lxor a b) = Z.lxor (gf_mul c a) (gf_mul c b).
Proof. apply gf_mul_bits_lxor. Qed.

Lemma gf_mul_0 (c : Z) : gf_mul c 0 = 0.
Proof.
  unfold gf_mul. generalize 8%nat. intros n. revert c.
  induction n as [|n IH]; intros c; simpl; [reflexivity|].
  change (xtime 0) with 0. rewrite IH. destruct (Z.odd c); reflexivity.
Qed.

Ltac solve_byte :=
  repeat match goal with
         | |- is_byte (Z.lxor _ _) => apply is_byte_lxor
         | |- is_byte (gf_mul _ _) => apply gf_mul_byte
         | |- is_byte (lookup s_box _) => apply is_byte_lookup, s_box_bytes
         | |- is_byte (lookup inv_s_box _) =>
             apply is_byte_lookup, inv_s_box_bytes
         | |- is_byte (lookup r_con _) => apply is_byte_lookup, r_con_bytes
         | |- is_byte 0 => apply is_byte_0
         | |- is_byte _ => assumption
         end.

(** The two constant matrices are inverse to each other. *)
Lemma mix_product_id (a : Z) (i j : nat) :
  is_byte a -> (i < 4)%nat -> (j < 4)%nat ->
  mix_product inv_mix_matrix mix_matrix i j a = if (i =? j)%nat then a else 0.
Proof.
  intros Ha Hi Hj.
  assert (H : mix_product_check inv_mix_matrix mix_matrix a = true).
  { revert a Ha. apply byte_forall. vm_compute. reflexivity. }
  unfold mix_product_check in H. rewrite forallb_forall in H.
  specialize (H i). rewrite forallb_forall in H.
  apply Z.eqb_eq, H; apply in_seq; lia.
Qed.

Lemma lxor_transpose (a1 b1 c1 d1 a2 b2 c2 d2 a3 b3 c3 d3 a4 b4 c4 d4 : Z) :
  Z.lxor (Z.lxor a1 (Z.lxor b1 (Z.lxor c1 d1)))
    (Z.lxor (Z.lxor a2 (Z.lxor b2 (Z.lxor c2 d2)))
       (Z.lxor (Z.lxor a3 (Z.lxor b3 (Z.lxor c3 d3)))
               (Z.lxor a4 (Z.lxor b4 (Z.lxor c4 d4)))))
  = Z.lxor (Z.lxor a1 (Z.lxor a2 (Z.lxor a3 (Z.lxor a4 0))))
      (Z.lxor (Z.lxor b1 (Z.lxor b2 (Z.lxor b3 (Z.lxor b4 0))))
         (Z.lxor (Z.lxor c1 (Z.lxor c2 (Z.lxor c3 (Z.lxor c4 0))))
                 (Z.lxor d1 (Z.lxor d2 (Z.lxor d3 (Z.lxor d4 0)))))).
Proof. aac_reflexivity. Qed.

Arguments gf_mul : simpl never.

Ltac use_product P i j :=
  let H := fresh in
  pose proof (P i j ltac:(lia) ltac:(lia)) as H;
  unfold mix_product, xor_sum in H; simpl in H; rewrite H; clear H.

(** InvMixColumns undoes MixColumns on a column of four bytes. *)
Lemma inv_mix_column (a b c d : Z) :
  is_byte a -> is_byte b -> is_byte c -> is_byte d ->
  gf_mat_col inv_mix_matrix (gf_mat_col mix_matrix [a; b; c; d])
  = [a; b; c; d].
Proof.
  intros Ha Hb Hc Hd.
  pose proof (fun i j => mix_product_id a i j Ha) as Pa.
  pose proof (fun i j => mix_product_id b i j Hb) as Pb.
  pose proof (fun i j => mix_product_id c i j Hc) as Pc.
  pose proof (fun i j => mix_product_id d i j Hd) as Pd.
  unfold gf_mat_col, mix_matrix, inv_mix_matrix, xor_sum. simpl.
  rewrite !Z.lxor_0_r.
  repeat rewrite gf_mul_lxor by solve_byte.
  f_equal; [|f_equal; [|f_equal; [|f_equal]]]; rewrite lxor_transpose.
  - use_product Pa 0%nat 0%nat. use_product Pb 0%nat 1%nat.
    use_product Pc 0%nat 2%nat. use_product Pd 0%nat 3%nat.
    aac_reflexivity.
  - use_product Pa 1%nat 0%nat. use_product Pb 1%nat 1%nat.
    use_product Pc 1%nat 2%nat. use_product Pd 1%nat 3%nat.
    aac_reflexivity.
  - use_product Pa 2%nat 0%nat. use_product Pb 2%nat 1%nat.
    use_product Pc 2%nat 2%nat. use_product Pd 2%nat 3%nat.
    aac_reflexivity.
  - use_product Pa 3%nat 0%nat. use_product Pb 3%nat 1%nat.
    use_product Pc 3%nat 2%nat. use_product Pd 3%nat 3%nat.
    aac_reflexivity.
Qed.

(** *** Well-formed states and round keys *)

Lemma wf_word_inv (w : bytes) :
  wf_word w ->
  exists a b c d, w = [a; b; c; d]
    /\ is_byte a /\ is_byte b /\ is_byte c /\ is_byte d.
Proof.
  intros [Hl Hb].
  destruct w as [|a [|b [|c [|d [|e w]]]]]; try discriminate Hl.
  exists a, b, c, d. unfold all_bytes in Hb.
  rewrite !Forall_cons_iff in Hb. intuition.
Qed.

Lemma wf_matrix_inv (m : matrix) :
  wf_matrix m ->
  exists w0 w1 w2 w3, m = [w0; w1; w2; w3]
    /\ wf_word w0 /\ wf_word w1 /\ wf_word w2 /\ wf_word w3.
Proof.
  intros [Hl Hw].
  destruct m as [|w0 [|w1 [|w2 [|w3 [|w4 m]]]]]; try discriminate Hl.
  exists w0, w1, w2, w3.
  rewrite !Forall_cons_iff in Hw. intuition.
Qed.

Lemma wf_word_intro (a b c d : Z) :
  is_byte a -> is_byte b -> is_byte c -> is_byte d -> wf_word [a; b; c; d].
Proof.
  intros Ha Hb Hc Hd. split; [reflexivity|].
  unfold all_bytes. rewrite !Forall_cons_iff. intuition.
Qed.

Lemma wf_matrix_intro (w0 w1 w2 w3 : bytes) :
  wf_word w0 -> wf_word w1 -> wf_word w2 -> wf_word w3 ->
  wf_matrix [w0; w1; w2; w3].
Proof.
  intros H0 H1 H2 H3. split; [reflexivity|].
  rewrite !Forall_cons_iff. intuition.
Qed.

(** Names the sixteen bytes of a well-formed matrix. *)
Ltac explode_matrix H :=
  let w0 := fresh "w" in let w1 := fresh "w" in
  let w2 := fresh "w" in let w3 := fresh "w" in
  let H0 := fresh "Hw" in let H1 := fresh "Hw" in
  let H2 := fresh "Hw" in let H3 := fresh "Hw" in
  apply wf_matrix_inv in H;
  destruct H as (w0 & w1 & w2 & w3 & -> & H0 & H1 & H2 & H3);
  apply wf_word_inv in H0; destruct H0 as (? & ? & ? & ? & -> & ? & ? & ? & ?);
  apply wf_word_inv in H1; destruct H1 as (? & ? & ? & ? & -> & ? & ? & ? & ?);
  apply wf_word_inv in H2; destruct H2 as (? & ? & ? & ? & -> & ? & ? & ? & ?);
  apply wf_word_inv in H3; destruct H3 as (? & ? & ? & ? & -> & ? & ? & ? & ?).

Ltac solve_wf :=
  apply wf_matrix_intro; apply wf_word_intro; solve_byte.

Lemma add_round_key_wf (s k : matrix) :
  wf_matrix s -> wf_matrix k -> wf_matrix (add_round_key s k).
Proof.
  intros Hs Hk. explode_matrix Hs. explode_matrix Hk.
  unfold add_round_key, xor_bytes. simpl. solve_wf.
Qed.

Lemma add_round_key_cancel (s k : matrix) :
  wf_matrix s -> wf_matrix k -> add_round_key (add_round_key s k) k = s.
Proof.
  intros Hs Hk. explode_matrix Hs. explode_matrix Hk.
  unfold add_round_key, xor_bytes. simpl.
  rewrite !lxor_cancel_r. reflexivity.
Qed.

Lemma sub_bytes_wf (s : matrix) : wf_matrix s -> wf_matrix (sub_bytes s).
Proof.
  intros Hs. explode_matrix Hs. unfold sub_bytes. simpl. solve_wf.
Qed.

Lemma inv_sub_bytes_wf (s : matrix) :
  wf_matrix s -> wf_matrix (inv_sub_bytes s).
Proof.
  intros Hs. explode_matrix Hs. unfold inv_sub_bytes. simpl. solve_wf.
Qed.

Lemma inv_sub_bytes_sub_bytes (s : matrix) :
  wf_matrix s -> inv_sub_bytes (sub_bytes s) = s.
Proof.
  intros Hs. explode_matrix Hs. unfold inv_sub_bytes, sub_bytes. simpl.
  rewrite !inv_s_box_s_box by assumption. reflexivity.
Qed.

Lemma shift_rows_wf (s : matrix) : wf_matrix s -> wf_matrix (shift_rows s).
Proof.
  intros Hs. explode_matrix Hs. unfold shift_rows, entry. simpl. solve_wf.
Qed.

Lemma inv_shift_rows_wf (s : matrix) :
  wf_matrix s -> wf_matrix (inv_shift_rows s).
Proof.
  intros Hs. explode_matrix Hs. unfold inv_shift_rows, entry. simpl. solve_wf.
Qed.

Lemma inv_shift_rows_shift_rows (s : matrix) :
  wf_matrix s -> inv_shift_rows (shift_rows s) = s.
Proof. intros Hs. explode_matrix Hs. reflexivity. Qed.

Lemma mix_columns_wf (s : matrix) : wf_matrix s -> wf_matrix (mix_columns s).
Proof.
  intros Hs. explode_matrix Hs.
  unfold mix_columns, gf_mat_col, mix_matrix, xor_sum. simpl. solve_wf.
Qed.

Lemma inv_mix_columns_wf (s : matrix) :
  wf_matrix s -> wf_matrix (inv_mix_columns s).
Proof.
  intros Hs. explode_matrix Hs.
  unfold inv_mix_columns, gf_mat_col, inv_mix_matrix, xor_sum. simpl. solve_wf.
Qed.

Lemma inv_mix_columns_mix_columns (s : matrix) :
  wf_matrix s -> inv_mix_columns (mix_columns s) = s.
Proof.
  intros Hs. explode_matrix Hs. unfold inv_mix_columns, mix_columns.
  cbn [map]. rewrite !inv_mix_column by assumption. reflexivity.
Qed.

(** *** Blocks and matrices *)

Ltac explode_list l H :=
  repeat (destruct l as [|? l]; [try discriminate H|]);
  try discriminate H.

Lemma bytes2matrix_wf (block : bytes) :
  length block = 16%nat -> all_bytes block -> wf_matrix (bytes2matrix block).
Proof.
  intros Hl Hb.
  do 16 (destruct block as [|? block]; [discriminate Hl|]).
  destruct block; [|discriminate Hl].
  unfold all_bytes in Hb. rewrite !Forall_cons_iff in Hb.
  decompose [and] Hb; clear Hb.
  cbv [bytes2matrix range_step length]. simpl. solve_wf.
Qed.

Lemma matrix2bytes_bytes2matrix (block : bytes) :
  length block = 16%nat -> matrix2bytes (bytes2matrix block) = block.
Proof.
  intros Hl.
  do 16 (destruct block as [|? block]; [discriminate Hl|]).
  destruct block; [|discriminate Hl]. reflexivity.
Qed.

Lemma bytes2matrix_matrix2bytes (s : matrix) :
  wf_matrix s -> bytes2matrix (matrix2bytes s) = s.
Proof. intros Hs. explode_matrix Hs. reflexivity. Qed.

Lemma matrix2bytes_length (s : matrix) :
  wf_matrix s -> length (matrix2bytes s) = 16%nat.
Proof. intros Hs. explode_matrix Hs. reflexivity. Qed.

Lemma matrix2bytes_bytes (s : matrix) :
  wf_matrix s -> all_bytes (matrix2bytes s).
Proof.
  intros Hs. explode_matrix Hs. simpl. unfold all_bytes.
  rewrite !Forall_cons_iff. intuition.
Qed.

(** *** Slices *)

Lemma slice_length {A} (l : list A) (i j : nat) :
  (j <= length l)%nat -> length (slice l i j) = (j - i)%nat.
Proof.
  intros H. unfold slice. rewrite length_firstn, length_skipn. lia.
Qed.

Lemma Forall_skipn {A} (P : A -> Prop) (l : list A) (n : nat) :
  Forall P l -> Forall P (skipn n l).
Proof.
  revert l. induction n as [|n IH]; intros l H; simpl; [exact H|].
  destruct l as [|x l]; [constructor|]. apply IH. inversion H; assumption.
Qed.

Lemma Forall_firstn {A} (P : A -> Prop) (l : list A) (n : nat) :
  Forall P l -> Forall P (firstn n l).
Proof.
  revert l. induction n as [|n IH]; intros l H; simpl; [constructor|].
  destruct l as [|x l]; [constructor|].
  inversion H; subst. constructor; [assumption | apply IH; assumption].
Qed.

Lemma slice_Forall {A} (P : A -> Prop) (l : list A) (i j : nat) :
  Forall P l -> Forall P (slice l i j).
Proof. intros H. apply Forall_firstn, Forall_skipn, H. Qed.

Lemma range_step_exact (k step : nat) :
  (0 < step)%nat ->
  range_step (k * step) step = map (fun i => (i * step)%nat) (seq 0 k).
Proof.
  intros Hs. unfold range_step. f_equal. f_equal.
  replace (k * step + step - 1)%nat with (step - 1 + k * step)%nat by lia.
  rewrite Nat.div_add by lia. rewrite Nat.div_small by lia. reflexivity.
Qed.

(** A byte string of [4 * k] bytes becomes [k] words of four bytes. *)
Lemma bytes2matrix_words (text : bytes) (k : nat) :
  length text = (k * 4)%nat -> all_bytes text ->
  length (bytes2matrix text) = k /\ Forall wf_word (bytes2matrix text).
Proof.
  intros Hl Hb. unfold bytes2matrix. rewrite Hl, range_step_exact by lia.
  rewrite map_map. split.
  - rewrite length_map, length_seq. reflexivity.
  - apply Forall_forall. intros w Hw. apply in_map_iff in Hw.
    destruct Hw as (i & <- & Hi). apply in_seq in Hi. split.
    + rewrite slice_length by lia. lia.
    + apply slice_Forall, Hb.
Qed.

(** *** The key schedule *)

Lemma Forall_last {A} (P : A -> Prop) (l : list A) (d : A) :
  l <> [] -> Forall P l -> P (last l d).
Proof.
  intros Hne H. rewrite Forall_forall in H. apply H.
  destruct (exists_last Hne) as (l' & x & ->).
  rewrite last_last. apply in_or_app. right. left. reflexivity.
Qed.

Lemma xor_bytes_wf (a b : bytes) :
  wf_word a -> wf_word b -> wf_word (xor_bytes a b).
Proof.
  intros Ha Hb.
  apply wf_word_inv in Ha. destruct Ha as (? & ? & ? & ? & -> & ? & ? & ? & ?).
  apply wf_word_inv in Hb. destruct Hb as (? & ? & ? & ? & -> & ? & ? & ? & ?).
  unfold xor_bytes. simpl. apply wf_word_intro; solve_byte.
Qed.

Lemma expand_word_wf (mkl isz : nat) (key_columns : list bytes) (i : Z) :
  (1 <= isz <= length key_columns)%nat -> Forall wf_word key_columns ->
  wf_word (fst (AES.expand_word mkl isz key_columns i)).
Proof.
  intros Hlen Hwf. unfold AES.expand_word. cbn [fst].
  assert (Hlast : wf_word (last key_columns [])).
  { apply Forall_last; [|exact Hwf]. destruct key_columns; simpl in *;
      [lia | discriminate]. }
  assert (Hprev : wf_word (nth (length key_columns - isz) key_columns [])).
  { rewrite Forall_forall in Hwf. apply Hwf, nth_In. lia. }
  apply xor_bytes_wf; [|exact Hprev].
  apply wf_word_inv in Hlast.
  destruct Hlast as (a & b & c & d & -> & Ha & Hb & Hc & Hd).
  destruct (length key_columns mod isz =? 0)%nat; cbn [fst].
  - simpl. apply wf_word_intro; solve_byte.
  - destruct ((mkl =? 32)%nat && (length key_columns mod isz =? 4)%nat);
      cbn [fst]; simpl; apply wf_word_intro; solve_byte.
Qed.

(** The loop leaves through its exit test: with fuel for every missing
    word, the schedule ends with exactly the words asked for. *)
Lemma expand_loop_spec (fuel mkl n isz : nat) (key_columns : list bytes) (i : Z) :
  (1 <= isz <= length key_columns)%nat ->
  (length key_columns <= (n + 1) * 4)%nat ->
  ((n + 1) * 4 - length key_columns <= fuel)%nat ->
  Forall wf_word key_columns ->
  let out := AES.expand_loop fuel mkl n isz key_columns i in
  length out = ((n + 1) * 4)%nat /\ Forall wf_word out.
Proof.
  revert key_columns i.
  induction fuel as [|fuel IH]; intros kc i Hisz Hle Hfuel Hwf; simpl.
  - split; [lia | exact Hwf].
  - destruct (Nat.ltb_spec (length kc) ((n + 1) * 4)) as [Hlt | Hge].
    + apply IH.
      * rewrite length_app. simpl. lia.
      * rewrite length_app. simpl. lia.
      * rewrite length_app. simpl. lia.
      * apply Forall_app. split; [exact Hwf|].
        constructor; [|constructor]. apply expand_word_wf; assumption.
    + split; [lia | exact Hwf].
Qed.

Lemma expand_key_wf (n : nat) (master_key : bytes) :
  valid_key_length (length master_key) -> all_bytes master_key ->
  (1 <= n)%nat ->
  let ms := AES._expand_key n master_key in
  length ms = (n + 1)%nat /\ Forall wf_matrix ms.
Proof.
  intros Hlen Hb Hn.
  assert (Hk : exists k, length master_key = (k * 4)%nat
                         /\ (length master_key / 4 = k)%nat /\ (1 <= k <= 8)%nat).
  { destruct Hlen as [H | [H | H]]; rewrite H;
      [exists 4%nat | exists 6%nat | exists 8%nat]; repeat split; lia. }
  destruct Hk as (k & Hk4 & Hdiv & Hk).
  destruct (bytes2matrix_words master_key k Hk4 Hb) as [Hcols Hwords].
  unfold AES._expand_key. rewrite Hdiv.
  set (kc := AES.expand_loop _ _ _ _ _ _).
  assert (Hkc : length kc = ((n + 1) * 4)%nat /\ Forall wf_word kc).
  { apply expand_loop_spec; try assumption; lia. }
  destruct Hkc as [Hkl Hkw]. cbv zeta. rewrite Hkl, Nat.div_mul by lia. split.
  - rewrite length_map, length_seq. reflexivity.
  - apply Forall_forall. intros m Hm. apply in_map_iff in Hm.
    destruct Hm as (j & <- & Hj). apply in_seq in Hj. split.
    + rewrite slice_length by lia. lia.
    + apply slice_Forall, Hkw.
Qed.

Lemma init_ok (master_key : bytes) :
  valid_key_length (length master_key) -> all_bytes master_key ->
  exists self, AES.__init__ master_key = Ok self /\ wf_cipher self
    /\ AES.dict_get AES.rounds_by_key_size (length master_key)
       = Some (AES.n_rounds self).
Proof.
  intros Hlen Hb. unfold AES.__init__.
  assert (Hn : exists n, AES.dict_get AES.rounds_by_key_size (length master_key)
                         = Some n /\ (1 <= n)%nat).
  { destruct Hlen as [H | [H | H]]; rewrite H; eexists;
      (split; [reflexivity | lia]). }
  destruct Hn as (n & Hn & Hn1). rewrite Hn. eexists. split; [reflexivity|].
  split; [|reflexivity]. unfold wf_cipher. cbn [AES.n_rounds AES._key_matrices].
  apply expand_key_wf; assumption.
Qed.

(** * The block cipher as a sequence of round operations *)

Lemma for_each_app {A S} (l1 l2 : list A) (s : S) (body : A -> S -> result S) :
  for_each (l1 ++ l2) s body
  = rbind (for_each l1 s body) (fun s' => for_each l2 s' body).
Proof.
  revert s. induction l1 as [|x l1 IH]; intros s; simpl; [reflexivity|].
  destruct (body x s) as [s'|e]; simpl; [apply IH | reflexivity].
Qed.

Lemma for_each_flat_map {A B S} (f : A -> list B) (l : list A) (s : S)
    (body : B -> S -> result S) :
  for_each (flat_map f l) s body
  = for_each l s (fun x s' => for_each (f x) s' body).
Proof.
  revert s. induction l as [|x l IH]; intros s; simpl; [reflexivity|].
  rewrite for_each_app.
  destruct (for_each (f x) s body) as [s'|e]; simpl; [apply IH | reflexivity].
Qed.

Lemma for_each_ext {A S} (l : list A) (s : S) (f g : A -> S -> result S) :
  (forall x s', f x s' = g x s') -> for_each l s f = for_each l s g.
Proof.
  intros H. revert s. induction l as [|x l IH]; intros s; simpl; [reflexivity|].
  rewrite H. destruct (g x s); simpl; [apply IH | reflexivity].
Qed.

Lemma decrypt_ops_reverse (rounds : nat) :
  decrypt_ops rounds = rev (map inverse_op (encrypt_ops rounds)).
Proof.
  unfold decrypt_ops, encrypt_ops.
  rewrite !map_app, !rev_app_distr. simpl. do 4 f_equal.
  generalize (seq 1 (rounds - 1)). intros l.
  induction l as [|i l IH]; simpl; [reflexivity|].
  rewrite flat_map_app, IH. simpl. rewrite <- !app_assoc. reflexivity.
Qed.

Lemma last_key_matrix_nth (self : AES.t) :
  wf_cipher self ->
  AES.last_key_matrix self = AES.key_matrix self (AES.n_rounds self).
Proof.
  intros [Hl _]. unfold AES.last_key_matrix, AES.key_matrix.
  destruct (AES._key_matrices self) as [|k0 ks]; [simpl in Hl; lia|].
  assert (Hne : k0 :: ks <> []) by discriminate.
  destruct (exists_last Hne) as (l & k & E). rewrite E in *.
  rewrite rev_app_distr. simpl. rewrite length_app in Hl. simpl in Hl.
  replace (AES.n_rounds self) with (length l) by lia.
  rewrite nth_error_app2, Nat.sub_diag by lia. reflexivity.
Qed.

(** [encrypt_block] runs the operations of [encrypt_ops] in order. *)
Lemma encrypt_block_ops (self : AES.t) (plaintext : bytes) :
  wf_cipher self ->
  AES.encrypt_block self plaintext
  = rbind (assert (length plaintext =? 16)%nat "")
      (fun _ => rbind (run_ops self (encrypt_ops (AES.n_rounds self))
                               (bytes2matrix plaintext))
                      (fun s => Ok (matrix2bytes s))).
Proof.
  intros Hwf. unfold AES.encrypt_block.
  destruct (assert _ _); [|reflexivity]. cbn [rbind].
  rewrite (last_key_matrix_nth self Hwf).
  unfold run_ops, encrypt_ops. cbn [app for_each run_op rbind].
  destruct (AES.key_matrix self 0) as [k0|e]; [|reflexivity]. cbn [rbind].
  rewrite for_each_app, for_each_flat_map. cbn [for_each run_op rbind].
  match goal with
  | |- rbind (for_each _ _ ?g) _ = rbind (rbind (for_each ?l ?s ?f) _) _ =>
      rewrite (for_each_ext l s f g)
  end.
  2:{ intros i s. destruct (AES.key_matrix self i); reflexivity. }
  destruct (for_each _ _ _) as [s|e]; [|reflexivity]. cbn [rbind].
  destruct (AES.key_matrix self (AES.n_rounds self)); reflexivity.
Qed.

(** [decrypt_block] runs the inverse operations in reverse order. *)
Lemma decrypt_block_ops (self : AES.t) (ciphertext : bytes) :
  wf_cipher self ->
  AES.decrypt_block self ciphertext
  = rbind (assert (length ciphertext =? 16)%nat "")
      (fun _ => rbind (run_ops self (decrypt_ops (AES.n_rounds self))
                               (bytes2matrix ciphertext))
                      (fun s => Ok (matrix2bytes s))).
Proof.
  intros Hwf. unfold AES.decrypt_block.
  destruct (assert _ _); [|reflexivity]. cbn [rbind].
  rewrite (last_key_matrix_nth self Hwf).
  unfold run_ops, decrypt_ops. cbn [app for_each run_op rbind].
  destruct (AES.key_matrix self (AES.n_rounds self)) as [k|e];
    [|reflexivity]. cbn [rbind].
  rewrite for_each_app, for_each_flat_map. cbn [for_each run_op rbind].
  match goal with
  | |- rbind (for_each _ _ ?g) _ = rbind (rbind (for_each ?l ?s ?f) _) _ =>
      rewrite (for_each_ext l s f g)
  end.
  2:{ intros i s. destruct (AES.key_matrix self i); reflexivity. }
  destruct (for_each _ _ _) as [s|e]; [|reflexivity]. cbn [rbind].
  destruct (AES.key_matrix self 0); reflexivity.
Qed.

Lemma run_op_inverse (self : AES.t) (o : round_op) (s : matrix) :
  Forall wf_matrix (AES._key_matrices self) ->
  forward_op o -> key_in_range self o -> wf_matrix s ->
  exists s', run_op self o s = Ok s' /\ wf_matrix s'
             /\ run_op self (inverse_op o) s' = Ok s.
Proof.
  intros Hkeys Hfwd Hin Hs. destruct o; try contradiction; simpl.
  - simpl in Hin. unfold AES.key_matrix.
    destruct (nth_error (AES._key_matrices self) i) as [k|] eqn:E.
    + assert (Hk : wf_matrix k).
      { rewrite Forall_forall in Hkeys. eapply Hkeys, nth_error_In, E. }
      simpl. eexists. split; [reflexivity|]. split.
      * apply add_round_key_wf; assumption.
      * rewrite add_round_key_cancel by assumption. reflexivity.
    + apply nth_error_None in E. lia.
  - eexists. split; [reflexivity|]. split; [apply sub_bytes_wf, Hs|].
    rewrite inv_sub_bytes_sub_bytes by assumption. reflexivity.
  - eexists. split; [reflexivity|]. split; [apply shift_rows_wf, Hs|].
    rewrite inv_shift_rows_shift_rows by assumption. reflexivity.
  - eexists. split; [reflexivity|]. split; [apply mix_columns_wf, Hs|].
    rewrite inv_mix_columns_mix_columns by assumption. reflexivity.
Qed.

(** Running a list of forward operations and then their inverses in
    reverse order gives the state back. *)
Lemma run_ops_inverse (self : AES.t) (ops : list round_op) (s : matrix) :
  Forall wf_matrix (AES._key_matrices self) ->
  Forall forward_op ops -> Forall (key_in_range self) ops -> wf_matrix s ->
  exists s', run_ops self ops s = Ok s' /\ wf_matrix s'
             /\ run_ops self (rev (map inverse_op ops)) s' = Ok s.
Proof.
  intros Hkeys. revert s.
  induction ops as [|o ops IH]; intros s Hfwd Hin Hs.
  - exists s. split; [reflexivity|]. split; [exact Hs | reflexivity].
  - inversion Hfwd as [|? ? Hf Hfwd']; subst.
    inversion Hin as [|? ? Hi Hin']; subst.
    destruct (run_op_inverse self o s Hkeys Hf Hi Hs) as (s1 & E1 & W1 & B1).
    destruct (IH s1 Hfwd' Hin' W1) as (s2 & E2 & W2 & B2).
    exists s2. unfold run_ops in *. simpl. rewrite E1. simpl.
    split; [exact E2|]. split; [exact W2|].
    rewrite for_each_app, B2. simpl. rewrite B1. reflexivity.
Qed.

Lemma encrypt_ops_forward (rounds : nat) :
  Forall forward_op (encrypt_ops rounds).
Proof.
  unfold encrypt_ops. repeat (apply Forall_app; split).
  - repeat constructor.
  - apply Forall_forall. intros o Ho. apply in_flat_map in Ho.
    destruct Ho as (i & _ & Ho). simpl in Ho.
    repeat (destruct Ho as [<- | Ho]; [exact I|]). contradiction.
  - repeat constructor.
Qed.

Lemma encrypt_ops_in_range (self : AES.t) :
  wf_cipher self ->
  Forall (key_in_range self) (encrypt_ops (AES.n_rounds self)).
Proof.
  intros [Hl _]. unfold encrypt_ops. repeat (apply Forall_app; split).
  - repeat constructor. simpl. lia.
  - apply Forall_forall. intros o Ho. apply in_flat_map in Ho.
    destruct Ho as (i & Hi & Ho). apply in_seq in Hi. simpl in Ho.
    repeat (destruct Ho as [<- | Ho]; [simpl; try lia; exact I|]).
    contradiction.
  - repeat constructor. simpl. lia.
Qed.

(** Single-block round trip for a well-formed cipher instance. *)
Lemma block_round_trip (self : AES.t) (block : bytes) :
  wf_cipher self -> length block = 16%nat -> all_bytes block ->
  exists ct, AES.encrypt_block self block = Ok ct
    /\ length ct = 16%nat /\ all_bytes ct
    /\ AES.decrypt_block self ct = Ok block.
Proof.
  intros Hwf Hl Hb.
  destruct (run_ops_inverse self (encrypt_ops (AES.n_rounds self))
              (bytes2matrix block) (proj2 Hwf)
              (encrypt_ops_forward _) (encrypt_ops_in_range self Hwf)
              (bytes2matrix_wf block Hl Hb)) as (s & E & W & B).
  exists (matrix2bytes s).
  rewrite encrypt_block_ops, decrypt_block_ops by assumption.
  rewrite Hl, E, decrypt_ops_reverse. cbn [assert Nat.eqb rbind].
  rewrite matrix2bytes_length by assumption.
  rewrite bytes2matrix_matrix2bytes by assumption.
  rewrite B. cbn [assert Nat.eqb rbind].
  rewrite matrix2bytes_bytes2matrix by assumption.
  repeat split; try reflexivity. apply matrix2bytes_bytes, W.
Qed.

(** * Padding, blocks and the chained mode *)

Lemma xor_bytes_length (a b : bytes) :
  length a = length b -> length (xor_bytes a b) = length a.
Proof.
  intros H. unfold xor_bytes. rewrite length_map, length_combine. lia.
Qed.

Lemma xor_bytes_bytes (a b : bytes) :
  all_bytes a -> all_bytes b -> all_bytes (xor_bytes a b).
Proof.
  unfold all_bytes, xor_bytes. intros Ha. revert b.
  induction Ha as [|x a Hx Ha IH]; intros b Hb; simpl; [constructor|].
  destruct b as [|y b]; simpl; [constructor|].
  inversion Hb; subst. constructor; [solve_byte | apply IH; assumption].
Qed.

Lemma xor_bytes_cancel (a b : bytes) :
  length a = length b -> xor_bytes b (xor_bytes a b) = a.
Proof.
  revert b. induction a as [|x a IH]; intros [|y b] H; simpl in *;
    try discriminate; [reflexivity|].
  unfold xor_bytes in *. simpl. rewrite lxor_cancel_l. f_equal.
  apply IH. lia.
Qed.

Lemma split_blocks_cons (b rest : bytes) :
  length b = 16%nat -> split_blocks (b ++ rest) = b :: split_blocks rest.
Proof.
  intros Hb. unfold split_blocks, range_step. rewrite length_app, Hb.
  replace ((16 + length rest + 16 - 1) / 16)%nat
    with (S ((length rest + 16 - 1) / 16)).
  2:{ replace (16 + length rest + 16 - 1)%nat
        with (length rest + 16 - 1 + 1 * 16)%nat by lia.
      rewrite Nat.div_add by lia. lia. }
  cbn [seq map]. f_equal.
  - unfold slice. change (0 * 16)%nat with 0%nat.
    change (0 + 16 - 0)%nat with 16%nat. cbn [skipn].
    rewrite firstn_app, Hb, Nat.sub_diag, firstn_O, app_nil_r.
    apply firstn_all2. lia.
  - rewrite <- seq_shift, !map_map. apply map_ext. intros i.
    unfold slice. rewrite skipn_app, Hb.
    rewrite skipn_all2 by lia. cbn [app].
    replace (S i * 16 + 16 - S i * 16)%nat with (i * 16 + 16 - i * 16)%nat
      by lia.
    replace (S i * 16 - 16)%nat with (i * 16)%nat by lia. reflexivity.
Qed.

Lemma split_blocks_concat (cs : list bytes) :
  Forall (fun c => length c = 16%nat) cs -> split_blocks (concat cs) = cs.
Proof.
  induction 1 as [|c cs Hc _ IH]; [reflexivity|].
  cbn [concat]. rewrite split_blocks_cons by exact Hc. f_equal. exact IH.
Qed.

(** A message of [k] full blocks splits into [k] blocks of 16 bytes. *)
Lemma split_blocks_full (k : nat) (message : bytes) :
  length message = (16 * k)%nat ->
  concat (split_blocks message) = message
  /\ length (split_blocks message) = k
  /\ Forall (fun c => length c = 16%nat) (split_blocks message).
Proof.
  revert message. induction k as [|k IH]; intros message Hl.
  - destruct message; [|discriminate Hl]. repeat split. constructor.
  - rewrite <- (firstn_skipn 16 message).
    assert (Hf : length (firstn 16 message) = 16%nat)
      by (rewrite length_firstn; lia).
    assert (Hs : length (skipn 16 message) = (16 * k)%nat)
      by (rewrite length_skipn; lia).
    rewrite split_blocks_cons by exact Hf.
    destruct (IH _ Hs) as (E & L & F). cbn [concat length].
    rewrite E, L. repeat split. constructor; assumption.
Qed.

Lemma pad_length (plaintext : bytes) :
  length (pad plaintext) = (16 * (length plaintext / 16 + 1))%nat.
Proof.
  unfold pad. rewrite length_app, repeat_length.
  pose proof (Nat.div_mod_eq (length plaintext) 16).
  pose proof (Nat.mod_upper_bound (length plaintext) 16). lia.
Qed.

Lemma pad_bytes (plaintext : bytes) :
  all_bytes plaintext -> all_bytes (pad plaintext).
Proof.
  intros H. unfold pad. apply Forall_app. split; [exact H|].
  apply Forall_forall. intros x Hx. apply repeat_spec in Hx. subst x.
  pose proof (Nat.mod_upper_bound (length plaintext) 16).
  unfold is_byte. lia.
Qed.

Lemma forallb_repeat {A} (f : A -> bool) (x : A) (n : nat) :
  f x = true -> forallb f (repeat x n) = true.
Proof. intros H. induction n; simpl; [reflexivity | rewrite H; assumption]. Qed.

Lemma rev_repeat {A} (x : A) (n : nat) : rev (repeat x n) = repeat x n.
Proof.
  induction n as [|n IH]; [reflexivity|]. simpl. rewrite IH.
  clear IH. induction n as [|n IH]; [reflexivity|]. simpl. rewrite IH.
  reflexivity.
Qed.

Lemma unpad_app (message : bytes) (n : nat) :
  (1 <= n <= 16)%nat ->
  unpad (message ++ repeat (Z.of_nat n) n) = Ok message.
Proof.
  intros Hn. unfold unpad. rewrite rev_app_distr, rev_repeat.
  destruct n as [|n']; [lia|].
  set (p := Z.of_nat (S n')). cbn [repeat app].
  assert (Hp : Z.to_nat p = S n') by (unfold p; apply Nat2Z.id).
  rewrite Hp, length_app. cbn [length]. rewrite repeat_length.
  replace (length message + S n' - S n')%nat with (length message) by lia.
  rewrite skipn_app, Nat.sub_diag, skipn_all. cbn [skipn app].
  rewrite firstn_app, Nat.sub_diag, firstn_all, firstn_O, app_nil_r.
  change (p :: repeat p n') with (repeat p (S n')).
  rewrite forallb_repeat by apply Z.eqb_refl.
  replace (1 <=? p) with true by (symmetry; apply Z.leb_le; lia).
  replace (p <=? 16) with true by (symmetry; apply Z.leb_le; lia).
  replace (S n' <=? length message + S n')%nat with true
    by (symmetry; apply Nat.leb_le; lia).
  reflexivity.
Qed.

(** Removing the padding gives the message back. *)
Lemma unpad_pad (plaintext : bytes) : unpad (pad plaintext) = Ok plaintext.
Proof.
  unfold pad. apply unpad_app.
  pose proof (Nat.mod_upper_bound (length plaintext) 16). lia.
Qed.

(** The two CBC loops, run one after the other on the same chain. *)
Lemma cbc_loops (self : AES.t) (blocks : list bytes) :
  wf_cipher self ->
  Forall (fun b => length b = 16%nat /\ all_bytes b) blocks ->
  forall (previous : bytes) (acc acc' : list bytes),
  length previous = 16%nat -> all_bytes previous ->
  exists cs final,
    for_each blocks (acc, previous)
      (fun plaintext_block st =>
         rbind (AES.encrypt_block self (xor_bytes plaintext_block (snd st)))
               (fun block => Ok (fst st ++ [block], block)))
    = Ok (acc ++ cs, final)
    /\ Forall (fun c => length c = 16%nat) cs
    /\ length cs = length blocks
    /\ exists final',
        for_each cs (acc', previous)
          (fun ciphertext_block st =>
             rbind (AES.decrypt_block self ciphertext_block)
                   (fun d => Ok (fst st ++ [xor_bytes (snd st) d],
                                 ciphertext_block)))
        = Ok (acc' ++ blocks, final').
Proof.
  intros Hwf Hblocks.
  induction Hblocks as [|b blocks [Hbl Hbb] _ IH];
    intros previous acc acc' Hpl Hpb.
  - exists [], previous. cbn [for_each]. rewrite !app_nil_r.
    repeat split; try constructor. exists previous. reflexivity.
  - assert (Hxl : length (xor_bytes b previous) = 16%nat)
      by (rewrite xor_bytes_length; lia).
    assert (Hxb : all_bytes (xor_bytes b previous))
      by (apply xor_bytes_bytes; assumption).
    destruct (block_round_trip self _ Hwf Hxl Hxb) as (ct & E & Hcl & Hcb & D).
    destruct (IH ct (acc ++ [ct]) (acc' ++ [b]) Hcl Hcb)
      as (cs & final & E' & Hcs & Hlen & final' & D').
    exists (ct :: cs), final. cbn [for_each fst snd]. rewrite E.
    cbn [rbind fst snd]. rewrite E', <- app_assoc. cbn [app].
    split; [reflexivity|]. split; [constructor; assumption|].
    split; [cbn [length]; lia|].
    exists final'. rewrite D. cbn [rbind fst snd].
    rewrite xor_bytes_cancel by lia. rewrite <- app_assoc in D'. exact D'.
Qed.

(** [decrypt_cbc] undoes [encrypt_cbc], and the ciphertext has one block
    more than the plaintext has full blocks. *)
Lemma cbc_round_trip (self : AES.t) (plaintext iv : bytes) :
  wf_cipher self -> all_bytes plaintext ->
  length iv = 16%nat -> all_bytes iv ->
  exists ciphertext,
    AES.encrypt_cbc self plaintext iv = Ok ciphertext
    /\ length ciphertext = (16 * (length plaintext / 16 + 1))%nat
    /\ AES.decrypt_cbc self ciphertext iv = Ok plaintext.
Proof.
  intros Hwf Hpb Hil Hib.
  destruct (split_blocks_full _ _ (pad_length plaintext)) as (Ec & Lc & Fc).
  assert (Hblocks : Forall (fun b => length b = 16%nat /\ all_bytes b)
                           (split_blocks (pad plaintext))).
  { apply Forall_forall. intros b Hb. split.
    - rewrite Forall_forall in Fc. apply Fc, Hb.
    - apply Forall_forall. intros x Hx.
      pose proof (pad_bytes plaintext Hpb) as Hp. rewrite <- Ec in Hp.
      unfold all_bytes in Hp. rewrite Forall_forall in Hp. apply Hp.
      apply in_concat. exists b. split; assumption. }
  destruct (cbc_loops self _ Hwf Hblocks iv [] [] Hil Hib)
    as (cs & final & E & Hcs & Hlen & final' & D).
  exists (concat cs). unfold AES.encrypt_cbc, AES.decrypt_cbc.
  rewrite Hil. cbn [Nat.eqb assert rbind]. rewrite E. cbn [rbind fst app].
  split; [reflexivity|]. split.
  - rewrite <- Lc, <- Hlen. clear - Hcs.
    induction Hcs as [|c cs Hc _ IH]; [reflexivity|].
    cbn [concat length]. rewrite length_app, IH, Hc. lia.
  - rewrite split_blocks_concat by exact Hcs. rewrite D.
    cbn [rbind fst app]. rewrite Ec. apply unpad_pad.
Qed.

(** * The API *)

Section API_properties.
Context {hashlib : Hashlib}.

Lemma bind_lift_Ok {A B} (a : A) (k : A -> M B) : bind (lift (Ok a)) k = k a.
Proof. unfold bind, lift. simpl. destruct (k a); reflexivity. Qed.

Lemma bind_lift_Raise {A B} (e : exn) (k : A -> M B) :
  bind (lift (Raise e)) k = ([], Raise e).
Proof. reflexivity. Qed.

Lemma bind_pair_Ok {A B} (t : list call) (a : A) (k : A -> M B) :
  bind (t, Ok a) k = (t ++ fst (k a), snd (k a)).
Proof. reflexivity. Qed.

Lemma bind_perform_Ok {A B} (c : call) (a : A) (k : A -> M B) :
  bind (perform c (Ok a)) k = (c :: fst (k a), snd (k a)).
Proof. reflexivity. Qed.

Lemma bind_perform_Raise {A B} (c : call) (e : exn) (k : A -> M B) :
  bind (perform c (Raise e)) k = ([c], Raise e).
Proof. reflexivity. Qed.

Lemma get_key_iv_eq (password salt : bytes) (workload : positive) :
  get_key_iv password salt workload
  = ([call_pbkdf2_hmac password salt workload 48],
     Ok (derived password salt workload)).
Proof. reflexivity. Qed.

Lemma derived_key_facts (password salt : bytes) (workload : positive) :
  let '(aes_key, hmac_key, iv) := derived password salt workload in
  length aes_key = 16%nat /\ all_bytes aes_key
  /\ length iv = 16%nat /\ all_bytes iv.
Proof.
  unfold derived.
  pose proof (pbkdf2_hmac_length password salt workload 48) as Hl.
  pose proof (pbkdf2_hmac_bytes password salt workload 48) as Hb.
  repeat split.
  - rewrite length_firstn. lia.
  - apply Forall_firstn, Hb.
  - rewrite length_firstn, !length_skipn. lia.
  - apply Forall_firstn, Forall_skipn, Forall_skipn, Hb.
Qed.

Lemma utf8_decode_ascii (p : bytes) :
  Forall is_ascii p -> utf8_decode p = Ok p.
Proof.
  induction 1 as [|c p Hc _ IH]; [reflexivity|]. cbn [utf8_decode].
  unfold is_ascii in Hc.
  replace ((0 <=? c) && (c <? 128)) with true
    by (symmetry; apply andb_true_iff; split;
        [apply Z.leb_le | apply Z.ltb_lt]; lia).
  rewrite IH. reflexivity.
Qed.

Lemma ascii_loop (p : list Z) :
  Forall is_ascii p ->
  for_each p tt (fun char _ =>
    if 127 <? char then Raise UnsupportedMessageType else Ok tt) = Ok tt.
Proof.
  induction 1 as [|c p Hc _ IH]; [reflexivity|]. cbn [for_each].
  unfold is_ascii in Hc.
  replace (127 <? c) with false by (symmetry; apply Z.ltb_ge; lia).
  exact IH.
Qed.

Lemma key_length_ok_iff (n : nat) :
  key_length_ok n = true <-> valid_key_length n.
Proof.
  unfold key_length_ok, valid_key_length. cbn [existsb].
  rewrite !orb_true_iff, !Nat.eqb_eq. intuition discriminate.
Qed.

Lemma validate_encryption_inputs_ok (k p : bytes) :
  valid_key_length (length k) -> p <> [] -> Forall is_ascii p ->
  validate_encryption_inputs (PyBytes k) (PyBytes p) = Ok tt.
Proof.
  intros Hk Hp Ha. unfold validate_encryption_inputs. cbn [py_len py_truthy].
  apply key_length_ok_iff in Hk as Hk'. rewrite Hk'.
  replace (length k =? 0)%nat with false
    by (symmetry; apply Nat.eqb_neq; destruct Hk as [H|[H|H]]; lia).
  replace (length p =? 0)%nat with false
    by (symmetry; apply Nat.eqb_neq; destruct p; [congruence | discriminate]).
  cbn [negb as_bytes rbind]. rewrite utf8_decode_ascii by exact Ha.
  cbn [rbind]. apply ascii_loop, Ha.
Qed.

Lemma is_ascii_bytes (p : bytes) : Forall is_ascii p -> all_bytes p.
Proof.
  apply Forall_impl. unfold is_ascii, is_byte. intros; lia.
Qed.

Lemma init_derived (password salt : bytes) (workload : positive) :
  exists self,
    AES.__init__ (fst (fst (derived password salt workload))) = Ok self
    /\ wf_cipher self /\ AES.n_rounds self = 10%nat.
Proof.
  pose proof (derived_key_facts password salt workload) as H.
  destruct (derived password salt workload) as [[aes_key hmac_key] iv].
  destruct H as (Hl & Hb & _). cbn [fst].
  destruct (init_ok aes_key) as (self & E & Hwf & Hn);
    [left; exact Hl | exact Hb |].
  exists self. rewrite Hl in Hn. cbn in Hn. split; [exact E|].
  split; [exact Hwf | congruence].
Qed.

(** What [encrypt] does on a valid key and a non-empty ASCII message. *)
Lemma encrypt_run (k p salt : bytes) (w : positive)
    (aes_key hmac_key iv : bytes) :
  valid_key_length (length k) -> p <> [] -> Forall is_ascii p ->
  derived k salt w = (aes_key, hmac_key, iv) ->
  exists self ct,
    AES.__init__ aes_key = Ok self
    /\ AES.encrypt_cbc self p iv = Ok ct
    /\ length ct = (16 * (length p / 16 + 1))%nat
    /\ AES.decrypt_cbc self ct iv = Ok p
    /\ encrypt (PyBytes k) (PyBytes p) w salt
       = ([call_urandom 16; call_pbkdf2_hmac k salt w 48; call_AES aes_key;
           call_encrypt_cbc p iv; call_new_hmac hmac_key (salt ++ ct)],
          Ok (new_hmac_digest hmac_key (salt ++ ct) ++ salt ++ ct)).
Proof.
  intros Hk Hp Ha Ed.
  destruct (init_derived k salt w) as (self & Einit & Hwf & _).
  pose proof (derived_key_facts k salt w) as H.
  rewrite Ed in Einit, H. cbn [fst snd] in Einit.
  destruct H as (_ & _ & Hil & Hib).
  destruct (cbc_round_trip self p iv Hwf (is_ascii_bytes p Ha) Hil Hib)
    as (ct & Eenc & Hlen & Edec).
  exists self, ct. repeat (split; [assumption|]).
  unfold encrypt. cbn [encode_if_str]. rewrite !bind_lift_Ok.
  rewrite validate_encryption_inputs_ok by assumption.
  rewrite bind_lift_Ok, bind_perform_Ok. cbn [as_bytes].
  rewrite !bind_lift_Ok, get_key_iv_eq, Ed.
  rewrite !bind_pair_Ok. cbn [fst snd].
  rewrite Einit, !bind_perform_Ok, Eenc.
  rewrite !bind_perform_Ok, new_hmac_digest_length.
  cbn [HMAC_SIZE Nat.eqb assert]. rewrite !bind_lift_Ok.
  reflexivity.
Qed.

(** What [decrypt] does once its input checks have passed: the tag is
    recomputed and compared, and only a matching tag leads to the cipher. *)
Lemma decrypt_run (key : pyval) (k blob : bytes) (w : positive)
    (aes_key hmac_key iv : bytes) :
  validate_decryption_inputs key (PyBytes blob) = Ok tt ->
  encode_if_str key = Ok (PyBytes k) ->
  (length blob mod 16 = 0)%nat -> (32 <= length blob)%nat ->
  let tag := firstn 32 blob in
  let salt := firstn 16 (skipn 32 blob) in
  let ct := skipn 16 (skipn 32 blob) in
  derived k salt w = (aes_key, hmac_key, iv) ->
  let expected := new_hmac_digest hmac_key (salt ++ ct) in
  exists self,
    AES.__init__ aes_key = Ok self /\ AES.n_rounds self = 10%nat
    /\ decrypt key (PyBytes blob) w
       = if compare_digest tag expected
         then ([call_pbkdf2_hmac k salt w 48;
                call_new_hmac hmac_key (salt ++ ct);
                call_compare_digest tag expected;
                call_AES aes_key; call_decrypt_cbc ct iv],
               AES.decrypt_cbc self ct iv)
         else ([call_pbkdf2_hmac k salt w 48;
                call_new_hmac hmac_key (salt ++ ct);
                call_compare_digest tag expected],
               Raise (AssertionError tampered_msg)).
Proof.
  intros Hv He Hmod Hlen tag salt ct Ed expected.
  subst tag salt ct expected.
  destruct (init_derived k (firstn 16 (skipn 32 blob)) w)
    as (self & Einit & _ & Hn).
  rewrite Ed in Einit. cbn [fst] in Einit.
  exists self. split; [exact Einit|]. split; [exact Hn|].
  unfold decrypt, HMAC_SIZE, SALT_SIZE. rewrite Hv, bind_lift_Ok.
  cbn [py_len].
  rewrite Hmod. cbn [Nat.eqb assert]. rewrite bind_lift_Ok.
  replace (32 <=? length blob)%nat with true
    by (symmetry; apply Nat.leb_le; exact Hlen).
  cbn [assert]. rewrite bind_lift_Ok, He, bind_lift_Ok. cbn [as_bytes].
  rewrite !bind_lift_Ok.
  rewrite get_key_iv_eq, Ed, !bind_pair_Ok. cbn [fst snd].
  rewrite !bind_perform_Ok.
  destruct (compare_digest _ _); cbn [assert].
  - rewrite !bind_perform_Ok, Einit, !bind_perform_Ok. reflexivity.
  - rewrite !bind_perform_Raise. reflexivity.
Qed.

End API_properties.

(** * Results and traces of the API monad *)

Lemma snd_bind {A B} (m : M A) (k : A -> M B) :
  snd (bind m k) = rbind (snd m) (fun a => snd (k a)).
Proof. unfold bind. destruct (snd m); reflexivity. Qed.

Lemma rbind_Ok_inv {A B} (r : result A) (f : A -> result B) (b : B) :
  rbind r f = Ok b -> exists a, r = Ok a /\ f a = Ok b.
Proof.
  destruct r as [a|e]; simpl; intros H; [|discriminate H].
  exists a. split; [reflexivity | exact H].
Qed.

Lemma in_fst_bind {A B} (m : M A) (k : A -> M B) (c : call) :
  In c (fst (bind m k)) ->
  In c (fst m) \/ exists a, snd m = Ok a /\ In c (fst (k a)).
Proof.
  unfold bind. destruct (snd m) as [a|e]; cbn [fst]; intros H.
  - apply in_app_or in H. destruct H as [H|H]; [left; exact H|].
    right. exists a. split; [reflexivity | exact H].
  - left. exact H.
Qed.

Lemma as_bytes_Ok (v : pyval) (b : bytes) : as_bytes v = Ok b -> v = PyBytes b.
Proof. destruct v; simpl; intros H; inversion H; reflexivity. Qed.

Ltac bool_to_prop :=
  repeat match goal with
         | H : _ && _ = true |- _ => apply andb_true_iff in H; destruct H
         | H : (_ <=? _) = true |- _ => apply Z.leb_le in H
         | H : (_ <? _) = true |- _ => apply Z.ltb_lt in H
         | H : utf8_cont _ = true |- _ => unfold utf8_cont in H
         end.

(** Only byte strings decode. *)
Lemma utf8_decode_bytes (n : nat) (b : bytes) (cs : list Z) :
  (length b <= n)%nat -> utf8_decode b = Ok cs -> all_bytes b.
Proof.
  revert b cs. induction n as [|n IH]; intros b cs Hn H.
  - destruct b; [constructor | simpl in Hn; lia].
  - destruct b as [|b0 r0]; [constructor|]. cbn [utf8_decode] in H.
    cbn [length] in Hn.
    destruct ((0 <=? b0) && (b0 <? 128)) eqn:E1.
    { apply rbind_Ok_inv in H. destruct H as (cs' & H & _).
      bool_to_prop. constructor; [unfold is_byte; lia|].
      apply (IH r0 cs'); [lia | exact H]. }
    destruct ((194 <=? b0) && (b0 <=? 223)) eqn:E2.
    { destruct r0 as [|b1 r1]; [discriminate H|].
      destruct (utf8_cont b1) eqn:C1; [|discriminate H].
      apply rbind_Ok_inv in H. destruct H as (cs' & H & _).
      cbn [length] in Hn. bool_to_prop.
      repeat (constructor; [unfold is_byte; lia|]).
      apply (IH r1 cs'); [lia | exact H]. }
    destruct ((224 <=? b0) && (b0 <=? 239)) eqn:E3.
    { destruct r0 as [|b1 [|b2 r2]]; try discriminate H.
      destruct (utf8_cont b1) eqn:C1; [|discriminate H].
      destruct (utf8_cont b2) eqn:C2; [|discriminate H].
      cbn [andb] in H.
      destruct (negb _ && negb _); [|discriminate H].
      apply rbind_Ok_inv in H. destruct H as (cs' & H & _).
      cbn [length] in Hn. bool_to_prop.
      repeat (constructor; [unfold is_byte; lia|]).
      apply (IH r2 cs'); [lia | exact H]. }
    destruct ((240 <=? b0) && (b0 <=? 244)) eqn:E4; [|discriminate H].
    destruct r0 as [|b1 [|b2 [|b3 r3]]]; try discriminate H.
    destruct (utf8_cont b1) eqn:C1; [|discriminate H].
    destruct (utf8_cont b2) eqn:C2; [|discriminate H].
    destruct (utf8_cont b3) eqn:C3; [|discriminate H].
    cbn [andb] in H.
    destruct (negb _ && negb _); [|discriminate H].
    apply rbind_Ok_inv in H. destruct H as (cs' & H & _).
    cbn [length] in Hn. bool_to_prop.
    repeat (constructor; [unfold is_byte; lia|]).
    apply (IH r3 cs'); [lia | exact H].
Qed.

Section API_inversion.
Context {hashlib : Hashlib}.

Ltac bind_inv H x Hx :=
  rewrite snd_bind in H; apply rbind_Ok_inv in H;
  destruct H as (x & Hx & H); cbn [snd lift perform] in Hx.

(** A blob returned by [encrypt] comes from inputs that passed validation
    and from a ciphertext of the cipher under the derived key. *)
Lemma encrypt_Ok_inv (key plaintext : pyval) (w : positive)
    (salt blob : bytes) :
  snd (encrypt key plaintext w salt) = Ok blob ->
  exists kb pb self ct,
    encode_if_str key = Ok (PyBytes kb)
    /\ encode_if_str plaintext = Ok (PyBytes pb)
    /\ validate_encryption_inputs (PyBytes kb) (PyBytes pb) = Ok tt
    /\ AES.__init__ (fst (fst (derived kb salt w))) = Ok self
    /\ AES.encrypt_cbc self pb (snd (derived kb salt w)) = Ok ct
    /\ length (new_hmac_digest (snd (fst (derived kb salt w))) (salt ++ ct))
       = 32%nat
    /\ blob = new_hmac_digest (snd (fst (derived kb salt w))) (salt ++ ct)
              ++ salt ++ ct.
Proof.
  intros H. unfold encrypt in H.
  bind_inv H key' Hkey. bind_inv H plaintext' Hpt. bind_inv H u Hval.
  bind_inv H salt' Hsalt. bind_inv H kb Hkb. bind_inv H pb Hpb.
  bind_inv H kmi Hkmi. bind_inv H self Hinit. bind_inv H ct Hct.
  bind_inv H hmac Hhmac. bind_inv H u' Hassert.
  apply as_bytes_Ok in Hkb, Hpb. subst key' plaintext'.
  inversion Hsalt; subst salt'. rewrite get_key_iv_eq in Hkmi.
  cbn [snd] in Hkmi. inversion Hkmi; subst kmi.
  inversion Hhmac; subst hmac. cbn [ret snd] in H. inversion H; subst blob.
  destruct u. exists kb, pb, self, ct.
  repeat (split; [assumption|]). split; [|reflexivity].
  apply new_hmac_digest_length.
Qed.

Lemma validate_encryption_inputs_bytes (key : pyval) (pb : bytes) :
  validate_encryption_inputs key (PyBytes pb) = Ok tt ->
  pb <> [] /\ all_bytes pb.
Proof.
  unfold validate_encryption_inputs. intros H.
  destruct (match key with PyNone => true | _ => (py_len key =? 0)%nat end);
    [discriminate H|].
  destruct (negb (py_truthy (PyBytes pb))) eqn:Et; [discriminate H|].
  destruct (negb (key_length_ok (py_len key))); [discriminate H|].
  cbn [as_bytes rbind] in H. apply rbind_Ok_inv in H.
  destruct H as (chars & Hdec & _). split.
  - intros ->. discriminate Et.
  - apply (utf8_decode_bytes (length pb) pb chars); [lia | exact Hdec].
Qed.

End API_inversion.

(** * The UTF-8 codec *)

Ltac zdiv := Z.div_mod_to_equations; lia.

Ltac test_to_prop E :=
  repeat first
    [ rewrite andb_true_iff in E | rewrite andb_false_iff in E
    | rewrite negb_true_iff in E | rewrite negb_false_iff in E
    | rewrite Z.leb_le in E | rewrite Z.leb_gt in E
    | rewrite Z.ltb_lt in E | rewrite Z.ltb_ge in E
    | rewrite Z.eqb_eq in E | rewrite Z.eqb_neq in E ].

(** Settles the tests of the decoder by arithmetic on the encoded bytes. *)
Ltac decide_tests :=
  repeat match goal with
         | |- context [if ?b then _ else _] =>
             let E := fresh "E" in
             destruct b eqn:E;
             [ try (exfalso; unfold utf8_cont in E; test_to_prop E; zdiv)
             | try (exfalso; unfold utf8_cont in E; test_to_prop E; zdiv) ]
         end.

Ltac encoded_bytes H :=
  match type of H with
  | Ok ?l = Ok ?b =>
      let Hb := fresh in
      assert (Hb : b = l) by congruence; clear H; subst b
  end.

Lemma utf8_decode_encode_char (c : Z) (b rest : bytes) :
  utf8_encode_char c = Ok b ->
  utf8_decode (b ++ rest) = rbind (utf8_decode rest) (fun cs => Ok (c :: cs)).
Proof.
  unfold utf8_encode_char. intros H.
  destruct (c <? 0) eqn:E0; [discriminate H|].
  destruct (c <? 128) eqn:E1.
  { encoded_bytes H. cbn [app utf8_decode].
    test_to_prop E0. test_to_prop E1. decide_tests. reflexivity. }
  destruct (c <? 2048) eqn:E2.
  { encoded_bytes H. cbn [app utf8_decode].
    test_to_prop E0. test_to_prop E1. test_to_prop E2.
    decide_tests. destruct (utf8_decode rest); cbn [rbind]; [|reflexivity].
    f_equal. f_equal. zdiv. }
  destruct (c <? 65536) eqn:E3.
  { destruct ((55296 <=? c) && (c <=? 57343)) eqn:Es; [discriminate H|].
    encoded_bytes H. cbn [app utf8_decode].
    test_to_prop E0. test_to_prop E1. test_to_prop E2. test_to_prop E3.
    test_to_prop Es.
    decide_tests. destruct (utf8_decode rest); cbn [rbind]; [|reflexivity].
    f_equal. f_equal. zdiv. }
  destruct (c <? 1114112) eqn:E4; [|discriminate H].
  encoded_bytes H. cbn [app utf8_decode].
  test_to_prop E0. test_to_prop E1. test_to_prop E2. test_to_prop E3.
  test_to_prop E4.
  decide_tests. destruct (utf8_decode rest); cbn [rbind]; [|reflexivity].
  f_equal. f_equal. zdiv.
Qed.

(** Decoding what [str.encode] produced gives the text back. *)
Lemma utf8_decode_encode (s : list Z) (b : bytes) :
  utf8_encode s = Ok b -> utf8_decode b = Ok s.
Proof.
  revert b. induction s as [|c s IH]; intros b H; cbn [utf8_encode] in H.
  - inversion H. reflexivity.
  - apply rbind_Ok_inv in H. destruct H as (bc & Hc & H).
    apply rbind_Ok_inv in H. destruct H as (bs & Hs & H).
    inversion H; subst b.
    rewrite (utf8_decode_encode_char c bc bs Hc), (IH bs Hs). reflexivity.
Qed.

Lemma non_ascii_loop (chars : list Z) :
  Exists (fun c => 127 < c) chars ->
  for_each chars tt (fun char _ =>
    if 127 <? char then Raise UnsupportedMessageType else Ok tt)
  = Raise UnsupportedMessageType.
Proof.
  induction 1 as [c chars Hc | c chars _ IH]; cbn [for_each].
  - replace (127 <? c) with true by (symmetry; apply Z.ltb_lt; exact Hc).
    reflexivity.
  - destruct (127 <? c); [reflexivity | exact IH].
Qed.

Section Round_trip.
Context {hashlib : Hashlib}.

(** [encrypt] followed by [decrypt] on a valid key and a non-empty ASCII
    message: both succeed, and both set up the cipher with the same
    derived key. *)
Lemma round_trip_run (k p salt : bytes) (w : positive) :
  valid_key_length (length k) -> p <> [] -> Forall is_ascii p ->
  length salt = 16%nat ->
  exists blob mk te td,
    encrypt (PyBytes k) (PyBytes p) w salt = (te, Ok blob)
    /\ decrypt (PyBytes k) (PyBytes blob) w = (td, Ok p)
    /\ In (call_AES mk) te /\ In (call_AES mk) td.
Proof.
  intros Hk Hp Ha Hs.
  destruct (derived k salt w) as [[aes_key hmac_key] iv] eqn:Ed.
  destruct (encrypt_run k p salt w aes_key hmac_key iv Hk Hp Ha Ed)
    as (self & ct & Einit & Eenc & Hlen & Edec & Erun).
  set (tag := new_hmac_digest hmac_key (salt ++ ct)) in *.
  assert (Htag : length tag = 32%nat) by apply new_hmac_digest_length.
  assert (E1 : firstn 32 (tag ++ salt ++ ct) = tag).
  { rewrite firstn_app, Htag, Nat.sub_diag, firstn_O, app_nil_r.
    apply firstn_all2. lia. }
  assert (E2 : skipn 32 (tag ++ salt ++ ct) = salt ++ ct).
  { rewrite skipn_app, Htag, Nat.sub_diag, skipn_all2 by lia. reflexivity. }
  assert (E3 : firstn 16 (salt ++ ct) = salt).
  { rewrite firstn_app, Hs, Nat.sub_diag, firstn_O, app_nil_r.
    apply firstn_all2. lia. }
  assert (E4 : skipn 16 (salt ++ ct) = ct).
  { rewrite skipn_app, Hs, Nat.sub_diag, skipn_all2 by lia. reflexivity. }
  assert (Hblob : length (tag ++ salt ++ ct)
                  = (16 * (length p / 16 + 4))%nat).
  { rewrite !length_app, Htag, Hs, Hlen. lia. }
  destruct (decrypt_run (PyBytes k) k (tag ++ salt ++ ct) w aes_key hmac_key iv)
    as (self' & Einit' & _ & Erun').
  - unfold validate_decryption_inputs. cbn [py_len py_truthy].
    apply key_length_ok_iff in Hk as Hk'. rewrite Hk', Hblob.
    replace (length k =? 0)%nat with false
      by (symmetry; apply Nat.eqb_neq; destruct Hk as [H|[H|H]]; lia).
    replace (16 * (length p / 16 + 4) =? 0)%nat with false
      by (symmetry; apply Nat.eqb_neq; lia).
    reflexivity.
  - reflexivity.
  - rewrite Hblob, Nat.mul_comm. apply Nat.Div0.mod_mul.
  - lia.
  - rewrite E2, E3. exact Ed.
  - rewrite E1, E2, E3, E4 in Erun'. fold tag in Erun'.
    assert (Hc : compare_digest tag tag = true).
    { unfold compare_digest. destruct (list_eq_dec Z.eq_dec tag tag);
        [reflexivity | congruence]. }
    rewrite Hc in Erun'.
    assert (self' = self) by congruence. subst self'.
    rewrite Edec in Erun'.
    exists (tag ++ salt ++ ct), aes_key. eexists. eexists.
    split; [exact Erun|]. split; [exact Erun'|].
    split; cbn [In]; tauto.
Qed.

Ltac trace_step H :=
  apply in_fst_bind in H;
  destruct H as [H | (? & ? & H)];
  [ cbn [fst lift perform In] in H;
    try contradiction; try (destruct H as [H | []]; discriminate H)
  | ].

(** The only key [encrypt] hands to the cipher is the first 16 bytes of
    what PBKDF2 gave for the encoded key and the salt drawn, and the
    cipher is set up right after the derivation. *)
Lemma encrypt_cipher_key (key plaintext : pyval) (w : positive)
    (salt mk : bytes) :
  In (call_AES mk) (fst (encrypt key plaintext w salt)) ->
  exists kb rest,
    encode_if_str key = Ok (PyBytes kb)
    /\ mk = firstn 16 (pbkdf2_hmac kb salt w 48)
    /\ fst (encrypt key plaintext w salt)
       = call_urandom 16 :: call_pbkdf2_hmac kb salt w 48
         :: call_AES mk :: rest.
Proof.
  unfold encrypt.
  destruct (encode_if_str key) as [k1|e] eqn:Hk;
    [rewrite bind_lift_Ok | rewrite bind_lift_Raise; intros []].
  destruct (encode_if_str plaintext) as [p1|e] eqn:Hp;
    [rewrite bind_lift_Ok | rewrite bind_lift_Raise; intros []].
  destruct (validate_encryption_inputs k1 p1) as [[]|e] eqn:Hv;
    [rewrite bind_lift_Ok | rewrite bind_lift_Raise; intros []].
  rewrite bind_perform_Ok.
  destruct k1 as [| kb | s]; cbn [as_bytes];
    try (rewrite bind_lift_Raise; intros [H | []]; discriminate H).
  rewrite bind_lift_Ok.
  destruct p1 as [| pb | s]; cbn [as_bytes];
    try (rewrite bind_lift_Raise; intros [H | []]; discriminate H).
  rewrite bind_lift_Ok, get_key_iv_eq, bind_pair_Ok. cbv zeta.
  cbn [fst snd app derived].
  set (k := firstn 16 (pbkdf2_hmac kb salt w 48)).
  destruct (AES.__init__ k) as [self|e] eqn:Hi.
  - rewrite bind_perform_Ok. cbn [fst].
    intros [H | [H | [H | H]]]; try discriminate H.
    + inversion H; subst mk. eexists. eexists.
      split; [reflexivity|]. split; reflexivity.
    + exfalso. do 3 trace_step H. cbn in H. contradiction.
  - rewrite bind_perform_Raise. cbn [fst].
    intros [H | [H | [H | []]]]; try discriminate H.
    inversion H; subst mk. eexists. eexists.
    split; [reflexivity|]. split; reflexivity.
Qed.

(** The only key [decrypt] hands to the cipher is the first 16 bytes of
    what PBKDF2 gave for the encoded key and the salt stored in the blob,
    and the derivation is the first call [decrypt] makes. *)
Lemma decrypt_cipher_key (key blob : pyval) (w : positive) (mk : bytes) :
  In (call_AES mk) (fst (decrypt key blob w)) ->
  exists kb b rest,
    encode_if_str key = Ok (PyBytes kb) /\ blob = PyBytes b
    /\ mk = firstn 16 (pbkdf2_hmac kb (firstn 16 (skipn 32 b)) w 48)
    /\ fst (decrypt key blob w)
       = call_pbkdf2_hmac kb (firstn 16 (skipn 32 b)) w 48 :: rest
    /\ In (call_AES mk) rest.
Proof.
  unfold decrypt.
  destruct (validate_decryption_inputs key blob) as [[]|e] eqn:Hv;
    [rewrite bind_lift_Ok | rewrite bind_lift_Raise; intros []].
  destruct (assert (py_len blob mod 16 =? 0)%nat full_blocks_msg)
    as [[]|e];
    [rewrite bind_lift_Ok | rewrite bind_lift_Raise; intros []].
  destruct (assert (32 <=? py_len blob)%nat too_short_msg) as [[]|e];
    [rewrite bind_lift_Ok | rewrite bind_lift_Raise; intros []].
  destruct (encode_if_str key) as [k1|e] eqn:Hk;
    [rewrite bind_lift_Ok | rewrite bind_lift_Raise; intros []].
  destruct k1 as [| kb | s]; cbn [as_bytes];
    try (rewrite bind_lift_Raise; intros []).
  rewrite bind_lift_Ok.
  destruct blob as [| b | s]; cbn [as_bytes];
    try (rewrite bind_lift_Raise; intros []).
  rewrite bind_lift_Ok. cbv zeta.
  rewrite get_key_iv_eq, bind_pair_Ok.
  cbn [fst snd app derived]. unfold HMAC_SIZE, SALT_SIZE.
  intros [H | H]; [discriminate H|].
  exists kb, b. eexists.
  split; [reflexivity|]. split; [reflexivity|].
  split; [|split; [reflexivity | exact H]].
  do 2 trace_step H.
  apply in_fst_bind in H. destruct H as [H | (self & _ & H)].
  - destruct H as [H | []]. inversion H. reflexivity.
  - cbn in H. destruct H as [H | []]. discriminate H.
Qed.

End Round_trip.

(** * The claims *)

(** C2. For the 128-, 192- and 256-bit keys of the published test
    vectors, [encrypt_block] maps the standard plaintext block to the
    standard ciphertext block and [decrypt_block] maps it back. *)
Theorem known_answer_vectors :
  AES_encrypt_block (kat_key 16) kat_plaintext = Ok kat_ciphertext_128
  /\ AES_decrypt_block (kat_key 16) kat_ciphertext_128 = Ok kat_plaintext
  /\ AES_encrypt_block (kat_key 24) kat_plaintext = Ok kat_ciphertext_192
  /\ AES_decrypt_block (kat_key 24) kat_ciphertext_192 = Ok kat_plaintext
  /\ AES_encrypt_block (kat_key 32) kat_plaintext = Ok kat_ciphertext_256
  /\ AES_decrypt_block (kat_key 32) kat_ciphertext_256 = Ok kat_plaintext.
Proof. repeat split; vm_compute; reflexivity. Qed.

(** C3. For every master key of 16, 24 or 32 bytes and every 16-byte
    block, [decrypt_block] gives back what [encrypt_block] was given,
    under the same key schedule; [encrypt_block] runs the operations of
    section 4.3 in order, and [decrypt_block] runs their inverses in the
    reverse order, which is the list section 4.3 gives for it. *)
Theorem decrypt_block_inverts_encrypt_block (master_key block : bytes) :
  valid_key_length (length master_key) -> all_bytes master_key ->
  length block = 16%nat -> all_bytes block ->
  exists self ct,
    AES.__init__ master_key = Ok self
    /\ AES.encrypt_block self block = Ok ct
    /\ AES.decrypt_block self ct = Ok block
    /\ (forall b,
          AES.encrypt_block self b
          = rbind (assert (length b =? 16)%nat "")
              (fun _ => rbind (run_ops self (encrypt_ops (AES.n_rounds self))
                                       (bytes2matrix b))
                              (fun s => Ok (matrix2bytes s))))
    /\ (forall c,
          AES.decrypt_block self c
          = rbind (assert (length c =? 16)%nat "")
              (fun _ => rbind (run_ops self
                                 (rev (map inverse_op
                                         (encrypt_ops (AES.n_rounds self))))
                                 (bytes2matrix c))
                              (fun s => Ok (matrix2bytes s))))
    /\ rev (map inverse_op (encrypt_ops (AES.n_rounds self)))
       = decrypt_ops (AES.n_rounds self).
Proof.
  intros Hlen Hkey Hbl Hbb.
  destruct (init_ok master_key Hlen Hkey) as (self & Einit & Hwf & _).
  destruct (block_round_trip self block Hwf Hbl Hbb) as (ct & E & _ & _ & D).
  exists self, ct. repeat (split; [assumption|]). split; [|split].
  - intros b. apply encrypt_block_ops, Hwf.
  - intros c. rewrite <- decrypt_ops_reverse. apply decrypt_block_ops, Hwf.
  - symmetry. apply decrypt_ops_reverse.
Qed.

Lemma decrypt_block_inverts_encrypt_block_witness :
  exists self ct,
    AES.__init__ (kat_key 24) = Ok self
    /\ AES.encrypt_block self kat_plaintext = Ok ct
    /\ AES.decrypt_block self ct = Ok kat_plaintext
    /\ (forall b,
          AES.encrypt_block self b
          = rbind (assert (length b =? 16)%nat "")
              (fun _ => rbind (run_ops self (encrypt_ops (AES.n_rounds self))
                                       (bytes2matrix b))
                              (fun s => Ok (matrix2bytes s))))
    /\ (forall c,
          AES.decrypt_block self c
          = rbind (assert (length c =? 16)%nat "")
              (fun _ => rbind (run_ops self
                                 (rev (map inverse_op
                                         (encrypt_ops (AES.n_rounds self))))
                                 (bytes2matrix c))
                              (fun s => Ok (matrix2bytes s))))
    /\ rev (map inverse_op (encrypt_ops (AES.n_rounds self)))
       = decrypt_ops (AES.n_rounds self).
Proof.
  apply (decrypt_block_inverts_encrypt_block (kat_key 24) kat_plaintext).
  - right; left; reflexivity.
  - apply all_bytes_check. vm_compute. reflexivity.
  - reflexivity.
  - apply all_bytes_check. vm_compute. reflexivity.
Defined.

Section Claims.
Context {hashlib : Hashlib}.

(** C1. For every key of 16, 24 or 32 bytes, every non-empty plaintext of
    ASCII characters, every salt [os.urandom] draws and every iteration
    count, [decrypt] of what [encrypt] returns is the plaintext. *)
Theorem decrypt_encrypt_round_trip (k p salt : bytes) (w : positive) :
  valid_key_length (length k) -> p <> [] -> Forall is_ascii p ->
  length salt = 16%nat ->
  exists blob,
    snd (encrypt (PyBytes k) (PyBytes p) w salt) = Ok blob
    /\ snd (decrypt (PyBytes k) (PyBytes blob) w) = Ok p.
Proof.
  intros Hk Hp Ha Hs.
  destruct (round_trip_run k p salt w Hk Hp Ha Hs)
    as (blob & mk & te & td & He & Hd & _).
  exists blob. rewrite He, Hd. split; reflexivity.
Qed.

End Claims.

Lemma decrypt_encrypt_round_trip_witness :
  exists blob,
    snd (@encrypt example_hashlib (PyBytes scenario_key)
           (PyBytes scenario_plaintext) 1 zero_salt) = Ok blob
    /\ snd (@decrypt example_hashlib (PyBytes scenario_key) (PyBytes blob) 1)
       = Ok scenario_plaintext.
Proof.
  apply (@decrypt_encrypt_round_trip example_hashlib).
  - left. reflexivity.
  - discriminate.
  - repeat constructor; unfold is_ascii; lia.
  - reflexivity.
Defined.

Section Blob_layout.
Context {hashlib : Hashlib}.

(** C4. Every blob [encrypt] returns is AuthTag, then Salt, then
    Ciphertext: the ciphertext is what [encrypt_cbc] gives for the encoded
    message under the derived key and IV, N blocks of 16 bytes with
    N = len(message) / 16 + 1 >= 1; the salt is the 16 bytes drawn; the tag
    is the HMAC of salt || ciphertext under the derived HMAC key, 32
    bytes; the blob has 48 + 16 N bytes in all.  For every key of 16 bytes
    and the 11-byte plaintext of the scenario of section 8, whatever the
    iteration count, the blob has exactly 64 bytes. *)
Theorem encrypt_blob_layout (salt : bytes) :
  length salt = 16%nat ->
  (forall (key plaintext : pyval) (w : positive) (blob : bytes),
      snd (encrypt key plaintext w salt) = Ok blob ->
      exists kb pb self tag ct N,
        encode_if_str key = Ok (PyBytes kb)
        /\ encode_if_str plaintext = Ok (PyBytes pb)
        /\ AES.__init__ (fst (fst (derived kb salt w))) = Ok self
        /\ AES.encrypt_cbc self pb (snd (derived kb salt w)) = Ok ct
        /\ tag = new_hmac_digest (snd (fst (derived kb salt w))) (salt ++ ct)
        /\ blob = tag ++ salt ++ ct
        /\ length tag = 32%nat /\ length ct = (16 * N)%nat
        /\ N = (length pb / 16 + 1)%nat /\ (1 <= N)%nat
        /\ length blob = (48 + 16 * N)%nat)
  /\ (forall (key plaintext : pyval) (kb : bytes) (w : positive),
        encode_if_str key = Ok (PyBytes kb) -> length kb = 16%nat ->
        encode_if_str plaintext = Ok (PyBytes scenario_plaintext) ->
        exists blob,
          snd (encrypt key plaintext w salt) = Ok blob
          /\ length blob = 64%nat).
Proof.
  intros Hs. split.
  - intros key plaintext w blob H.
    apply encrypt_Ok_inv in H.
    destruct H as (kb & pb & self & ct & Hk & Hp & Hval & Hinit & Hct & Htag
                   & ->).
    exists kb, pb, self,
      (new_hmac_digest (snd (fst (derived kb salt w))) (salt ++ ct)), ct,
      (length pb / 16 + 1)%nat.
    split; [exact Hk|]. split; [exact Hp|]. split; [exact Hinit|].
    split; [exact Hct|]. split; [reflexivity|]. split; [reflexivity|].
    split; [exact Htag|].
    apply validate_encryption_inputs_bytes in Hval. destruct Hval as [_ Hpb].
    destruct (init_derived kb salt w) as (self' & Hinit' & Hwf & _).
    rewrite Hinit in Hinit'. inversion Hinit'; subst self'.
    pose proof (derived_key_facts kb salt w) as Hd.
    destruct (derived kb salt w) as [[aes_key hmac_key] iv].
    destruct Hd as (_ & _ & Hil & Hib). cbn [fst snd] in *.
    destruct (cbc_round_trip self pb iv Hwf Hpb Hil Hib)
      as (ct' & Hct' & Hlen & _).
    rewrite Hct in Hct'. inversion Hct'; subst ct'.
    split; [exact Hlen|]. split; [reflexivity|].
    split; [lia|]. rewrite !length_app, Htag, Hs, Hlen. lia.
  - intros key plaintext kb w Hk Hkl Hp.
    destruct (derived kb salt w) as [[aes_key hmac_key] iv] eqn:Ed.
    destruct (encrypt_run kb scenario_plaintext salt w
                aes_key hmac_key iv) as (self & ct & _ & _ & Hlen & _ & Erun).
    + left. exact Hkl.
    + discriminate.
    + repeat constructor; unfold is_ascii; lia.
    + exact Ed.
    + assert (E : encrypt key plaintext w salt
                  = encrypt (PyBytes kb) (PyBytes scenario_plaintext) w salt)
        by (unfold encrypt; rewrite Hk, Hp; reflexivity).
      eexists. rewrite E, Erun. split; [reflexivity|].
      rewrite !length_app, new_hmac_digest_length, Hs, Hlen. reflexivity.
Qed.

End Blob_layout.

Lemma encrypt_blob_layout_witness :
  (forall (key plaintext : pyval) (w : positive) (blob : bytes),
      snd (@encrypt example_hashlib key plaintext w zero_salt) = Ok blob ->
      exists kb pb self tag ct N,
        encode_if_str key = Ok (PyBytes kb)
        /\ encode_if_str plaintext = Ok (PyBytes pb)
        /\ AES.__init__ (fst (fst (@derived example_hashlib kb zero_salt w)))
           = Ok self
        /\ AES.encrypt_cbc self pb
             (snd (@derived example_hashlib kb zero_salt w)) = Ok ct
        /\ tag = @new_hmac_digest example_hashlib
                   (snd (fst (@derived example_hashlib kb zero_salt w)))
                   (zero_salt ++ ct)
        /\ blob = tag ++ zero_salt ++ ct
        /\ length tag = 32%nat /\ length ct = (16 * N)%nat
        /\ N = (length pb / 16 + 1)%nat /\ (1 <= N)%nat
        /\ length blob = (48 + 16 * N)%nat)
  /\ (forall (key plaintext : pyval) (kb : bytes) (w : positive),
        encode_if_str key = Ok (PyBytes kb) -> length kb = 16%nat ->
        encode_if_str plaintext = Ok (PyBytes scenario_plaintext) ->
        exists blob,
          snd (@encrypt example_hashlib key plaintext w zero_salt) = Ok blob
          /\ length blob = 64%nat).
Proof. apply (@encrypt_blob_layout example_hashlib zero_salt). reflexivity. Defined.

Section Decrypt_checks.
Context {hashlib : Hashlib}.

(** C5. In [decrypt] the tag is recomputed over salt || ciphertext and
    compared with the tag of the blob before the cipher is set up or
    run: whenever the input checks pass the calls are the key
    derivation, the HMAC and the comparison, in this order, and only a
    matching tag is followed by [AES(key).decrypt_cbc].  On a mismatch
    [decrypt] raises the assertion failure 'Ciphertext corrupted or
    tampered.' (the IntegrityFailure of the specification), the same for
    a tampered blob and for a wrong key, and no plaintext is produced. *)
Theorem tag_verified_before_decryption (key : pyval) (k blob : bytes)
    (w : positive) (aes_key hmac_key iv : bytes) :
  validate_decryption_inputs key (PyBytes blob) = Ok tt ->
  encode_if_str key = Ok (PyBytes k) ->
  (length blob mod 16 = 0)%nat -> (32 <= length blob)%nat ->
  let tag := firstn 32 blob in
  let salt := firstn 16 (skipn 32 blob) in
  let ct := skipn 16 (skipn 32 blob) in
  derived k salt w = (aes_key, hmac_key, iv) ->
  let expected := new_hmac_digest hmac_key (salt ++ ct) in
  let checks := [call_pbkdf2_hmac k salt w 48;
                 call_new_hmac hmac_key (salt ++ ct);
                 call_compare_digest tag expected] in
  (tag = expected ->
   exists self,
     AES.__init__ aes_key = Ok self
     /\ decrypt key (PyBytes blob) w
        = (checks ++ [call_AES aes_key; call_decrypt_cbc ct iv],
           AES.decrypt_cbc self ct iv))
  /\ (tag <> expected ->
      decrypt key (PyBytes blob) w
      = (checks, Raise (AssertionError tampered_msg))).
Proof.
  intros Hv He Hmod Hlen tag salt ct Ed expected checks.
  destruct (decrypt_run key k blob w aes_key hmac_key iv Hv He Hmod Hlen Ed)
    as (self & Einit & _ & Erun).
  fold tag salt ct expected in Erun. unfold compare_digest in Erun.
  destruct (list_eq_dec Z.eq_dec tag expected) as [Heq | Hneq]; split.
  - intros _. exists self. split; [exact Einit | exact Erun].
  - intros Hn. contradiction.
  - intros Heq. contradiction.
  - intros _. exact Erun.
Qed.

(** C6, as the code has it.  For a key that passes validation and a blob
    that is not empty, [decrypt] fails an assertion whenever the length of
    the blob is not a multiple of 16 or is below 32, and no call to the
    key derivation, to the HMAC or to the cipher has been made. *)
Theorem malformed_blob_rejected (key blob : pyval) (w : positive) :
  validate_decryption_inputs key blob = Ok tt ->
  (py_len blob mod 16 <> 0)%nat \/ (py_len blob < 32)%nat ->
  exists msg, decrypt key blob w = ([], Raise (AssertionError msg)).
Proof.
  intros Hv Hbad. unfold decrypt. rewrite Hv, bind_lift_Ok.
  destruct (py_len blob mod 16 =? 0)%nat eqn:Emod; cbn [assert].
  - rewrite bind_lift_Ok.
    apply Nat.eqb_eq in Emod. destruct Hbad as [Hbad | Hbad]; [lia|].
    replace (32 <=? py_len blob)%nat with false
      by (symmetry; apply Nat.leb_gt; exact Hbad).
    cbn [assert]. rewrite bind_lift_Raise. eexists. reflexivity.
  - rewrite bind_lift_Raise. eexists. reflexivity.
Qed.

(** X22. A key whose length is 8, 15, 17 or 33 both as passed and as a
    byte string (every key of bytes, every text key of one-byte
    characters) makes [encrypt] and [decrypt] raise [InvalidKeyLength] on
    any non-empty message or blob, and a missing or empty key makes them
    raise [EncryptDecryptWithoutKey]; in each case no call to the random
    source, the key derivation, the HMAC or the cipher has been made.
    The two validation functions raise the same on every key value of
    such a length. *)
Theorem invalid_key_rejected_first (key plaintext blob : pyval)
    (w : positive) (salt : bytes) :
  (forall n, In n [8; 15; 17; 33]%nat -> key_has_length key n ->
     (non_empty_message plaintext ->
      encrypt key plaintext w salt = ([], Raise InvalidKeyLength))
     /\ (py_truthy blob = true ->
         decrypt key blob w = ([], Raise InvalidKeyLength)))
  /\ (forall n, In n [8; 15; 17; 33]%nat -> py_len key = n ->
      (py_truthy plaintext = true ->
       validate_encryption_inputs key plaintext = Raise InvalidKeyLength)
      /\ (py_truthy blob = true ->
          validate_decryption_inputs key blob = Raise InvalidKeyLength))
  /\ (empty_key key ->
      (forall b, encode_if_str plaintext = Ok b ->
         encrypt key plaintext w salt = ([], Raise EncryptDecryptWithoutKey))
      /\ decrypt key blob w = ([], Raise EncryptDecryptWithoutKey)).
Proof.
  assert (Hval : forall n msg, In n [8; 15; 17; 33]%nat -> py_len key = n ->
             py_truthy msg = true ->
             validate_encryption_inputs key msg = Raise InvalidKeyLength
             /\ validate_decryption_inputs key msg = Raise InvalidKeyLength).
  { intros n msg Hn Hlen Hmsg.
    unfold validate_encryption_inputs, validate_decryption_inputs.
    rewrite Hlen, Hmsg. cbn [In] in Hn.
    destruct Hn as [<- | [<- | [<- | [<- | []]]]];
      destruct key; try discriminate Hlen; split; reflexivity. }
  split; [|split].
  - intros n Hn (Hlen & kb & Hkb & Hkbl). split.
    + intros (pb & Hpb & Hne). unfold encrypt.
      rewrite Hkb, bind_lift_Ok, Hpb, bind_lift_Ok.
      unfold validate_encryption_inputs. cbn [py_len py_truthy].
      rewrite Hkbl.
      replace (length pb =? 0)%nat with false
        by (symmetry; apply Nat.eqb_neq; destruct pb;
            [congruence | discriminate]).
      cbn [In] in Hn.
      destruct Hn as [<- | [<- | [<- | [<- | []]]]]; reflexivity.
    + intros Hblob. unfold decrypt.
      rewrite (proj2 (Hval n blob Hn Hlen Hblob)). reflexivity.
  - intros n Hn Hlen. split; intros Hmsg; apply (Hval n _ Hn Hlen Hmsg).
  - intros [-> | [-> | ->]]; split; try reflexivity;
      intros b Hb; unfold encrypt; cbn [encode_if_str utf8_encode rbind];
      rewrite bind_lift_Ok, Hb, bind_lift_Ok; reflexivity.
Qed.

End Decrypt_checks.

Section Plaintext_and_keys.
Context {hashlib : Hashlib}.

(** C8. For every valid key, [encrypt] raises [UnsupportedMessageType]
    whenever a character of the plaintext decodes to a value above 127:
    for a plaintext given as bytes that decode, for a plaintext given as
    text, and in particular for the text h-e_acute-l-l-o (code points 104, 233, 108, 108, 111); nothing has been
    derived or encrypted by then. *)
Theorem non_ascii_plaintext_rejected (key : pyval) (kb : bytes)
    (w : positive) (salt : bytes) :
  encode_if_str key = Ok (PyBytes kb) -> valid_key_length (length kb) ->
  (forall pb chars,
      utf8_decode pb = Ok chars -> Exists (fun c => 127 < c) chars ->
      encrypt key (PyBytes pb) w salt = ([], Raise UnsupportedMessageType))
  /\ (forall s pb,
        utf8_encode s = Ok pb -> Exists (fun c => 127 < c) s ->
        encrypt key (PyStr s) w salt = ([], Raise UnsupportedMessageType))
  /\ encrypt key (PyStr [104; 233; 108; 108; 111]) w salt
     = ([], Raise UnsupportedMessageType).
Proof.
  intros Hkey Hlen.
  assert (Hbytes : forall pb chars,
             utf8_decode pb = Ok chars -> Exists (fun c => 127 < c) chars ->
             validate_encryption_inputs (PyBytes kb) (PyBytes pb)
             = Raise UnsupportedMessageType).
  { intros pb chars Hdec Hex. unfold validate_encryption_inputs.
    cbn [py_len py_truthy].
    apply key_length_ok_iff in Hlen as Hk'. rewrite Hk'.
    replace (length kb =? 0)%nat with false
      by (symmetry; apply Nat.eqb_neq; destruct Hlen as [H|[H|H]]; lia).
    destruct pb as [|b0 pb].
    { cbn in Hdec. inversion Hdec; subst chars. inversion Hex. }
    cbn [length Nat.eqb negb as_bytes rbind]. rewrite Hdec. cbn [rbind].
    apply non_ascii_loop, Hex. }
  assert (Htext : forall s pb,
             utf8_encode s = Ok pb -> Exists (fun c => 127 < c) s ->
             encrypt key (PyStr s) w salt
             = ([], Raise UnsupportedMessageType)).
  { intros s pb Henc Hex. unfold encrypt.
    rewrite Hkey, bind_lift_Ok. cbn [encode_if_str]. rewrite Henc.
    cbn [rbind]. rewrite bind_lift_Ok.
    rewrite (Hbytes pb s (utf8_decode_encode s pb Henc) Hex). reflexivity. }
  split; [|split].
  - intros pb chars Hdec Hex. unfold encrypt.
    rewrite Hkey, bind_lift_Ok. cbn [encode_if_str]. rewrite bind_lift_Ok.
    rewrite (Hbytes pb chars Hdec Hex). reflexivity.
  - exact Htext.
  - apply (Htext _ [104; 195; 169; 108; 108; 111]); [reflexivity|].
    apply Exists_cons_tl, Exists_cons_hd. lia.
Qed.

(** C9. A key passed as text is encoded by [encrypt] before its length is
    checked, so [encrypt] treats it as its UTF-8 bytes; [decrypt] checks
    the length first, so a text key whose number of characters is not 16,
    24 or 32 is rejected whatever its encoding.  The key of eight
    characters U+00E9 encodes to 16 bytes: [encrypt] accepts it and
    [decrypt] raises [InvalidKeyLength] on the blob [encrypt] returned. *)
Theorem text_key_length_asymmetry :
  (forall s kb plaintext w salt,
      utf8_encode s = Ok kb ->
      encrypt (PyStr s) plaintext w salt
      = encrypt (PyBytes kb) plaintext w salt)
  /\ (forall s blob w,
        s <> [] -> py_truthy blob = true ->
        key_length_ok (length s) = false ->
        decrypt (PyStr s) blob w = ([], Raise InvalidKeyLength))
  /\ (let key := PyStr (repeat 233 8) in
      py_len key = 8%nat
      /\ (exists kb, encode_if_str key = Ok (PyBytes kb)
                     /\ length kb = 16%nat)
      /\ forall w salt,
          exists blob,
            snd (encrypt key (PyBytes scenario_plaintext) w salt) = Ok blob
            /\ decrypt key (PyBytes blob) w = ([], Raise InvalidKeyLength)).
Proof.
  split; [|split].
  - intros s kb plaintext w salt Henc. unfold encrypt.
    cbn [encode_if_str]. rewrite Henc. reflexivity.
  - intros s blob w Hs Hblob Hlen. unfold decrypt, validate_decryption_inputs.
    cbn [py_len]. rewrite Hblob, Hlen.
    replace (length s =? 0)%nat with false
      by (symmetry; apply Nat.eqb_neq; destruct s; [congruence | discriminate]).
    reflexivity.
  - cbv zeta. split; [reflexivity|]. split.
    + eexists. split; [vm_compute; reflexivity | reflexivity].
    + intros w salt.
      assert (Henc : utf8_encode (repeat 233 8)
                     = Ok (concat (repeat [195; 169] 8)))
        by (vm_compute; reflexivity).
      set (kb := concat (repeat [195; 169] 8)) in *.
      destruct (derived kb salt w) as [[aes_key hmac_key] iv] eqn:Ed.
      destruct (encrypt_run kb scenario_plaintext salt w aes_key hmac_key iv)
        as (self & ct & _ & _ & _ & _ & Erun).
      * left. reflexivity.
      * discriminate.
      * repeat constructor; unfold is_ascii; lia.
      * exact Ed.
      * eexists. split.
        -- unfold encrypt in *. cbn [encode_if_str] in *. rewrite Henc.
           cbn [rbind]. rewrite Erun. reflexivity.
        -- unfold decrypt, validate_decryption_inputs.
           cbn [py_len py_truthy]. rewrite !length_app.
           rewrite new_hmac_digest_length. reflexivity.
Qed.

End Plaintext_and_keys.

Section Text_keys.
Context {hashlib : Hashlib}.

(** C7, where the code departs from it.  The text key of eight characters
    U+00E9 has length 8, yet [encrypt] does not raise [InvalidKeyLength]:
    it encodes the key before it validates, finds 16 bytes, derives keys
    from them and returns a blob; [decrypt], which validates before it
    encodes, raises [InvalidKeyLength] for the same key.  The other way
    round, the text key of 16 characters that starts with U+00E9 has 17
    bytes: [encrypt] raises [InvalidKeyLength], [decrypt] goes on to the
    key derivation. *)
Theorem text_key_length_checked_differently (w : positive) (salt : bytes) :
  py_len (PyStr (repeat 233 8)) = 8%nat
  /\ (exists blob rest,
        encrypt (PyStr (repeat 233 8)) (PyBytes scenario_plaintext) w salt
        = (call_urandom 16
           :: call_pbkdf2_hmac (concat (repeat [195; 169] 8)) salt w 48
           :: rest,
           Ok blob))
  /\ (forall blob, py_truthy blob = true ->
        decrypt (PyStr (repeat 233 8)) blob w = ([], Raise InvalidKeyLength))
  /\ utf8_encode (233 :: repeat 97 15) = Ok (195 :: 169 :: repeat 97 15)
  /\ length (195 :: 169 :: repeat 97 15) = 17%nat
  /\ encrypt (PyStr (233 :: repeat 97 15)) (PyBytes scenario_plaintext) w salt
     = ([], Raise InvalidKeyLength)
  /\ (exists rest,
        fst (decrypt (PyStr (233 :: repeat 97 15)) (PyBytes forged_blob) w)
        = call_pbkdf2_hmac (195 :: 169 :: repeat 97 15)
            (firstn 16 (skipn 32 forged_blob)) w 48 :: rest).
Proof.
  assert (Hk8 : encode_if_str (PyStr (repeat 233 8))
                = Ok (PyBytes (concat (repeat [195; 169] 8))))
    by (vm_compute; reflexivity).
  assert (Hk16 : encode_if_str (PyStr (233 :: repeat 97 15))
                 = Ok (PyBytes (195 :: 169 :: repeat 97 15)))
    by (vm_compute; reflexivity).
  split; [reflexivity|]. split; [|split; [|split; [|split; [|split]]]].
  - destruct (derived (concat (repeat [195; 169] 8)) salt w)
      as [[aes_key hmac_key] iv] eqn:Ed.
    destruct (encrypt_run (concat (repeat [195; 169] 8)) scenario_plaintext
                salt w aes_key hmac_key iv)
      as (self & ct & _ & _ & _ & _ & Erun).
    + left. reflexivity.
    + discriminate.
    + repeat constructor; unfold is_ascii; lia.
    + exact Ed.
    + assert (E : encrypt (PyStr (repeat 233 8))
                    (PyBytes scenario_plaintext) w salt
                  = encrypt (PyBytes (concat (repeat [195; 169] 8)))
                      (PyBytes scenario_plaintext) w salt)
        by (unfold encrypt; rewrite Hk8; reflexivity).
      eexists. eexists. rewrite E, Erun. reflexivity.
  - intros blob Hblob. unfold decrypt, validate_decryption_inputs.
    rewrite Hblob. reflexivity.
  - vm_compute. reflexivity.
  - reflexivity.
  - unfold encrypt. rewrite Hk16, bind_lift_Ok. cbn [encode_if_str].
    rewrite bind_lift_Ok. reflexivity.
  - destruct (derived (195 :: 169 :: repeat 97 15)
                (firstn 16 (skipn 32 forged_blob)) w)
      as [[aes_key hmac_key] iv] eqn:Ed.
    destruct (decrypt_run (PyStr (233 :: repeat 97 15))
                (195 :: 169 :: repeat 97 15) forged_blob w
                aes_key hmac_key iv)
      as (self & _ & _ & Erun).
    + reflexivity.
    + exact Hk16.
    + reflexivity.
    + cbn. lia.
    + exact Ed.
    + rewrite Erun. clear Erun.
      destruct (compare_digest _ _); eexists; reflexivity.
Qed.

End Text_keys.

Section Cipher_key.
Context {hashlib : Hashlib}.

(** C10. Whatever the inputs, every cipher that [encrypt] and [decrypt]
    set up is keyed with the first 16 bytes of the PBKDF2 output for the
    encoded key and the salt (the salt drawn in [encrypt], the salt stored
    in the blob in [decrypt]), right after that derivation in the trace;
    such a key has 16 bytes, so [rounds_by_key_size] gives 10 rounds and
    the schedule has 11 round keys; and for master keys of 16, 24 and 32
    bytes alike, [encrypt] on a non-empty ASCII message and [decrypt] on
    its blob do set up that cipher. *)
Theorem api_cipher_key_is_16_bytes :
  (forall (key plaintext : pyval) (w : positive) (salt mk : bytes),
      In (call_AES mk) (fst (encrypt key plaintext w salt)) ->
      exists kb rest,
        encode_if_str key = Ok (PyBytes kb)
        /\ mk = firstn 16 (pbkdf2_hmac kb salt w 48)
        /\ fst (encrypt key plaintext w salt)
           = call_urandom 16 :: call_pbkdf2_hmac kb salt w 48
             :: call_AES mk :: rest)
  /\ (forall (key blob : pyval) (w : positive) (mk : bytes),
        In (call_AES mk) (fst (decrypt key blob w)) ->
        exists kb b rest,
          encode_if_str key = Ok (PyBytes kb) /\ blob = PyBytes b
          /\ mk = firstn 16 (pbkdf2_hmac kb (firstn 16 (skipn 32 b)) w 48)
          /\ fst (decrypt key blob w)
             = call_pbkdf2_hmac kb (firstn 16 (skipn 32 b)) w 48 :: rest
          /\ In (call_AES mk) rest)
  /\ (forall (key plaintext blob : pyval) (w : positive) (salt mk : bytes),
        In (call_AES mk) (fst (encrypt key plaintext w salt))
        \/ In (call_AES mk) (fst (decrypt key blob w)) ->
        length mk = 16%nat
        /\ AES.dict_get AES.rounds_by_key_size (length mk) = Some 10%nat
        /\ exists self, AES.__init__ mk = Ok self
                        /\ AES.n_rounds self = 10%nat
                        /\ length (AES._key_matrices self) = 11%nat)
  /\ (forall (k p salt : bytes) (w : positive),
        valid_key_length (length k) -> p <> [] -> Forall is_ascii p ->
        length salt = 16%nat ->
        exists blob mk,
          snd (encrypt (PyBytes k) (PyBytes p) w salt) = Ok blob
          /\ mk = firstn 16 (pbkdf2_hmac k salt w 48)
          /\ In (call_AES mk) (fst (encrypt (PyBytes k) (PyBytes p) w salt))
          /\ In (call_AES mk) (fst (decrypt (PyBytes k) (PyBytes blob) w))).
Proof.
  split; [|split; [|split]].
  - intros key plaintext w salt mk H. apply encrypt_cipher_key. exact H.
  - intros key blob w mk H. apply decrypt_cipher_key. exact H.
  - intros key plaintext blob w salt mk H.
    assert (Hmk : exists kb s, mk = fst (fst (derived kb s w))).
    { destruct H as [H | H].
      - apply encrypt_cipher_key in H. destruct H as (kb & _ & _ & -> & _).
        exists kb, salt. reflexivity.
      - apply decrypt_cipher_key in H.
        destruct H as (kb & b & _ & _ & _ & -> & _).
        exists kb, (firstn 16 (skipn 32 b)). reflexivity. }
    destruct Hmk as (kb & s & ->).
    destruct (init_derived kb s w) as (self & Einit & Hwf & Hn).
    pose proof (derived_key_facts kb s w) as Hd.
    destruct (derived kb s w) as [[aes_key hmac_key] iv].
    destruct Hd as (Hl & _). cbn [fst] in *.
    split; [exact Hl|]. split; [rewrite Hl; reflexivity|].
    exists self. split; [exact Einit|]. split; [exact Hn|].
    destruct Hwf as [Hlen _]. rewrite Hlen, Hn. reflexivity.
  - intros k p salt w Hk Hp Ha Hs.
    destruct (round_trip_run k p salt w Hk Hp Ha Hs)
      as (blob & mk & te & td & He & Hd & Hte & Htd).
    exists blob, mk. rewrite He, Hd. cbn [fst snd].
    split; [reflexivity|]. split; [|split; assumption].
    assert (H : In (call_AES mk)
                  (fst (encrypt (PyBytes k) (PyBytes p) w salt)))
      by (rewrite He; exact Hte).
    apply encrypt_cipher_key in H. destruct H as (kb & _ & Hkb & -> & _).
    inversion Hkb. reflexivity.
Qed.

End Cipher_key.

(** * The claims at concrete inputs *)

Lemma tag_verified_before_decryption_witness :
  validate_decryption_inputs (PyBytes scenario_key) (PyBytes forged_blob)
  = Ok tt
  /\ firstn 32 forged_blob
     <> @new_hmac_digest example_hashlib
          (snd (fst (@derived example_hashlib scenario_key
                       (firstn 16 (skipn 32 forged_blob)) 1)))
          (firstn 16 (skipn 32 forged_blob) ++ skipn 16 (skipn 32 forged_blob))
  /\ snd (@decrypt example_hashlib (PyBytes scenario_key)
            (PyBytes forged_blob) 1)
     = Raise (AssertionError tampered_msg).
Proof.
  assert (Hneq : firstn 32 forged_blob
     <> @new_hmac_digest example_hashlib
          (snd (fst (@derived example_hashlib scenario_key
                       (firstn 16 (skipn 32 forged_blob)) 1)))
          (firstn 16 (skipn 32 forged_blob)
           ++ skipn 16 (skipn 32 forged_blob))).
  { intros E. vm_compute in E. discriminate E. }
  split; [reflexivity|]. split; [exact Hneq|].
  destruct (@tag_verified_before_decryption example_hashlib
              (PyBytes scenario_key) scenario_key forged_blob 1
              (fst (fst (@derived example_hashlib scenario_key
                           (firstn 16 (skipn 32 forged_blob)) 1)))
              (snd (fst (@derived example_hashlib scenario_key
                           (firstn 16 (skipn 32 forged_blob)) 1)))
              (snd (@derived example_hashlib scenario_key
                      (firstn 16 (skipn 32 forged_blob)) 1))
              eq_refl eq_refl eq_refl) as [_ H].
  - cbn. lia.
  - reflexivity.
  - rewrite (H Hneq). reflexivity.
Defined.

(** Counterexample to C6 as stated: the length of an empty blob is below 32, and
    [decrypt] raises [EncryptDecryptEmptyMessage], not an assertion
    failure. *)
Lemma empty_blob_is_not_a_structural_error :
  (py_len (PyBytes []) < 32)%nat
  /\ @decrypt example_hashlib (PyBytes scenario_key) (PyBytes []) 1
     = ([], Raise EncryptDecryptEmptyMessage)
  /\ forall msg,
       snd (@decrypt example_hashlib (PyBytes scenario_key) (PyBytes []) 1)
       <> Raise (AssertionError msg).
Proof.
  split; [cbn; lia|]. split; [reflexivity|].
  intros msg E. vm_compute in E. discriminate E.
Qed.

Lemma malformed_blob_rejected_witness :
  exists msg,
    @decrypt example_hashlib (PyBytes scenario_key) (PyBytes (repeat 0 33)) 1
    = ([], Raise (AssertionError msg)).
Proof.
  apply (@malformed_blob_rejected example_hashlib).
  - reflexivity.
  - left. cbn. discriminate.
Defined.

Lemma invalid_key_rejected_first_witness :
  @encrypt example_hashlib (PyBytes (repeat 0 8))
     (PyBytes scenario_plaintext) 1 zero_salt
  = ([], Raise InvalidKeyLength)
  /\ @decrypt example_hashlib (PyBytes (repeat 0 8)) (PyBytes forged_blob) 1
     = ([], Raise InvalidKeyLength)
  /\ @encrypt example_hashlib PyNone (PyBytes scenario_plaintext) 1 zero_salt
     = ([], Raise EncryptDecryptWithoutKey)
  /\ @decrypt example_hashlib PyNone (PyBytes forged_blob) 1
     = ([], Raise EncryptDecryptWithoutKey).
Proof.
  destruct (@invalid_key_rejected_first example_hashlib
              (PyBytes (repeat 0 8)) (PyBytes scenario_plaintext)
              (PyBytes forged_blob) 1 zero_salt) as (H & _ & _).
  destruct (H 8%nat) as [He Hd].
  { left. reflexivity. }
  { split; [reflexivity|]. exists (repeat 0 8). split; reflexivity. }
  destruct (@invalid_key_rejected_first example_hashlib
              PyNone (PyBytes scenario_plaintext)
              (PyBytes forged_blob) 1 zero_salt) as (_ & _ & H').
  destruct H' as [He' Hd']; [left; reflexivity|].
  split; [|split; [|split]].
  - apply He. exists scenario_plaintext. split; [reflexivity | discriminate].
  - apply Hd. reflexivity.
  - apply (He' (PyBytes scenario_plaintext)). reflexivity.
  - exact Hd'.
Defined.

Lemma non_ascii_plaintext_rejected_witness :
  @encrypt example_hashlib (PyBytes scenario_key)
     (PyStr [104; 233; 108; 108; 111]) 1 zero_salt
  = ([], Raise UnsupportedMessageType)
  /\ @encrypt example_hashlib (PyBytes scenario_key)
       (PyBytes [104; 195; 169; 108; 108; 111]) 1 zero_salt
     = ([], Raise UnsupportedMessageType).
Proof.
  destruct (@non_ascii_plaintext_rejected example_hashlib
              (PyBytes scenario_key) scenario_key 1 zero_salt)
    as (Hb & _ & Hello).
  - reflexivity.
  - left. reflexivity.
  - split; [exact Hello|].
    apply (Hb _ [104; 233; 108; 108; 111]); [reflexivity|].
    apply Exists_cons_tl, Exists_cons_hd. lia.
Defined.

Lemma text_key_length_asymmetry_witness :
  @encrypt example_hashlib (PyStr (repeat 233 8))
     (PyBytes scenario_plaintext) 1 zero_salt
  = @encrypt example_hashlib (PyBytes (concat (repeat [195; 169] 8)))
      (PyBytes scenario_plaintext) 1 zero_salt
  /\ @decrypt example_hashlib (PyStr (repeat 233 8)) (PyBytes forged_blob) 1
     = ([], Raise InvalidKeyLength).
Proof.
  destruct (@text_key_length_asymmetry example_hashlib) as (Ha & Hb & _).
  split.
  - apply Ha. reflexivity.
  - apply Hb; [discriminate | reflexivity | reflexivity].
Defined.

Lemma api_cipher_key_is_16_bytes_witness :
  exists blob mk,
    snd (@encrypt example_hashlib (PyBytes (kat_key 32))
           (PyBytes scenario_plaintext) 1 zero_salt) = Ok blob
    /\ mk = firstn 16 (@pbkdf2_hmac example_hashlib (kat_key 32)
                         zero_salt 1 48)
    /\ In (call_AES mk)
          (fst (@encrypt example_hashlib (PyBytes (kat_key 32))
                  (PyBytes scenario_plaintext) 1 zero_salt))
    /\ length mk = 16%nat
    /\ exists self, AES.__init__ mk = Ok self /\ AES.n_rounds self = 10%nat.
Proof.
  destruct (@api_cipher_key_is_16_bytes example_hashlib)
    as (_ & _ & Hall & Hsome).
  destruct (Hsome (kat_key 32) scenario_plaintext zero_salt 1%positive)
    as (blob & mk & Hblob & Hmk & Hin & _).
  - right. right. reflexivity.
  - discriminate.
  - repeat constructor; unfold is_ascii; lia.
  - reflexivity.
  - exists blob, mk. split; [exact Hblob|]. split; [exact Hmk|].
    split; [exact Hin|].
    destruct (Hall (PyBytes (kat_key 32)) (PyBytes scenario_plaintext)
                   PyNone 1%positive zero_salt mk (or_introl Hin))
      as (Hl & _ & self & Hi & Hn & _).
    split; [exact Hl|]. exists self. split; assumption.
Defined.

(** * Further properties of the cipher *)

(** The constant matrices are inverse to each other in the other order
    too. *)
Lemma mix_product_id_rev (a : Z) (i j : nat) :
  is_byte a -> (i < 4)%nat -> (j < 4)%nat ->
  mix_product mix_matrix inv_mix_matrix i j a = if (i =? j)%nat then a else 0.
Proof.
  intros Ha Hi Hj.
  assert (H : mix_product_check mix_matrix inv_mix_matrix a = true).
  { revert a Ha. apply byte_forall. vm_compute. reflexivity. }
  unfold mix_product_check in H. rewrite forallb_forall in H.
  specialize (H i). rewrite forallb_forall in H.
  apply Z.eqb_eq, H; apply in_seq; lia.
Qed.

Lemma mix_inv_mix_column (a b c d : Z) :
  is_byte a -> is_byte b -> is_byte c -> is_byte d ->
  gf_mat_col mix_matrix (gf_mat_col inv_mix_matrix [a; b; c; d])
  = [a; b; c; d].
Proof.
  intros Ha Hb Hc Hd.
  pose proof (fun i j => mix_product_id_rev a i j Ha) as Pa.
  pose proof (fun i j => mix_product_id_rev b i j Hb) as Pb.
  pose proof (fun i j => mix_product_id_rev c i j Hc) as Pc.
  pose proof (fun i j => mix_product_id_rev d i j Hd) as Pd.
  unfold gf_mat_col, mix_matrix, inv_mix_matrix, xor_sum. simpl.
  rewrite !Z.lxor_0_r.
  repeat rewrite gf_mul_lxor by solve_byte.
  f_equal; [|f_equal; [|f_equal; [|f_equal]]]; rewrite lxor_transpose.
  - use_product Pa 0%nat 0%nat. use_product Pb 0%nat 1%nat.
    use_product Pc 0%nat 2%nat. use_product Pd 0%nat 3%nat.
    aac_reflexivity.
  - use_product Pa 1%nat 0%nat. use_product Pb 1%nat 1%nat.
    use_product Pc 1%nat 2%nat. use_product Pd 1%nat 3%nat.
    aac_reflexivity.
  - use_product Pa 2%nat 0%nat. use_product Pb 2%nat 1%nat.
    use_product Pc 2%nat 2%nat. use_product Pd 2%nat 3%nat.
    aac_reflexivity.
  - use_product Pa 3%nat 0%nat. use_product Pb 3%nat 1%nat.
    use_product Pc 3%nat 2%nat. use_product Pd 3%nat 3%nat.
    aac_reflexivity.
Qed.

Lemma mix_columns_inv_mix_columns (s : matrix) :
  wf_matrix s -> mix_columns (inv_mix_columns s) = s.
Proof.
  intros Hs. explode_matrix Hs. unfold inv_mix_columns, mix_columns.
  cbn [map]. rewrite !mix_inv_mix_column by assumption. reflexivity.
Qed.

Lemma sub_bytes_inv_sub_bytes (s : matrix) :
  wf_matrix s -> sub_bytes (inv_sub_bytes s) = s.
Proof.
  intros Hs. explode_matrix Hs. unfold inv_sub_bytes, sub_bytes. simpl.
  rewrite !s_box_inv_s_box by assumption. reflexivity.
Qed.

Lemma shift_rows_inv_shift_rows (s : matrix) :
  wf_matrix s -> shift_rows (inv_shift_rows s) = s.
Proof. intros Hs. explode_matrix Hs. reflexivity. Qed.

Lemma inverse_op_involutive (o : round_op) : inverse_op (inverse_op o) = o.
Proof. destruct o; reflexivity. Qed.

(** Every round operation is undone by its inverse, in either direction. *)
Lemma run_op_undo (self : AES.t) (o : round_op) (s : matrix) :
  Forall wf_matrix (AES._key_matrices self) ->
  key_in_range self o -> wf_matrix s ->
  exists s', run_op self o s = Ok s' /\ wf_matrix s'
             /\ run_op self (inverse_op o) s' = Ok s.
Proof.
  intros Hkeys Hin Hs.
  destruct o; try (apply run_op_inverse; [assumption | exact I | assumption
                                          | assumption]); simpl.
  - eexists. split; [reflexivity|]. split; [apply inv_sub_bytes_wf, Hs|].
    rewrite sub_bytes_inv_sub_bytes by assumption. reflexivity.
  - eexists. split; [reflexivity|]. split; [apply inv_shift_rows_wf, Hs|].
    rewrite shift_rows_inv_shift_rows by assumption. reflexivity.
  - eexists. split; [reflexivity|]. split; [apply inv_mix_columns_wf, Hs|].
    rewrite mix_columns_inv_mix_columns by assumption. reflexivity.
Qed.

Lemma run_ops_undo (self : AES.t) (ops : list round_op) (s : matrix) :
  Forall wf_matrix (AES._key_matrices self) ->
  Forall (key_in_range self) ops -> wf_matrix s ->
  exists s', run_ops self ops s = Ok s' /\ wf_matrix s'
             /\ run_ops self (rev (map inverse_op ops)) s' = Ok s.
Proof.
  intros Hkeys. revert s.
  induction ops as [|o ops IH]; intros s Hin Hs.
  - exists s. split; [reflexivity|]. split; [exact Hs | reflexivity].
  - inversion Hin as [|? ? Hi Hin']; subst.
    destruct (run_op_undo self o s Hkeys Hi Hs) as (s1 & E1 & W1 & B1).
    destruct (IH s1 Hin' W1) as (s2 & E2 & W2 & B2).
    exists s2. unfold run_ops in *. simpl. rewrite E1. simpl.
    split; [exact E2|]. split; [exact W2|].
    rewrite for_each_app, B2. simpl. rewrite B1. reflexivity.
Qed.

Lemma key_in_range_inverse (self : AES.t) (ops : list round_op) :
  Forall (key_in_range self) ops ->
  Forall (key_in_range self) (rev (map inverse_op ops)).
Proof.
  intros H. apply Forall_rev. apply Forall_forall. intros o Ho.
  apply in_map_iff in Ho. destruct Ho as (o' & <- & Ho').
  rewrite Forall_forall in H. specialize (H o' Ho').
  destruct o'; exact H.
Qed.

Lemma rev_map_inverse_twice (ops : list round_op) :
  rev (map inverse_op (rev (map inverse_op ops))) = ops.
Proof.
  rewrite map_rev, rev_involutive, map_map.
  rewrite (map_ext _ (fun o => o)) by apply inverse_op_involutive.
  apply map_id.
Qed.

(** Single-block round trip in the other direction. *)
Lemma block_round_trip_rev (self : AES.t) (block : bytes) :
  wf_cipher self -> length block = 16%nat -> all_bytes block ->
  exists pt, AES.decrypt_block self block = Ok pt
    /\ length pt = 16%nat /\ all_bytes pt
    /\ AES.encrypt_block self pt = Ok block.
Proof.
  intros Hwf Hl Hb.
  pose proof (encrypt_ops_in_range self Hwf) as Hr.
  destruct (run_ops_undo self
              (rev (map inverse_op (encrypt_ops (AES.n_rounds self))))
              (bytes2matrix block) (proj2 Hwf)
              (key_in_range_inverse self _ Hr)
              (bytes2matrix_wf block Hl Hb)) as (s & E & W & B).
  rewrite rev_map_inverse_twice in B.
  exists (matrix2bytes s).
  rewrite encrypt_block_ops, decrypt_block_ops by assumption.
  rewrite Hl, decrypt_ops_reverse, E. cbn [assert Nat.eqb rbind].
  rewrite matrix2bytes_length by assumption.
  rewrite bytes2matrix_matrix2bytes by assumption.
  rewrite B. cbn [assert Nat.eqb rbind].
  rewrite matrix2bytes_bytes2matrix by assumption.
  repeat split; try reflexivity. apply matrix2bytes_bytes, W.
Qed.

(** * Further properties of the key schedule *)

Lemma expand_loop_prefix (fuel mkl n isz : nat) (key_columns : list bytes)
    (i : Z) :
  exists more,
    AES.expand_loop fuel mkl n isz key_columns i = key_columns ++ more.
Proof.
  revert key_columns i.
  induction fuel as [|fuel IH]; intros kc i; cbn [AES.expand_loop]; cbv zeta.
  - exists []. rewrite app_nil_r. reflexivity.
  - destruct (length kc <? (n + 1) * 4)%nat.
    + destruct (IH (kc ++ [fst (AES.expand_word mkl isz kc i)])
                   (snd (AES.expand_word mkl isz kc i))) as (more & E).
      rewrite E, <- app_assoc. eexists. reflexivity.
    + exists []. rewrite app_nil_r. reflexivity.
Qed.

(** Cutting a list into consecutive slices of [step] elements and joining
    them gives the list back. *)
Lemma concat_slices {A} (step k : nat) (l : list A) :
  (0 < step)%nat -> length l = (k * step)%nat ->
  concat (map (fun i => slice l (i * step) (i * step + step)) (seq 0 k)) = l.
Proof.
  intros Hs. revert l. induction k as [|k IH]; intros l Hl.
  - destruct l; [reflexivity | simpl in Hl; discriminate Hl].
  - cbn [seq map concat]. rewrite <- seq_shift, map_map.
    transitivity (firstn step l ++ skipn step l); [|apply firstn_skipn].
    f_equal.
    + unfold slice. cbn [Nat.mul Nat.add skipn].
      replace (step - 0)%nat with step by lia. reflexivity.
    + rewrite <- (IH (skipn step l))
        by (rewrite length_skipn, Hl; cbn [Nat.mul]; lia).
      f_equal. apply map_ext. intros i. unfold slice.
      rewrite skipn_skipn. f_equal; [lia | f_equal; lia].
Qed.

Lemma bytes2matrix_concat (text : bytes) (k : nat) :
  length text = (k * 4)%nat -> concat (bytes2matrix text) = text.
Proof.
  intros Hl. unfold bytes2matrix. rewrite Hl, range_step_exact by lia.
  rewrite map_map. apply concat_slices; [lia | exact Hl].
Qed.

Lemma concat_map_concat {A} (ll : list (list (list A))) :
  concat (map (@concat A) ll) = concat (concat ll).
Proof.
  induction ll as [|l ll IH]; [reflexivity|].
  cbn [map concat]. rewrite concat_app, IH. reflexivity.
Qed.

(** The round keys, read in order, start with the master key itself. *)
Lemma expand_key_prefix (n : nat) (master_key : bytes) :
  valid_key_length (length master_key) -> all_bytes master_key ->
  (1 <= n)%nat ->
  exists more,
    concat (map matrix2bytes (AES._expand_key n master_key))
    = master_key ++ more.
Proof.
  intros Hlen Hb Hn.
  assert (Hk : exists k, length master_key = (k * 4)%nat
                         /\ (length master_key / 4 = k)%nat /\ (1 <= k <= 8)%nat).
  { destruct Hlen as [H | [H | H]]; rewrite H;
      [exists 4%nat | exists 6%nat | exists 8%nat]; repeat split; lia. }
  destruct Hk as (k & Hk4 & Hdiv & Hk).
  destruct (bytes2matrix_words master_key k Hk4 Hb) as [Hcols Hwords].
  unfold AES._expand_key. rewrite Hdiv.
  set (kc := AES.expand_loop _ _ _ _ _ _).
  assert (Hkc : length kc = ((n + 1) * 4)%nat /\ Forall wf_word kc).
  { apply expand_loop_spec; try assumption; lia. }
  destruct Hkc as [Hkl Hkw]. cbv zeta. rewrite Hkl, Nat.div_mul by lia.
  destruct (expand_loop_prefix ((n + 1) * 4) (length master_key) n k
              (bytes2matrix master_key) 1) as (more & Emore).
  fold kc in Emore.
  assert (Hgroups : concat (map (fun i => slice kc (4 * i) (4 * (i + 1)))
                                (seq 0 (n + 1))) = kc).
  { etransitivity; [|apply (concat_slices 4 (n + 1) kc); lia].
    f_equal. apply map_ext. intros i. f_equal; lia. }
  exists (concat more).
  rewrite (map_ext matrix2bytes (@concat Z)) by reflexivity.
  etransitivity; [apply concat_map_concat|].
  etransitivity; [apply (f_equal (@concat Z)); exact Hgroups|].
  rewrite Emore, concat_app.
  rewrite (bytes2matrix_concat master_key k Hk4). reflexivity.
Qed.

(** * Further properties of the chained mode *)

Lemma concat_blocks_length (cs : list bytes) :
  Forall (fun c => length c = 16%nat) cs ->
  length (concat cs) = (16 * length cs)%nat.
Proof.
  induction 1 as [|c cs Hc _ IH]; [reflexivity|].
  cbn [concat length]. rewrite length_app, IH, Hc. lia.
Qed.

Lemma pad_app_full (k : nat) (p1 p2 : bytes) :
  length p1 = (16 * k)%nat -> pad (p1 ++ p2) = p1 ++ pad p2.
Proof.
  intros H. unfold pad. rewrite length_app, H, <- app_assoc.
  replace ((16 * k + length p2) mod 16)%nat with (length p2 mod 16)%nat.
  - reflexivity.
  - rewrite Nat.add_comm, Nat.mul_comm, Nat.Div0.mod_add. reflexivity.
Qed.

Lemma full_blocks_bytes (message : bytes) (k : nat) :
  length message = (16 * k)%nat -> all_bytes message ->
  Forall (fun b => length b = 16%nat /\ all_bytes b) (split_blocks message).
Proof.
  intros Hl Hb. destruct (split_blocks_full k message Hl) as (Ec & _ & Fc).
  apply Forall_forall. intros b Hin. split.
  - rewrite Forall_forall in Fc. apply Fc, Hin.
  - apply Forall_forall. intros x Hx. rewrite <- Ec in Hb.
    unfold all_bytes in Hb. rewrite Forall_forall in Hb. apply Hb.
    apply in_concat. exists b. split; assumption.
Qed.

(** The ciphertext blocks of a prefix of full blocks do not depend on
    what follows the prefix. *)
Lemma encrypt_cbc_prefix (self : AES.t) (k : nat) (p1 iv : bytes) :
  wf_cipher self -> length p1 = (16 * k)%nat -> all_bytes p1 ->
  length iv = 16%nat -> all_bytes iv ->
  exists c1,
    length c1 = (16 * k)%nat
    /\ forall p2, all_bytes p2 ->
         exists c2, AES.encrypt_cbc self (p1 ++ p2) iv = Ok (c1 ++ c2).
Proof.
  intros Hwf Hl1 Hb1 Hil Hib.
  destruct (split_blocks_full k p1 Hl1) as (E1 & L1 & F1).
  pose proof (full_blocks_bytes p1 k Hl1 Hb1) as Hblocks1.
  destruct (cbc_loops self _ Hwf Hblocks1 iv [] [] Hil Hib)
    as (cs1 & final & Eloop1 & Hcs1 & Hlen1 & _).
  assert (Hfinal : length final = 16%nat /\ all_bytes final).
  { destruct (split_blocks p1) as [|b bs] eqn:Esb.
    - cbn in Eloop1. inversion Eloop1; subst. split; assumption.
    - clear - Hwf Hblocks1 Hil Hib Eloop1. revert Eloop1.
      generalize (@nil bytes) at 1. generalize iv Hil Hib cs1.
      induction Hblocks1 as [|x l [Hxl Hxb] _ IH];
        intros prev Hpl Hpb cs acc Eloop.
      + cbn in Eloop. inversion Eloop; subst. split; assumption.
      + cbn [for_each fst snd] in Eloop.
        destruct (block_round_trip self (xor_bytes x prev) Hwf)
          as (ct & E & Hcl & Hcb & _).
        { rewrite xor_bytes_length; lia. }
        { apply xor_bytes_bytes; assumption. }
        rewrite E in Eloop. cbn [rbind] in Eloop.
        destruct l as [|y l'].
        * cbn in Eloop. inversion Eloop; subst. split; assumption.
        * eapply (IH ct Hcl Hcb). exact Eloop. }
  destruct Hfinal as [Hfl Hfb].
  exists (concat cs1). split.
  - rewrite concat_blocks_length, Hlen1, L1 by exact Hcs1. reflexivity.
  - intros p2 Hb2.
    pose proof (full_blocks_bytes (pad p2) _ (pad_length p2)
                  (pad_bytes p2 Hb2)) as Hblocks2.
    destruct (split_blocks_full _ _ (pad_length p2)) as (E2 & _ & F2).
    destruct (cbc_loops self _ Hwf Hblocks2 final cs1 [] Hfl Hfb)
      as (cs2 & final2 & Eloop2 & _).
    exists (concat cs2). unfold AES.encrypt_cbc.
    rewrite Hil. cbn [Nat.eqb assert rbind].
    rewrite (pad_app_full k p1 p2 Hl1).
    assert (Esplit : split_blocks (p1 ++ pad p2)
                     = split_blocks p1 ++ split_blocks (pad p2)).
    { rewrite <- E1 at 1. rewrite <- E2 at 1. rewrite <- concat_app.
      apply split_blocks_concat. apply Forall_app. split; assumption. }
    rewrite Esplit, for_each_app. cbn [app] in Eloop1. rewrite Eloop1.
    cbn [rbind]. rewrite Eloop2. cbn [rbind fst].
    rewrite concat_app. reflexivity.
Qed.

(** * Further properties of the API *)

Ltac bools_to_props :=
  repeat match goal with
         | H : _ && _ = true |- _ => apply andb_true_iff in H; destruct H
         | H : _ && _ = false |- _ => apply andb_false_iff in H
         | H : negb _ = true |- _ => apply negb_true_iff in H
         | H : negb _ = false |- _ => apply negb_false_iff in H
         | H : (_ <=? _) = true |- _ => apply Z.leb_le in H
         | H : (_ <=? _) = false |- _ => apply Z.leb_gt in H
         | H : (_ <? _) = true |- _ => apply Z.ltb_lt in H
         | H : (_ <? _) = false |- _ => apply Z.ltb_ge in H
         | H : (_ =? _) = true |- _ => apply Z.eqb_eq in H
         | H : (_ =? _) = false |- _ => apply Z.eqb_neq in H
         | H : utf8_cont _ = true |- _ => unfold utf8_cont in H
         end.

(** Bytes that decode to characters below 128 are those characters. *)
Lemma utf8_decode_low (n : nat) (b : bytes) (cs : list Z) :
  (length b <= n)%nat -> utf8_decode b = Ok cs ->
  Forall (fun c => c <= 127) cs -> cs = b /\ Forall is_ascii b.
Proof.
  revert b cs. induction n as [|n IH]; intros b cs Hn H Hlow.
  - destruct b; [|simpl in Hn; lia]. cbn in H. inversion H.
    split; [reflexivity | constructor].
  - destruct b as [|b0 r0].
    { cbn in H. inversion H. split; [reflexivity | constructor]. }
    cbn [utf8_decode] in H. cbn [length] in Hn.
    destruct ((0 <=? b0) && (b0 <? 128)) eqn:E1.
    { apply rbind_Ok_inv in H. destruct H as (cs' & H & Hcs).
      inversion Hcs; subst cs. inversion Hlow; subst.
      destruct (IH r0 cs') as [-> Hr]; [lia | exact H | assumption |].
      bools_to_props. split; [reflexivity|].
      constructor; [unfold is_ascii; lia | exact Hr]. }
    exfalso.
    destruct ((194 <=? b0) && (b0 <=? 223)) eqn:E2.
    { destruct r0 as [|b1 r1]; [discriminate H|].
      destruct (utf8_cont b1) eqn:C1; [|discriminate H].
      apply rbind_Ok_inv in H. destruct H as (cs' & _ & Hcs).
      inversion Hcs; subst cs. inversion Hlow; subst.
      bools_to_props. lia. }
    destruct ((224 <=? b0) && (b0 <=? 239)) eqn:E3.
    { destruct r0 as [|b1 [|b2 r2]]; try discriminate H.
      destruct (utf8_cont b1) eqn:C1; [|discriminate H].
      destruct (utf8_cont b2) eqn:C2; [|discriminate H].
      cbn [andb] in H.
      destruct (negb ((b0 =? 224) && (b1 <? 160))) eqn:N1;
        [|discriminate H].
      destruct (negb ((b0 =? 237) && (159 <? b1))) eqn:N2;
        [|discriminate H].
      cbn [andb] in H.
      apply rbind_Ok_inv in H. destruct H as (cs' & _ & Hcs).
      inversion Hcs; subst cs. inversion Hlow; subst.
      bools_to_props. lia. }
    destruct ((240 <=? b0) && (b0 <=? 244)) eqn:E4; [|discriminate H].
    destruct r0 as [|b1 [|b2 [|b3 r3]]]; try discriminate H.
    destruct (utf8_cont b1) eqn:C1; [|discriminate H].
    destruct (utf8_cont b2) eqn:C2; [|discriminate H].
    destruct (utf8_cont b3) eqn:C3; [|discriminate H].
    cbn [andb] in H.
    destruct (negb ((b0 =? 240) && (b1 <? 144))) eqn:N1; [|discriminate H].
    destruct (negb ((b0 =? 244) && (143 <? b1))) eqn:N2; [|discriminate H].
    cbn [andb] in H.
    apply rbind_Ok_inv in H. destruct H as (cs' & _ & Hcs).
    inversion Hcs; subst cs. inversion Hlow; subst.
    bools_to_props. lia.
Qed.

Lemma ascii_loop_inv (chars : list Z) :
  for_each chars tt (fun char _ =>
    if 127 <? char then Raise UnsupportedMessageType else Ok tt) = Ok tt ->
  Forall (fun c => c <= 127) chars.
Proof.
  induction chars as [|c chars IH]; cbn [for_each]; intros H; [constructor|].
  destruct (127 <? c) eqn:E; [discriminate H|].
  apply Z.ltb_ge in E. constructor; [exact E | apply IH, H].
Qed.

Lemma utf8_encode_ascii (s : list Z) :
  Forall is_ascii s -> utf8_encode s = Ok s.
Proof.
  induction 1 as [|c s Hc _ IH]; [reflexivity|]. cbn [utf8_encode].
  unfold utf8_encode_char, is_ascii in *.
  replace (c <? 0) with false by (symmetry; apply Z.ltb_ge; lia).
  replace (c <? 128) with true by (symmetry; apply Z.ltb_lt; lia).
  cbn [rbind]. rewrite IH. reflexivity.
Qed.

Section API_more.
Context {hashlib : Hashlib}.

Ltac bind_inv H x Hx :=
  rewrite snd_bind in H; apply rbind_Ok_inv in H;
  destruct H as (x & Hx & H); cbn [snd lift perform] in Hx.

(** [encrypt] sees its arguments only through their encodings. *)
Lemma encrypt_encoded (key plaintext : pyval) (kb pb : bytes)
    (w : positive) (salt : bytes) :
  encode_if_str key = Ok (PyBytes kb) ->
  encode_if_str plaintext = Ok (PyBytes pb) ->
  encrypt key plaintext w salt = encrypt (PyBytes kb) (PyBytes pb) w salt.
Proof.
  intros Hk Hp. unfold encrypt. rewrite Hk, Hp. reflexivity.
Qed.

(** A key given as ASCII text is, for [decrypt], the key given as the
    bytes of its characters. *)
Lemma decrypt_ascii_text_key (s : list Z) (blob : pyval) (w : positive) :
  Forall is_ascii s ->
  decrypt (PyStr s) blob w = decrypt (PyBytes s) blob w.
Proof.
  intros Ha. unfold decrypt, validate_decryption_inputs.
  cbn [py_len encode_if_str]. rewrite (utf8_encode_ascii s Ha).
  reflexivity.
Qed.

Lemma validate_encryption_inputs_iff (k p : bytes) :
  validate_encryption_inputs (PyBytes k) (PyBytes p) = Ok tt
  <-> valid_key_length (length k) /\ p <> [] /\ Forall is_ascii p.
Proof.
  split.
  - intros H. unfold validate_encryption_inputs in H.
    cbn [py_len py_truthy] in H.
    destruct (length k =? 0)%nat; [discriminate H|].
    destruct (length p =? 0)%nat eqn:Ep; [discriminate H|].
    cbn [negb] in H.
    destruct (key_length_ok (length k)) eqn:Ek; [|discriminate H].
    cbn [negb as_bytes rbind] in H.
    apply rbind_Ok_inv in H. destruct H as (chars & Hdec & Hloop).
    apply ascii_loop_inv in Hloop.
    destruct (utf8_decode_low (length p) p chars (le_n _) Hdec Hloop)
      as [_ Ha].
    split; [apply key_length_ok_iff, Ek|]. split; [|exact Ha].
    intros ->. discriminate Ep.
  - intros (Hk & Hp & Ha). apply validate_encryption_inputs_ok; assumption.
Qed.

Lemma utf8_encode_nonempty (s : list Z) (b : bytes) :
  s <> [] -> utf8_encode s = Ok b -> b <> [].
Proof.
  destruct s as [|c s]; [congruence|]. intros _ H. cbn [utf8_encode] in H.
  apply rbind_Ok_inv in H. destruct H as (bc & Hc & H).
  apply rbind_Ok_inv in H. destruct H as (bs & _ & H).
  inversion H; subst b. unfold utf8_encode_char in Hc.
  repeat match type of Hc with
         | (if ?t then _ else _) = _ => destruct t
         end; inversion Hc; discriminate.
Qed.

(** What a plaintext returned by [decrypt] went through. *)
Lemma decrypt_Ok_inv (key blob : pyval) (w : positive) (p : bytes) :
  snd (decrypt key blob w) = Ok p ->
  exists kb b self,
    validate_decryption_inputs key blob = Ok tt
    /\ encode_if_str key = Ok (PyBytes kb)
    /\ blob = PyBytes b
    /\ (length b mod 16 = 0)%nat /\ (32 <= length b)%nat
    /\ firstn 32 b
       = new_hmac_digest
           (snd (fst (derived kb (firstn 16 (skipn 32 b)) w)))
           (firstn 16 (skipn 32 b) ++ skipn 16 (skipn 32 b))
    /\ AES.__init__ (fst (fst (derived kb (firstn 16 (skipn 32 b)) w)))
       = Ok self
    /\ AES.decrypt_cbc self (skipn 16 (skipn 32 b))
         (snd (derived kb (firstn 16 (skipn 32 b)) w)) = Ok p.
Proof.
  intros H. unfold decrypt, HMAC_SIZE, SALT_SIZE in H.
  bind_inv H u Hval. bind_inv H u1 Hmod. bind_inv H u2 Hlen.
  bind_inv H key' Hkey. bind_inv H kb Hkb. bind_inv H b Hb.
  bind_inv H kmi Hkmi. bind_inv H expected Hexp. bind_inv H u3 Hcmp.
  bind_inv H self Hinit. cbn [snd perform] in H.
  apply as_bytes_Ok in Hkb, Hb. subst key' blob. cbn [py_len] in *.
  rewrite get_key_iv_eq in Hkmi. cbn [snd] in Hkmi.
  inversion Hkmi; subst kmi. inversion Hexp; subst expected.
  destruct u. exists kb, b, self.
  split; [exact Hval|]. split; [exact Hkey|]. split; [reflexivity|].
  unfold assert in Hmod, Hlen, Hcmp.
  destruct (length b mod 16 =? 0)%nat eqn:Em; [|discriminate Hmod].
  destruct (32 <=? length b)%nat eqn:El; [|discriminate Hlen].
  unfold compare_digest in Hcmp.
  destruct (list_eq_dec Z.eq_dec _ _) as [Heq|]; [|discriminate Hcmp].
  split; [apply Nat.eqb_eq, Em|]. split; [apply Nat.leb_le, El|].
  split; [exact Heq|]. split; [exact Hinit | exact H].
Qed.

End API_more.

(** * Further properties: the cipher *)

(** X1. [AES(master_key)] fails its assertion for every key that is not
    16, 24 or 32 bytes long; for a key of such a length it runs
    [len(key) / 4 + 6] rounds (10, 12, 14) and holds one 4x4 round key of
    bytes per round plus one. *)
Theorem aes_init_checks_key_length (master_key : bytes) :
  (~ valid_key_length (length master_key) ->
   AES.__init__ master_key = Raise (AssertionError ""))
  /\ (valid_key_length (length master_key) -> all_bytes master_key ->
      exists self,
        AES.__init__ master_key = Ok self
        /\ AES.n_rounds self = (length master_key / 4 + 6)%nat
        /\ length (AES._key_matrices self) = (AES.n_rounds self + 1)%nat
        /\ Forall wf_matrix (AES._key_matrices self)).
Proof.
  split.
  - intros Hbad. unfold AES.__init__, AES.rounds_by_key_size.
    cbn [AES.dict_get].
    destruct (Nat.eqb_spec 16 (length master_key)) as [E|_];
      [exfalso; apply Hbad; left; congruence|].
    destruct (Nat.eqb_spec 24 (length master_key)) as [E|_];
      [exfalso; apply Hbad; right; left; congruence|].
    destruct (Nat.eqb_spec 32 (length master_key)) as [E|_];
      [exfalso; apply Hbad; right; right; congruence|].
    reflexivity.
  - intros Hlen Hb.
    destruct (init_ok master_key Hlen Hb) as (self & E & [Hl Hw] & Hn).
    exists self. split; [exact E|]. split; [|split; assumption].
    destruct Hlen as [H | [H | H]]; rewrite H in Hn |- *; cbn in Hn;
      inversion Hn; reflexivity.
Qed.

Lemma aes_init_checks_key_length_witness :
  AES.__init__ (kat_key 17) = Raise (AssertionError "")
  /\ exists self,
       AES.__init__ (kat_key 24) = Ok self
       /\ AES.n_rounds self = 12%nat
       /\ length (AES._key_matrices self) = 13%nat.
Proof.
  split.
  - apply (proj1 (aes_init_checks_key_length (kat_key 17))).
    intros [H | [H | H]]; discriminate H.
  - destruct (proj2 (aes_init_checks_key_length (kat_key 24)))
      as (self & E & Hn & Hl & _).
    + right. left. reflexivity.
    + apply all_bytes_check. vm_compute. reflexivity.
    + exists self. split; [exact E|]. split; [exact Hn|].
      rewrite Hl, Hn. reflexivity.
Defined.

(** X2. The round keys of an instance, read in order, start with the
    master key itself: the schedule is seeded with the raw key material
    and the loop only appends to it. *)
Theorem key_schedule_starts_with_master_key (master_key : bytes) :
  valid_key_length (length master_key) -> all_bytes master_key ->
  exists self more,
    AES.__init__ master_key = Ok self
    /\ concat (map matrix2bytes (AES._key_matrices self))
       = master_key ++ more.
Proof.
  intros Hlen Hb.
  destruct (init_ok master_key Hlen Hb) as (self & E & _ & Hn).
  assert (H1 : (1 <= AES.n_rounds self)%nat).
  { destruct Hlen as [H | [H | H]]; rewrite H in Hn; cbn in Hn;
      inversion Hn; lia. }
  unfold AES.__init__ in E. rewrite Hn in E. inversion E as [Eself].
  rewrite <- Eself in H1. cbn [AES.n_rounds] in H1.
  destruct (expand_key_prefix (AES.n_rounds self) master_key Hlen Hb)
    as (more & Hmore).
  { rewrite <- Eself. exact H1. }
  exists self, more. split.
  - unfold AES.__init__. rewrite Hn. rewrite Eself. reflexivity.
  - rewrite <- Eself at 1. cbn [AES._key_matrices].
    rewrite <- Eself in Hmore. cbn [AES.n_rounds] in Hmore. exact Hmore.
Qed.

Lemma key_schedule_starts_with_master_key_witness :
  exists self more,
    AES.__init__ (kat_key 32) = Ok self
    /\ concat (map matrix2bytes (AES._key_matrices self))
       = kat_key 32 ++ more.
Proof.
  apply (key_schedule_starts_with_master_key (kat_key 32)).
  - right. right. reflexivity.
  - apply all_bytes_check. vm_compute. reflexivity.
Defined.

(** X3. Under any key of 16, 24 or 32 bytes [encrypt_block] is a
    permutation of the 16-byte blocks with [decrypt_block] as its
    inverse: every block has a preimage, which [decrypt_block] returns,
    and two different blocks never encrypt to the same block. *)
Theorem block_cipher_is_a_permutation (master_key : bytes) :
  valid_key_length (length master_key) -> all_bytes master_key ->
  exists self,
    AES.__init__ master_key = Ok self
    /\ (forall c, length c = 16%nat -> all_bytes c ->
          exists p, AES.decrypt_block self c = Ok p
                    /\ length p = 16%nat /\ all_bytes p
                    /\ AES.encrypt_block self p = Ok c)
    /\ (forall b1 b2 c,
          length b1 = 16%nat -> all_bytes b1 ->
          length b2 = 16%nat -> all_bytes b2 ->
          AES.encrypt_block self b1 = Ok c ->
          AES.encrypt_block self b2 = Ok c -> b1 = b2).
Proof.
  intros Hlen Hb.
  destruct (init_ok master_key Hlen Hb) as (self & E & Hwf & _).
  exists self. split; [exact E|]. split.
  - intros c Hl Hc. apply block_round_trip_rev; assumption.
  - intros b1 b2 c Hl1 Hb1 Hl2 Hb2 E1 E2.
    destruct (block_round_trip self b1 Hwf Hl1 Hb1) as (c1 & E1' & _ & _ & D1).
    destruct (block_round_trip self b2 Hwf Hl2 Hb2) as (c2 & E2' & _ & _ & D2).
    assert (c1 = c) by congruence. assert (c2 = c) by congruence.
    subst c1 c2. congruence.
Qed.

Lemma block_cipher_is_a_permutation_witness :
  exists self,
    AES.__init__ (kat_key 16) = Ok self
    /\ exists p, AES.decrypt_block self kat_plaintext = Ok p
                 /\ AES.encrypt_block self p = Ok kat_plaintext.
Proof.
  destruct (block_cipher_is_a_permutation (kat_key 16))
    as (self & E & Hsur & _).
  - left. reflexivity.
  - apply all_bytes_check. vm_compute. reflexivity.
  - exists self. split; [exact E|].
    destruct (Hsur kat_plaintext) as (p & D & _ & _ & E').
    + reflexivity.
    + apply all_bytes_check. vm_compute. reflexivity.
    + exists p. split; assumption.
Defined.

(** X4. [encrypt_block] and [decrypt_block] fail their assertion on
    every input that is not 16 bytes long, and map a block of 16 bytes to
    a block of 16 bytes. *)
Theorem block_size_checked_and_kept (master_key : bytes) :
  valid_key_length (length master_key) -> all_bytes master_key ->
  exists self,
    AES.__init__ master_key = Ok self
    /\ (forall b, length b <> 16%nat ->
          AES.encrypt_block self b = Raise (AssertionError "")
          /\ AES.decrypt_block self b = Raise (AssertionError ""))
    /\ (forall b, length b = 16%nat -> all_bytes b ->
          exists c d,
            AES.encrypt_block self b = Ok c
            /\ length c = 16%nat /\ all_bytes c
            /\ AES.decrypt_block self b = Ok d
            /\ length d = 16%nat /\ all_bytes d).
Proof.
  intros Hlen Hb.
  destruct (init_ok master_key Hlen Hb) as (self & E & Hwf & _).
  exists self. split; [exact E|]. split.
  - intros b Hl. unfold AES.encrypt_block, AES.decrypt_block.
    replace (length b =? 16)%nat with false
      by (symmetry; apply Nat.eqb_neq; exact Hl).
    split; reflexivity.
  - intros b Hl Hbb.
    destruct (block_round_trip self b Hwf Hl Hbb) as (c & Ec & Hcl & Hcb & _).
    destruct (block_round_trip_rev self b Hwf Hl Hbb)
      as (d & Ed & Hdl & Hdb & _).
    exists c, d. repeat (split; [assumption|]). assumption.
Qed.

Lemma block_size_checked_and_kept_witness :
  exists self,
    AES.__init__ (kat_key 16) = Ok self
    /\ AES.encrypt_block self scenario_plaintext = Raise (AssertionError "")
    /\ exists c, AES.encrypt_block self kat_plaintext = Ok c
                 /\ length c = 16%nat.
Proof.
  destruct (block_size_checked_and_kept (kat_key 16))
    as (self & E & Hbad & Hgood).
  - left. reflexivity.
  - apply all_bytes_check. vm_compute. reflexivity.
  - exists self. split; [exact E|]. split.
    + apply Hbad. cbn. discriminate.
    + destruct (Hgood kat_plaintext) as (c & d & Ec & Hl & _).
      * reflexivity.
      * apply all_bytes_check. vm_compute. reflexivity.
      * exists c. split; assumption.
Defined.

(** * Further properties: the chained mode *)

(** X5. [decrypt_cbc] undoes [encrypt_cbc] for every plaintext of bytes,
    the empty one and those of full blocks included, under every key of
    16, 24 or 32 bytes and every IV of 16 bytes; the ciphertext has one
    block of 16 bytes more than the plaintext has full blocks. *)
Theorem cbc_round_trip_any_plaintext (master_key plaintext iv : bytes) :
  valid_key_length (length master_key) -> all_bytes master_key ->
  all_bytes plaintext -> length iv = 16%nat -> all_bytes iv ->
  exists self ciphertext,
    AES.__init__ master_key = Ok self
    /\ AES.encrypt_cbc self plaintext iv = Ok ciphertext
    /\ length ciphertext = (16 * (length plaintext / 16 + 1))%nat
    /\ AES.decrypt_cbc self ciphertext iv = Ok plaintext.
Proof.
  intros Hlen Hb Hp Hil Hib.
  destruct (init_ok master_key Hlen Hb) as (self & E & Hwf & _).
  destruct (cbc_round_trip self plaintext iv Hwf Hp Hil Hib)
    as (ct & Ee & Hl & Ed).
  exists self, ct. repeat (split; [assumption|]). assumption.
Qed.

Lemma cbc_round_trip_any_plaintext_witness :
  exists self ciphertext,
    AES.__init__ (kat_key 24) = Ok self
    /\ AES.encrypt_cbc self [] zero_salt = Ok ciphertext
    /\ length ciphertext = 16%nat
    /\ AES.decrypt_cbc self ciphertext zero_salt = Ok [].
Proof.
  apply (cbc_round_trip_any_plaintext (kat_key 24) [] zero_salt).
  - right. left. reflexivity.
  - apply all_bytes_check. vm_compute. reflexivity.
  - constructor.
  - reflexivity.
  - apply all_bytes_check. vm_compute. reflexivity.
Defined.

(** X6. In [encrypt_cbc] a ciphertext block depends only on the IV and
    on the plaintext up to its own block: the first [k] ciphertext blocks
    of a plaintext that starts with [k] full blocks are the same whatever
    follows them. *)
Theorem cbc_prefix_is_independent_of_the_rest
    (master_key iv p1 : bytes) (k : nat) :
  valid_key_length (length master_key) -> all_bytes master_key ->
  length iv = 16%nat -> all_bytes iv ->
  length p1 = (16 * k)%nat -> all_bytes p1 ->
  exists self c1,
    AES.__init__ master_key = Ok self
    /\ length c1 = (16 * k)%nat
    /\ forall p2, all_bytes p2 ->
         exists c2, AES.encrypt_cbc self (p1 ++ p2) iv = Ok (c1 ++ c2).
Proof.
  intros Hlen Hb Hil Hib Hl1 Hb1.
  destruct (init_ok master_key Hlen Hb) as (self & E & Hwf & _).
  destruct (encrypt_cbc_prefix self k p1 iv Hwf Hl1 Hb1 Hil Hib)
    as (c1 & Hc1 & H).
  exists self, c1. split; [exact E|]. split; assumption.
Qed.

Lemma cbc_prefix_is_independent_of_the_rest_witness :
  exists self c1,
    AES.__init__ (kat_key 16) = Ok self
    /\ length c1 = 16%nat
    /\ forall p2, all_bytes p2 ->
         exists c2,
           AES.encrypt_cbc self (kat_plaintext ++ p2) zero_salt
           = Ok (c1 ++ c2).
Proof.
  apply (cbc_prefix_is_independent_of_the_rest
           (kat_key 16) zero_salt kat_plaintext 1).
  - left. reflexivity.
  - apply all_bytes_check. vm_compute. reflexivity.
  - reflexivity.
  - apply all_bytes_check. vm_compute. reflexivity.
  - reflexivity.
  - apply all_bytes_check. vm_compute. reflexivity.
Defined.

(** * Further properties: the API *)

Section API_extras.
Context {hashlib : Hashlib}.

(** X8. [get_key_iv] makes one call to PBKDF2 for 48 bytes and cuts its
    output, in order, into the AES key, the HMAC key and the IV, 16 bytes
    each. *)
Theorem get_key_iv_partitions_the_stretched_key
    (password salt : bytes) (workload : positive) :
  exists aes_key hmac_key iv,
    get_key_iv password salt workload
    = ([call_pbkdf2_hmac password salt workload 48],
       Ok (aes_key, hmac_key, iv))
    /\ aes_key ++ hmac_key ++ iv = pbkdf2_hmac password salt workload 48
    /\ length aes_key = 16%nat /\ length hmac_key = 16%nat
    /\ length iv = 16%nat.
Proof.
  pose proof (pbkdf2_hmac_length password salt workload 48) as Hl.
  eexists. eexists. eexists. split; [apply get_key_iv_eq|].
  set (s := pbkdf2_hmac password salt workload 48) in *.
  split.
  - rewrite <- (firstn_skipn 16 s) at 4.
    rewrite <- (firstn_skipn 16 (skipn 16 s)) at 3.
    do 2 f_equal. apply firstn_all2. rewrite !length_skipn. lia.
  - rewrite !length_firstn, !length_skipn. lia.
Qed.

(** X9. [validate_encryption_inputs] lets a key and a message of bytes
    through exactly when the key has 16, 24 or 32 bytes and the message
    is not empty and all its bytes are below 128. *)
Theorem validate_encryption_inputs_accepts_ascii_only (k p : bytes) :
  validate_encryption_inputs (PyBytes k) (PyBytes p) = Ok tt
  <-> valid_key_length (length k) /\ p <> [] /\ Forall is_ascii p.
Proof. apply validate_encryption_inputs_iff. Qed.

(** X10. With a key that is not empty, an empty or missing message makes
    [encrypt] and [decrypt] raise [EncryptDecryptEmptyMessage] whatever
    the length of the key: the message is looked at before the key
    length, and nothing is derived. *)
Theorem empty_message_reported_before_key_length
    (key key' message : pyval) (w : positive) (salt : bytes) :
  key <> PyNone -> py_len key <> 0%nat ->
  py_truthy message = false ->
  (encode_if_str key = Ok key' ->
   encrypt key message w salt = ([], Raise EncryptDecryptEmptyMessage))
  /\ decrypt key message w = ([], Raise EncryptDecryptEmptyMessage).
Proof.
  intros Hnone Hlen Hmsg. split.
  - intros Hkey.
    assert (Hmsg' : exists m, encode_if_str message = Ok m
                              /\ py_truthy m = false).
    { destruct message as [| b | s].
      - exists PyNone. split; reflexivity.
      - exists (PyBytes b). split; [reflexivity | exact Hmsg].
      - destruct s; [|discriminate Hmsg].
        exists (PyBytes []). split; reflexivity. }
    destruct Hmsg' as (m & Hm & Hmt).
    assert (Hkey' : (match key' with
                     | PyNone => true
                     | _ => (py_len key' =? 0)%nat
                     end) = false).
    { destruct key as [| kb | s]; [congruence | |].
      - inversion Hkey; subst key'. apply Nat.eqb_neq. exact Hlen.
      - cbn [encode_if_str] in Hkey. apply rbind_Ok_inv in Hkey.
        destruct Hkey as (b & Hb & Hkey). inversion Hkey; subst key'.
        apply Nat.eqb_neq. cbn [py_len] in *.
        assert (b <> []) by (apply (utf8_encode_nonempty s);
                             [intros ->; apply Hlen; reflexivity | exact Hb]).
        destruct b; [congruence | discriminate]. }
    unfold encrypt. rewrite Hkey, bind_lift_Ok, Hm, bind_lift_Ok.
    unfold validate_encryption_inputs. rewrite Hkey', Hmt. reflexivity.
  - unfold decrypt, validate_decryption_inputs. rewrite Hmsg.
    replace (py_len key =? 0)%nat with false
      by (symmetry; apply Nat.eqb_neq; exact Hlen).
    destruct key; [congruence | reflexivity | reflexivity].
Qed.

(** X11. A message of bytes that is not valid UTF-8 makes [encrypt] raise
    [UnicodeDecodeError], not [UnsupportedMessageType]: the message is
    decoded as a whole before its characters are looked at. *)
Theorem undecodable_plaintext_raises_decode_error
    (k p : bytes) (w : positive) (salt : bytes) :
  valid_key_length (length k) ->
  utf8_decode p = Raise UnicodeDecodeError ->
  encrypt (PyBytes k) (PyBytes p) w salt = ([], Raise UnicodeDecodeError).
Proof.
  intros Hk Hdec. unfold encrypt. cbn [encode_if_str].
  rewrite !bind_lift_Ok. unfold validate_encryption_inputs.
  cbn [py_len py_truthy].
  apply key_length_ok_iff in Hk as Hk'. rewrite Hk'.
  replace (length k =? 0)%nat with false
    by (symmetry; apply Nat.eqb_neq; destruct Hk as [H|[H|H]]; lia).
  destruct p as [|b0 p]; [discriminate Hdec|].
  cbn [length Nat.eqb negb as_bytes rbind]. rewrite Hdec. reflexivity.
Qed.

(** X12. [encrypt] returns a blob exactly when its arguments, once text
    is encoded, pass [validate_encryption_inputs]: past the validation
    no assertion of the cipher or of [encrypt] itself can fail, whatever
    the salt. *)
Theorem encrypt_returns_iff_inputs_validate
    (key plaintext : pyval) (w : positive) (salt : bytes) :
  (exists blob, snd (encrypt key plaintext w salt) = Ok blob)
  <-> (exists kb pb,
         encode_if_str key = Ok (PyBytes kb)
         /\ encode_if_str plaintext = Ok (PyBytes pb)
         /\ validate_encryption_inputs (PyBytes kb) (PyBytes pb) = Ok tt).
Proof.
  split.
  - intros (blob & H). apply encrypt_Ok_inv in H.
    destruct H as (kb & pb & _ & _ & Hk & Hp & Hv & _).
    exists kb, pb. repeat split; assumption.
  - intros (kb & pb & Hk & Hp & Hv).
    apply validate_encryption_inputs_iff in Hv.
    destruct Hv as (Hlen & Hne & Ha).
    destruct (derived kb salt w) as [[aes_key hmac_key] iv] eqn:Ed.
    destruct (encrypt_run kb pb salt w aes_key hmac_key iv Hlen Hne Ha Ed)
      as (self & ct & _ & _ & _ & _ & Erun).
    eexists. rewrite (encrypt_encoded key plaintext kb pb w salt Hk Hp), Erun.
    reflexivity.
Qed.

(** X13. Round trip on text: for a key of 16, 24 or 32 ASCII characters
    and a non-empty message of ASCII characters, both passed as text,
    [decrypt] with the same text key gives the bytes of the message. *)
Theorem text_round_trip (key message salt : bytes) (w : positive) :
  valid_key_length (length key) -> Forall is_ascii key ->
  message <> [] -> Forall is_ascii message -> length salt = 16%nat ->
  exists blob,
    snd (encrypt (PyStr key) (PyStr message) w salt) = Ok blob
    /\ snd (decrypt (PyStr key) (PyBytes blob) w) = Ok message.
Proof.
  intros Hk Hka Hm Hma Hs.
  destruct (round_trip_run key message salt w Hk Hm Hma Hs)
    as (blob & mk & te & td & He & Hd & _).
  exists blob.
  rewrite (encrypt_encoded (PyStr key) (PyStr message) key message).
  - rewrite (decrypt_ascii_text_key key _ w Hka), He, Hd.
    split; reflexivity.
  - cbn [encode_if_str]. rewrite (utf8_encode_ascii key Hka). reflexivity.
  - cbn [encode_if_str]. rewrite (utf8_encode_ascii message Hma).
    reflexivity.
Qed.

(** X14. The salt drawn by [encrypt] is bytes 32 to 47 of the blob, so
    two calls that draw different salts return different blobs, even for
    the same key and message. *)
Theorem salt_is_stored_in_the_blob
    (key plaintext : pyval) (w : positive) (salt1 salt2 blob1 blob2 : bytes) :
  length salt1 = 16%nat -> length salt2 = 16%nat ->
  snd (encrypt key plaintext w salt1) = Ok blob1 ->
  snd (encrypt key plaintext w salt2) = Ok blob2 ->
  firstn 16 (skipn 32 blob1) = salt1
  /\ firstn 16 (skipn 32 blob2) = salt2
  /\ (salt1 <> salt2 -> blob1 <> blob2).
Proof.
  intros Hs1 Hs2 H1 H2.
  assert (Hsalt : forall salt blob,
             length salt = 16%nat ->
             snd (encrypt key plaintext w salt) = Ok blob ->
             firstn 16 (skipn 32 blob) = salt).
  { intros salt blob Hs H. apply encrypt_Ok_inv in H.
    destruct H as (kb & pb & self & ct & _ & _ & _ & _ & _ & Htag & ->).
    rewrite skipn_app, Htag, Nat.sub_diag, skipn_all2 by lia.
    cbn [skipn app].
    rewrite firstn_app, Hs, Nat.sub_diag, firstn_O, app_nil_r.
    apply firstn_all2. lia. }
  pose proof (Hsalt salt1 blob1 Hs1 H1) as E1.
  pose proof (Hsalt salt2 blob2 Hs2 H2) as E2.
  split; [exact E1|]. split; [exact E2|].
  intros Hneq Heq. apply Hneq. rewrite <- E1, <- E2, Heq. reflexivity.
Qed.

(** X15. The tag of a blob [encrypt] returns is the HMAC, under the
    derived HMAC key, of everything that follows it in the blob. *)
Theorem encrypt_tag_is_hmac_of_the_rest
    (key plaintext : pyval) (w : positive) (salt blob : bytes) :
  snd (encrypt key plaintext w salt) = Ok blob ->
  exists kb,
    encode_if_str key = Ok (PyBytes kb)
    /\ firstn 32 blob
       = new_hmac_digest (snd (fst (derived kb salt w))) (skipn 32 blob).
Proof.
  intros H. apply encrypt_Ok_inv in H.
  destruct H as (kb & pb & self & ct & Hk & _ & _ & _ & _ & Htag & ->).
  exists kb. split; [exact Hk|].
  rewrite skipn_app, Htag, Nat.sub_diag, skipn_all2 by lia.
  cbn [skipn app].
  rewrite firstn_app, Htag, Nat.sub_diag, firstn_O, app_nil_r.
  apply firstn_all2. lia.
Qed.

(** X16. [decrypt] returns a plaintext only for a blob of bytes whose
    first 32 bytes are the HMAC of the rest under the key derived from
    the given key and the salt in the blob: nothing is returned for a
    blob that does not authenticate. *)
Theorem decrypt_returns_only_authenticated
    (key blob : pyval) (w : positive) (p : bytes) :
  snd (decrypt key blob w) = Ok p ->
  exists kb b,
    encode_if_str key = Ok (PyBytes kb) /\ blob = PyBytes b
    /\ firstn 32 b
       = new_hmac_digest
           (snd (fst (derived kb (firstn 16 (skipn 32 b)) w)))
           (skipn 32 b).
Proof.
  intros H. apply decrypt_Ok_inv in H.
  destruct H as (kb & b & self & _ & Hk & -> & _ & _ & Htag & _).
  exists kb, b. split; [exact Hk|]. split; [reflexivity|].
  rewrite firstn_skipn in Htag. exact Htag.
Qed.

(** X17. [decrypt] never returns a plaintext for a blob of fewer than 64
    bytes: the length assertion lets 32 and 48 bytes through, but then
    the ciphertext is empty and has no padding to remove. *)
Theorem decrypt_needs_a_ciphertext_block
    (key blob : pyval) (w : positive) (p : bytes) :
  snd (decrypt key blob w) = Ok p -> (64 <= py_len blob)%nat.
Proof.
  intros H. apply decrypt_Ok_inv in H.
  destruct H as (kb & b & self & _ & _ & -> & Hmod & Hlen & _ & _ & Hcbc).
  cbn [py_len]. destruct (le_lt_dec 64 (length b)) as [|Hlt]; [assumption|].
  exfalso.
  assert (Hct : skipn 16 (skipn 32 b) = []).
  { apply length_zero_iff_nil. rewrite !length_skipn.
    pose proof (Nat.div_mod_eq (length b) 16). lia. }
  rewrite Hct in Hcbc. unfold AES.decrypt_cbc in Hcbc.
  destruct (assert _ _); cbn in Hcbc; discriminate Hcbc.
Qed.

(** X18. A blob of exactly 32 bytes passes both length assertions of
    [decrypt]: its salt is empty, and the first thing [decrypt] does with
    it is to derive keys from the empty salt. *)
Theorem header_of_32_bytes_reaches_key_derivation
    (key : pyval) (kb b : bytes) (w : positive) :
  validate_decryption_inputs key (PyBytes b) = Ok tt ->
  encode_if_str key = Ok (PyBytes kb) -> length b = 32%nat ->
  exists rest,
    fst (decrypt key (PyBytes b) w)
    = call_pbkdf2_hmac kb [] w 48 :: rest.
Proof.
  intros Hv Hk Hl.
  assert (Hsalt : firstn 16 (skipn 32 b) = []).
  { rewrite skipn_all2 by lia. reflexivity. }
  destruct (derived kb [] w) as [[aes_key hmac_key] iv] eqn:Ed.
  destruct (decrypt_run key kb b w aes_key hmac_key iv Hv Hk)
    as (self & _ & _ & Erun).
  - rewrite Hl. reflexivity.
  - lia.
  - rewrite Hsalt. exact Ed.
  - rewrite Erun, Hsalt. clear Erun.
    destruct (compare_digest _ _); eexists; reflexivity.
Qed.

(** X19. A text key of 16, 24 or 32 characters whose UTF-8 encoding has
    another length is refused by [encrypt] with [InvalidKeyLength] and
    let through by [decrypt], which derives keys from its UTF-8 bytes. *)
Theorem text_key_counted_in_characters_by_decrypt
    (s kb b : bytes) (plaintext : pyval) (w : positive) (salt : bytes) :
  valid_key_length (length s) -> utf8_encode s = Ok kb ->
  ~ valid_key_length (length kb) ->
  (length b mod 16 = 0)%nat -> (32 <= length b)%nat ->
  (non_empty_message plaintext ->
   encrypt (PyStr s) plaintext w salt = ([], Raise InvalidKeyLength))
  /\ exists rest,
       fst (decrypt (PyStr s) (PyBytes b) w)
       = call_pbkdf2_hmac kb (firstn 16 (skipn 32 b)) w 48 :: rest.
Proof.
  intros Hs Henc Hkb Hmod Hlen. split.
  - intros (pb & Hpb & Hne). unfold encrypt. cbn [encode_if_str].
    rewrite Henc. cbn [rbind]. rewrite bind_lift_Ok, Hpb, bind_lift_Ok.
    unfold validate_encryption_inputs. cbn [py_len py_truthy].
    assert (Hkne : kb <> []).
    { apply (utf8_encode_nonempty s); [|exact Henc].
      intros ->. destruct Hs as [H|[H|H]]; discriminate H. }
    replace (length kb =? 0)%nat with false
      by (symmetry; apply Nat.eqb_neq; destruct kb;
          [congruence | discriminate]).
    replace (length pb =? 0)%nat with false
      by (symmetry; apply Nat.eqb_neq; destruct pb;
          [congruence | discriminate]).
    destruct (key_length_ok (length kb)) eqn:E; [|reflexivity].
    apply key_length_ok_iff in E. contradiction.
  - destruct (derived kb (firstn 16 (skipn 32 b)) w)
      as [[aes_key hmac_key] iv] eqn:Ed.
    destruct (decrypt_run (PyStr s) kb b w aes_key hmac_key iv)
      as (self & _ & _ & Erun).
    + unfold validate_decryption_inputs. cbn [py_len py_truthy].
      apply key_length_ok_iff in Hs as Hs'. rewrite Hs'.
      replace (length s =? 0)%nat with false
        by (symmetry; apply Nat.eqb_neq; destruct Hs as [H|[H|H]]; lia).
      replace (length b =? 0)%nat with false
        by (symmetry; apply Nat.eqb_neq; lia).
      reflexivity.
    + cbn [encode_if_str]. rewrite Henc. reflexivity.
    + exact Hmod.
    + exact Hlen.
    + exact Ed.
    + rewrite Erun. clear Erun.
      destruct (compare_digest _ _); eexists; reflexivity.
Qed.

End API_extras.

(** * The scenario, evaluated *)

Ltac run_cipher Hi Hc :=
  vm_compute in Hi; injection Hi as <-;
  vm_compute in Hc; injection Hc as <-.

Lemma scenario_blob_encrypted :
  snd (@encrypt example_hashlib (PyBytes scenario_key)
         (PyBytes scenario_plaintext) 1 zero_salt)
  = Ok (scenario_blob zero_salt).
Proof.
  destruct (@encrypt_run example_hashlib scenario_key scenario_plaintext
              zero_salt 1
              (fst (fst (@derived example_hashlib scenario_key zero_salt 1)))
              (snd (fst (@derived example_hashlib scenario_key zero_salt 1)))
              (snd (@derived example_hashlib scenario_key zero_salt 1)))
    as (self & ct & Hi & Hc & _ & _ & E).
  - left. reflexivity.
  - discriminate.
  - repeat constructor; unfold is_ascii; lia.
  - reflexivity.
  - rewrite E. run_cipher Hi Hc. vm_compute. reflexivity.
Qed.

Lemma scenario_blob_encrypted_ones :
  snd (@encrypt example_hashlib (PyBytes scenario_key)
         (PyBytes scenario_plaintext) 1 (repeat 1 16))
  = Ok (scenario_blob (repeat 1 16)).
Proof.
  destruct (@encrypt_run example_hashlib scenario_key scenario_plaintext
              (repeat 1 16) 1
              (fst (fst (@derived example_hashlib scenario_key
                           (repeat 1 16) 1)))
              (snd (fst (@derived example_hashlib scenario_key
                           (repeat 1 16) 1)))
              (snd (@derived example_hashlib scenario_key (repeat 1 16) 1)))
    as (self & ct & Hi & Hc & _ & _ & E).
  - left. reflexivity.
  - discriminate.
  - repeat constructor; unfold is_ascii; lia.
  - reflexivity.
  - rewrite E. run_cipher Hi Hc. vm_compute. reflexivity.
Qed.

Lemma scenario_blob_decrypted :
  snd (@decrypt example_hashlib (PyBytes scenario_key)
         (PyBytes (scenario_blob zero_salt)) 1)
  = Ok scenario_plaintext.
Proof.
  destruct (@decrypt_run example_hashlib (PyBytes scenario_key) scenario_key
              (scenario_blob zero_salt) 1
              (fst (fst (@derived example_hashlib scenario_key
                           (firstn 16 (skipn 32 (scenario_blob zero_salt)))
                           1)))
              (snd (fst (@derived example_hashlib scenario_key
                           (firstn 16 (skipn 32 (scenario_blob zero_salt)))
                           1)))
              (snd (@derived example_hashlib scenario_key
                      (firstn 16 (skipn 32 (scenario_blob zero_salt))) 1)))
    as (self & Hi & _ & E).
  - reflexivity.
  - reflexivity.
  - reflexivity.
  - cbn. lia.
  - reflexivity.
  - rewrite E. vm_compute in Hi. injection Hi as <-.
    vm_compute. reflexivity.
Qed.

Lemma validate_encryption_inputs_accepts_ascii_only_witness :
  @validate_encryption_inputs (PyBytes scenario_key)
     (PyBytes scenario_plaintext) = Ok tt.
Proof.
  apply (proj2 (validate_encryption_inputs_accepts_ascii_only
                  scenario_key scenario_plaintext)).
  split; [left; reflexivity|]. split; [discriminate|].
  repeat constructor; unfold is_ascii; lia.
Defined.

Lemma empty_message_reported_before_key_length_witness :
  @encrypt example_hashlib (PyBytes [1; 2; 3]) (PyBytes []) 1 zero_salt
  = ([], Raise EncryptDecryptEmptyMessage)
  /\ @decrypt example_hashlib (PyBytes [1; 2; 3]) (PyBytes []) 1
     = ([], Raise EncryptDecryptEmptyMessage).
Proof.
  destruct (@empty_message_reported_before_key_length example_hashlib
              (PyBytes [1; 2; 3]) (PyBytes [1; 2; 3]) (PyBytes []) 1
              zero_salt) as [He Hd].
  - discriminate.
  - cbn. discriminate.
  - reflexivity.
  - split; [apply He; reflexivity | exact Hd].
Defined.

Lemma undecodable_plaintext_raises_decode_error_witness :
  @encrypt example_hashlib (PyBytes scenario_key) (PyBytes [255]) 1 zero_salt
  = ([], Raise UnicodeDecodeError).
Proof.
  apply (@undecodable_plaintext_raises_decode_error example_hashlib).
  - left. reflexivity.
  - reflexivity.
Defined.

Lemma encrypt_returns_iff_inputs_validate_witness :
  exists blob,
    snd (@encrypt example_hashlib (PyStr scenario_key)
           (PyStr scenario_plaintext) 1 zero_salt) = Ok blob.
Proof.
  apply (proj2 (@encrypt_returns_iff_inputs_validate example_hashlib
                  (PyStr scenario_key) (PyStr scenario_plaintext) 1
                  zero_salt)).
  exists scenario_key, scenario_plaintext.
  split; [reflexivity|]. split; reflexivity.
Defined.

Lemma text_round_trip_witness :
  exists blob,
    snd (@encrypt example_hashlib (PyStr scenario_key)
           (PyStr scenario_plaintext) 1 zero_salt) = Ok blob
    /\ snd (@decrypt example_hashlib (PyStr scenario_key) (PyBytes blob) 1)
       = Ok scenario_plaintext.
Proof.
  apply (@text_round_trip example_hashlib).
  - left. reflexivity.
  - repeat constructor; unfold is_ascii; lia.
  - discriminate.
  - repeat constructor; unfold is_ascii; lia.
  - reflexivity.
Defined.

Lemma salt_is_stored_in_the_blob_witness :
  firstn 16 (skipn 32 (scenario_blob zero_salt)) = zero_salt
  /\ scenario_blob zero_salt <> scenario_blob (repeat 1 16).
Proof.
  destruct (@salt_is_stored_in_the_blob example_hashlib
              (PyBytes scenario_key) (PyBytes scenario_plaintext) 1
              zero_salt (repeat 1 16)
              (scenario_blob zero_salt) (scenario_blob (repeat 1 16)))
    as (E1 & _ & Hneq).
  - reflexivity.
  - reflexivity.
  - exact scenario_blob_encrypted.
  - exact scenario_blob_encrypted_ones.
  - split; [exact E1|]. apply Hneq. discriminate.
Defined.

Lemma encrypt_tag_is_hmac_of_the_rest_witness :
  exists kb,
    encode_if_str (PyBytes scenario_key) = Ok (PyBytes kb)
    /\ firstn 32 (scenario_blob zero_salt)
       = @new_hmac_digest example_hashlib
           (snd (fst (@derived example_hashlib kb zero_salt 1)))
           (skipn 32 (scenario_blob zero_salt)).
Proof.
  apply (@encrypt_tag_is_hmac_of_the_rest example_hashlib
           (PyBytes scenario_key) (PyBytes scenario_plaintext)).
  exact scenario_blob_encrypted.
Defined.

Lemma decrypt_returns_only_authenticated_witness :
  exists kb b,
    encode_if_str (PyBytes scenario_key) = Ok (PyBytes kb)
    /\ PyBytes (scenario_blob zero_salt) = PyBytes b
    /\ firstn 32 b
       = @new_hmac_digest example_hashlib
           (snd (fst (@derived example_hashlib kb
                        (firstn 16 (skipn 32 b)) 1)))
           (skipn 32 b).
Proof.
  apply (@decrypt_returns_only_authenticated example_hashlib
           (PyBytes scenario_key) (PyBytes (scenario_blob zero_salt)) 1
           scenario_plaintext).
  exact scenario_blob_decrypted.
Defined.

Lemma decrypt_needs_a_ciphertext_block_witness :
  (64 <= py_len (PyBytes (scenario_blob zero_salt)))%nat.
Proof.
  apply (@decrypt_needs_a_ciphertext_block example_hashlib
           (PyBytes scenario_key) (PyBytes (scenario_blob zero_salt)) 1
           scenario_plaintext).
  exact scenario_blob_decrypted.
Defined.

Lemma header_of_32_bytes_reaches_key_derivation_witness :
  exists rest,
    fst (@decrypt example_hashlib (PyBytes scenario_key)
           (PyBytes (repeat 0 32)) 1)
    = call_pbkdf2_hmac scenario_key [] 1 48 :: rest.
Proof.
  apply (@header_of_32_bytes_reaches_key_derivation example_hashlib);
    reflexivity.
Defined.

Lemma text_key_counted_in_characters_by_decrypt_witness :
  @encrypt example_hashlib (PyStr (233 :: repeat 97 15))
     (PyBytes scenario_plaintext) 1 zero_salt
  = ([], Raise InvalidKeyLength)
  /\ exists rest,
       fst (@decrypt example_hashlib (PyStr (233 :: repeat 97 15))
              (PyBytes forged_blob) 1)
       = call_pbkdf2_hmac (195 :: 169 :: repeat 97 15)
           (firstn 16 (skipn 32 forged_blob)) 1 48 :: rest.
Proof.
  destruct (@text_key_counted_in_characters_by_decrypt example_hashlib
              (233 :: repeat 97 15) (195 :: 169 :: repeat 97 15)
              forged_blob (PyBytes scenario_plaintext) 1 zero_salt)
    as [He Hd].
  - left. reflexivity.
  - reflexivity.
  - intros [H | [H | H]]; discriminate H.
  - reflexivity.
  - cbn. lia.
  - split; [|exact Hd]. apply He.
    exists scenario_plaintext. split; [reflexivity | discriminate].
Defined.

Lemma utf8_encode_Raise (s : list Z) (e : exn) :
  utf8_encode s = Raise e -> e = UnicodeEncodeError.
Proof.
  induction s as [|c s IH]; [discriminate|]. cbn [utf8_encode].
  destruct (utf8_encode_char c) as [bc|e'] eqn:Ec; cbn [rbind].
  - destruct (utf8_encode s) as [bs|e'']; cbn [rbind]; [discriminate|].
    intros H. apply IH. exact H.
  - intros H. inversion H; subst e'. unfold utf8_encode_char in Ec.
    repeat match type of Ec with
           | (if ?t then _ else _) = _ => destruct t
           end; congruence.
Qed.

Section API_order.
Context {hashlib : Hashlib}.

(** X20. The two length assertions of [decrypt] are made in this order:
    a blob whose length is not a multiple of 16 fails the first, also when
    it is shorter than 32 bytes, and the second fails for blobs of
    exactly 16 bytes and for no other. *)
Theorem decrypt_length_assertions_in_order
    (key blob : pyval) (w : positive) :
  validate_decryption_inputs key blob = Ok tt ->
  ((py_len blob mod 16 <> 0)%nat ->
   decrypt key blob w = ([], Raise (AssertionError full_blocks_msg)))
  /\ (decrypt key blob w = ([], Raise (AssertionError too_short_msg))
      <-> py_len blob = 16%nat).
Proof.
  intros Hv.
  assert (Hne : py_len blob <> 0%nat).
  { unfold validate_decryption_inputs in Hv.
    destruct (match key with PyNone => true | _ => (py_len key =? 0)%nat end);
      [discriminate Hv|].
    destruct blob as [| [|b0 b] | [|c s]]; cbn in Hv;
      try discriminate Hv; cbn; discriminate. }
  split.
  - intros Hmod. unfold decrypt. rewrite Hv, bind_lift_Ok.
    replace (py_len blob mod 16 =? 0)%nat with false
      by (symmetry; apply Nat.eqb_neq; exact Hmod).
    reflexivity.
  - unfold decrypt. rewrite Hv, bind_lift_Ok.
    destruct (py_len blob mod 16 =? 0)%nat eqn:Emod; cbn [assert].
    + rewrite bind_lift_Ok. apply Nat.eqb_eq in Emod.
      destruct (32 <=? py_len blob)%nat eqn:Elen; cbn [assert].
      * rewrite bind_lift_Ok. apply Nat.leb_le in Elen.
        split; [|intros E; lia]. intros H. exfalso.
        destruct (encode_if_str key) as [k|e] eqn:Ek.
        -- rewrite bind_lift_Ok in H.
           destruct k as [| kb | s]; cbn [as_bytes] in H;
             try (rewrite bind_lift_Raise in H; discriminate H).
           rewrite bind_lift_Ok in H.
           destruct blob as [| b | s]; cbn [as_bytes] in H;
             try (rewrite bind_lift_Raise in H; discriminate H).
           rewrite bind_lift_Ok in H. cbv zeta in H.
           rewrite get_key_iv_eq, bind_pair_Ok in H. discriminate H.
        -- rewrite bind_lift_Raise in H.
           destruct key as [| kb | s]; try discriminate Ek.
           cbn [encode_if_str] in Ek.
           destruct (utf8_encode s) as [b|e'] eqn:Es; [discriminate Ek|].
           apply utf8_encode_Raise in Es. subst e'.
           cbn [rbind] in Ek. congruence.
      * rewrite bind_lift_Raise. apply Nat.leb_gt in Elen.
        split; [|reflexivity]. intros _.
        pose proof (Nat.div_mod_eq (py_len blob) 16). lia.
    + rewrite bind_lift_Raise. apply Nat.eqb_neq in Emod.
      split.
      * intros H. inversion H.
      * intros E. rewrite E in Emod. exfalso. apply Emod. reflexivity.
Qed.

(** X21. A call of [encrypt] that returns has made exactly these calls,
    in this order: 16 random bytes for the salt, PBKDF2 on the encoded
    key and that salt, the cipher set up with the derived key, the
    message encrypted in chained mode under the derived IV, and last the
    HMAC over salt and ciphertext under the derived HMAC key; the key
    given by the caller goes to PBKDF2 only. *)
Theorem encrypt_then_mac_call_sequence
    (key plaintext : pyval) (w : positive) (salt blob : bytes) :
  snd (encrypt key plaintext w salt) = Ok blob ->
  exists kb pb ct,
    encode_if_str key = Ok (PyBytes kb)
    /\ encode_if_str plaintext = Ok (PyBytes pb)
    /\ skipn 32 blob = salt ++ ct
    /\ fst (encrypt key plaintext w salt)
       = [call_urandom 16;
          call_pbkdf2_hmac kb salt w 48;
          call_AES (fst (fst (derived kb salt w)));
          call_encrypt_cbc pb (snd (derived kb salt w));
          call_new_hmac (snd (fst (derived kb salt w))) (salt ++ ct)].
Proof.
  intros H. apply encrypt_Ok_inv in H.
  destruct H as (kb & pb & self & ct & Hk & Hp & Hv & Hi & Hc & Htag & ->).
  exists kb, pb, ct. split; [exact Hk|]. split; [exact Hp|]. split.
  - rewrite skipn_app, Htag, Nat.sub_diag, skipn_all2 by lia. reflexivity.
  - apply validate_encryption_inputs_iff in Hv.
    destruct Hv as (Hlen & Hne & Ha).
    destruct (derived kb salt w) as [[aes_key hmac_key] iv] eqn:Ed.
    destruct (encrypt_run kb pb salt w aes_key hmac_key iv Hlen Hne Ha Ed)
      as (self' & ct' & Hi' & Hc' & _ & _ & Erun).
    cbn [fst snd] in Hi, Hc |- *.
    assert (self' = self) by congruence. subst self'.
    assert (ct' = ct) by congruence. subst ct'.
    rewrite (encrypt_encoded key plaintext kb pb w salt Hk Hp), Erun.
    reflexivity.
Qed.

End API_order.

Lemma decrypt_length_assertions_in_order_witness :
  @decrypt example_hashlib (PyBytes scenario_key) (PyBytes (repeat 0 17)) 1
  = ([], Raise (AssertionError full_blocks_msg))
  /\ @decrypt example_hashlib (PyBytes scenario_key) (PyBytes (repeat 0 16)) 1
     = ([], Raise (AssertionError too_short_msg)).
Proof.
  split.
  - apply (proj1 (@decrypt_length_assertions_in_order example_hashlib
                    (PyBytes scenario_key) (PyBytes (repeat 0 17)) 1
                    eq_refl)).
    cbn. discriminate.
  - apply (proj2 (@decrypt_length_assertions_in_order example_hashlib
                    (PyBytes scenario_key) (PyBytes (repeat 0 16)) 1
                    eq_refl)).
    reflexivity.
Defined.

Lemma encrypt_then_mac_call_sequence_witness :
  exists kb pb ct,
    encode_if_str (PyBytes scenario_key) = Ok (PyBytes kb)
    /\ encode_if_str (PyBytes scenario_plaintext) = Ok (PyBytes pb)
    /\ skipn 32 (scenario_blob zero_salt) = zero_salt ++ ct
    /\ fst (@encrypt example_hashlib (PyBytes scenario_key)
              (PyBytes scenario_plaintext) 1 zero_salt)
       = [call_urandom 16;
          call_pbkdf2_hmac kb zero_salt 1 48;
          call_AES (fst (fst (@derived example_hashlib kb zero_salt 1)));
          call_encrypt_cbc pb (snd (@derived example_hashlib kb zero_salt 1));
          call_new_hmac (snd (fst (@derived example_hashlib kb zero_salt 1)))
            (zero_salt ++ ct)].
Proof.
  apply (@encrypt_then_mac_call_sequence example_hashlib).
  exact scenario_blob_encrypted.
Defined.
